(** * NEO Worker v4.0 (hot sessions): a shallow embedding of [src/worker.ts]

    The development follows the source file top-down: JavaScript strings,
    the site-map types, the keyword [PATTERNS], the action matcher, the
    action executors over an abstract automation driver, and the session
    store of [HotSessionManager]. *)

From Stdlib Require Import String Ascii.
From Stdlib Require Import List ZArith NArith Lia Bool Arith Permutation.
Import ListNotations.

Set Implicit Arguments.

(* ================================================================== *)
(** ** JavaScript strings *)
(* ================================================================== *)

(** A JavaScript string is a sequence of UTF-16 code units. *)
Definition jsstring := list N.

Module Utf.

(** Code units of one code point (a surrogate pair above the BMP). *)
Definition emit (cp : N) : list N :=
  if (cp <? 65536)%N then [cp]
  else let v := (cp - 65536)%N in
       [(55296 + N.shiftr v 10)%N; (56320 + N.land v 1023)%N].

(** UTF-8 decoding of a source literal; [acc] is the code point under
    construction and [need] the number of continuation bytes still due. *)
Fixpoint decode (s : string) (acc : N) (need : nat) : list N :=
  match s with
  | EmptyString => []
  | String a s' =>
    let b := N_of_ascii a in
    match need with
    | O =>
      if (b <? 128)%N then b :: decode s' 0%N 0
      else if (b <? 224)%N then decode s' (N.land b 31) 1
      else if (b <? 240)%N then decode s' (N.land b 15) 2
      else decode s' (N.land b 7) 3
    | S n =>
      let acc' := (acc * 64 + N.land b 63)%N in
      match n with
      | O => emit acc' ++ decode s' 0%N 0
      | S _ => decode s' acc' n
      end
    end
  end.

End Utf.

(** [js "..."] is the JavaScript string denoted by a literal of the source. *)
Definition js (s : string) : jsstring := Utf.decode s 0%N 0.

(** A literal is compared as written before it is decoded. *)
Strategy 100 [js].

Definition jseqb (a b : jsstring) : bool :=
  if list_eq_dec N.eq_dec a b then true else false.

(** A string is truthy when it is not empty. *)
Definition truthy (s : jsstring) : bool :=
  match s with [] => false | _ :: _ => true end.

(** [String.prototype.startsWith]. *)
Fixpoint startsWith (s p : jsstring) : bool :=
  match p, s with
  | [], _ => true
  | _ :: _, [] => false
  | c :: p', d :: s' => N.eqb c d && startsWith s' p'
  end.

(** [String.prototype.includes]: [p] occurs in [s] as a substring. *)
Fixpoint includes (s p : jsstring) : bool :=
  startsWith s p ||
  match s with
  | [] => false
  | _ :: s' => includes s' p
  end.

(** [Array.prototype.includes] on an array of strings. *)
Definition arr_includes (l : list jsstring) (x : jsstring) : bool :=
  existsb (jseqb x) l.

(** [Array.prototype.join]. *)
Fixpoint join (sep : jsstring) (l : list jsstring) : jsstring :=
  match l with
  | [] => []
  | [x] => x
  | x :: l' => x ++ sep ++ join sep l'
  end.

(** The decimal numeral of an integer; it numbers the sites of the
    concrete runs. *)
Module Dec.

Definition digit (d : N) : N := (48 + d)%N.

Fixpoint digits (fuel : nat) (n : N) (acc : jsstring) : jsstring :=
  match fuel with
  | O => acc
  | S f =>
    let acc' := digit (n mod 10) :: acc in
    if (n <? 10)%N then acc' else digits f (n / 10)%N acc'
  end.

Definition of_N (n : N) : jsstring := digits (S (N.to_nat (N.log2 n))) n [].

Definition of_Z (z : Z) : jsstring :=
  match z with
  | Z0 => [digit 0]
  | Zpos p => of_N (Npos p)
  | Zneg p => 45%N :: of_N (Npos p)
  end.

End Dec.

(** The restriction of [String.prototype.toLowerCase] to the Latin and
    Cyrillic letters, the scripts of the worker's vocabulary; every other
    code unit is left as it is.  The worker itself is embedded over an
    arbitrary [toLowerCase]; this instance serves the concrete runs. *)
Definition lower_unit (c : N) : N :=
  if ((65 <=? c) && (c <=? 90))%N then (c + 32)%N
  else if ((192 <=? c) && (c <=? 222) && negb (c =? 215))%N then (c + 32)%N
  else if ((1040 <=? c) && (c <=? 1071))%N then (c + 32)%N
  else if ((1024 <=? c) && (c <=? 1039))%N then (c + 80)%N
  else c.

Definition toLowerCase_latin_cyrillic (s : jsstring) : jsstring :=
  map lower_unit s.

(* ================================================================== *)
(** ** TYPES *)
(* ================================================================== *)

Inductive ActionType := booking | contact | navigation | submit | other.

Inductive FieldType := date | number | text | select.

Definition ActionType_eqb (a b : ActionType) : bool :=
  match a, b with
  | booking, booking | contact, contact | navigation, navigation
  | submit, submit | other, other => true
  | _, _ => false
  end.

Definition FieldType_eqb (a b : FieldType) : bool :=
  match a, b with
  | date, date | number, number | text, text | select, select => true
  | _, _ => false
  end.

Record SiteMapButton := {
  btn_text : jsstring;
  btn_selector : jsstring;
  btn_keywords : list jsstring;
  action_type : ActionType;
}.

Record SiteMapField := {
  fld_name : jsstring;
  fld_selector : jsstring;
  fld_type : FieldType;
  fld_keywords : list jsstring;
}.

Record SiteMapForm := {
  form_selector : jsstring;
  fields : list SiteMapField;
  submit_button : jsstring;
}.

Record PriceEntry := {
  price_text : jsstring;
  price_context : jsstring;
}.

Record SiteMap := {
  site_id : jsstring;
  url : jsstring;
  buttons : list SiteMapButton;
  forms : list SiteMapForm;
  prices : list PriceEntry;
}.

(** A JavaScript number, as the worker looks at it: through [String(n)],
    the text that [fillForm] writes.  That text is [0] for both zeros and
    [NaN] for NaN, and another text for every other number ([2], [2.5],
    [1e+21], [Infinity]); the zeros and NaN are the falsy numbers. *)
Record JsNumber := { numberText : jsstring }.

Definition falsy_number (n : JsNumber) : bool :=
  jseqb (numberText n) (js "0") || jseqb (numberText n) (js "NaN").

(** [ExecuteRequest['data']]: every member is optional. *)
Record ExecuteData := {
  check_in : option jsstring;
  check_out : option jsstring;
  guests : option JsNumber;
}.

(** Truthiness of an optional string member ([undefined] and the empty
    string are falsy) and of an optional number ([undefined], the zeros
    and NaN are falsy). *)
Definition truthy_opt (o : option jsstring) : bool :=
  match o with Some s => truthy s | None => false end.

Definition truthy_num (o : option JsNumber) : bool :=
  match o with Some n => negb (falsy_number n) | None => false end.

(** The descriptor returned by [matchAction], one constructor per [type]. *)
Inductive Action :=
| fill_form (form : SiteMapForm) (data : option ExecuteData)
| click (selector : jsstring) (buttonText : option jsstring)
| return_prices
| return_contact
| navigate (target : jsstring)
| observe.

(* ================================================================== *)
(** ** UNIVERSAL KEYWORD PATTERNS *)
(* ================================================================== *)

Module PATTERNS.

Definition booking : list jsstring :=
  map js ["резерв"; "book"; "запази"; "наличност"; "свободн"; "availability";
          "reserve"; "нощувк"]%string.
Definition check_in : list jsstring :=
  map js ["от"; "check-in"; "checkin"; "настаняване"; "пристигане"; "arrival";
          "from"; "start"]%string.
Definition check_out : list jsstring :=
  map js ["до"; "check-out"; "checkout"; "напускане"; "заминаване";
          "departure"; "to"; "end"]%string.
Definition guests : list jsstring :=
  map js ["човека"; "души"; "гости"; "guests"; "adults"; "persons"; "двама";
          "трима"; "възрастни"; "брой"]%string.
Definition prices : list jsstring :=
  map js ["цена"; "цени"; "price"; "струва"; "колко"; "cost"; "rate";
          "тариф"]%string.
Definition contact : list jsstring :=
  map js ["контакт"; "contact"; "свържи"; "обади"; "телефон"; "имейл";
          "email"]%string.
Definition search : list jsstring :=
  map js ["търси"; "search"; "find"; "провери"; "check"; "покажи";
          "show"]%string.
Definition rooms : list jsstring :=
  map js ["стая"; "стаи"; "room"; "rooms"; "апартамент"; "suite";
          "настаняване"]%string.

End PATTERNS.

(* ================================================================== *)
(** ** ACTION MATCHING - no AI, just patterns *)
(* ================================================================== *)

(** A rule that [return]s leaves the cascade; one that does not falls
    through to the rest. *)
Notation "'try_return' r 'orelse' k" :=
  (match r with Some a => a | None => k end)
  (at level 10, r at level 100, k at level 200, only parsing).

Section Matcher.

Variable toLowerCase : jsstring -> jsstring.

(** The predicate of [siteMap.forms.find] in the booking rule. *)
Definition dateField (field : SiteMapField) : bool :=
  FieldType_eqb (fld_type field) date
  || existsb (fun k => arr_includes (fld_keywords field) k) PATTERNS.check_in
  || existsb (fun k => arr_includes (fld_keywords field) k) PATTERNS.check_out.

Definition dateForm (f : SiteMapForm) : bool := existsb dateField (fields f).

(** [b.action_type === tag || pats.some(p => b.text.toLowerCase().includes(p))]. *)
Definition textMatches (pats : list jsstring) (b : SiteMapButton) : bool :=
  existsb (fun p => includes (toLowerCase (btn_text b)) p) pats.

Definition taggedOrMatches (tag : ActionType) (pats : list jsstring)
    (b : SiteMapButton) : bool :=
  ActionType_eqb (action_type b) tag || textMatches pats b.

Definition clickOn (b : SiteMapButton) : Action :=
  click (btn_selector b) (Some (btn_text b)).

Definition hasDates (data : option ExecuteData) : bool :=
  match data with
  | Some d => truthy_opt (check_in d) || truthy_opt (check_out d)
  | None => false
  end.

Definition matchAction (keywords : list jsstring) (siteMap : SiteMap)
    (data : option ExecuteData) : Action :=
  let joined := toLowerCase (join (js " ") keywords) in
  let mentions pats := existsb (fun p => includes joined p) pats in
  (* 1. BOOKING - if has dates or booking keywords *)
  let hasBookingKeyword := mentions PATTERNS.booking in
  try_return
    (if hasBookingKeyword || hasDates data then
       match find dateForm (forms siteMap) with
       | Some form => Some (fill_form form data)
       | None =>
         match find (taggedOrMatches booking PATTERNS.booking) (buttons siteMap) with
         | Some bookBtn => Some (clickOn bookBtn)
         | None => None
         end
       end
     else None)
  orelse
  (* 2. PRICES *)
  try_return
    (if mentions PATTERNS.prices then
       match prices siteMap with
       | _ :: _ => Some return_prices
       | [] => None
       end
     else None)
  orelse
  (* 3. CONTACT *)
  try_return
    (if mentions PATTERNS.contact then
       match find (taggedOrMatches contact PATTERNS.contact) (buttons siteMap) with
       | Some contactBtn => Some (clickOn contactBtn)
       | None => Some return_contact
       end
     else None)
  orelse
  (* 4. ROOMS *)
  try_return
    (if mentions PATTERNS.rooms then
       match find (textMatches PATTERNS.rooms) (buttons siteMap) with
       | Some roomsBtn => Some (clickOn roomsBtn)
       | None => None
       end
     else None)
  orelse
  (* 5. SEARCH/CHECK button *)
  try_return
    (if mentions PATTERNS.search then
       match find (taggedOrMatches submit PATTERNS.search) (buttons siteMap) with
       | Some searchBtn => Some (clickOn searchBtn)
       | None => None
       end
     else None)
  orelse
  (* 6. Match specific button by keywords *)
  try_return
    (match find (fun btn =>
                   let btnKeywords := map toLowerCase (btn_keywords btn) in
                   existsb (fun kw => arr_includes btnKeywords (toLowerCase kw))
                           keywords)
                (buttons siteMap) with
     | Some btn => Some (clickOn btn)
     | None => None
     end)
  orelse
  (* Default: observe *)
  observe.

End Matcher.

(* ================================================================== *)
(** ** formatPrices *)
(* ================================================================== *)

Definition formatPrice (p : PriceEntry) : jsstring :=
  if truthy (price_context p)
  then price_context p ++ js ": " ++ price_text p
  else price_text p.

Definition formatPrices (prices : list PriceEntry) : jsstring :=
  match prices with
  | [] => js "Не намерих цени на сайта"
  | _ :: _ =>
    let formatted := join (js "; ") (map formatPrice (firstn 5 prices)) in
    js "Цени: " ++ formatted
  end.

(* ================================================================== *)
(** ** Regular expressions of [getContactInfo] *)
(* ================================================================== *)

(** The fragment of the JavaScript regular expressions that the worker's
    literals use: classes, sequence, ordered alternative, greedy [?],
    bounded repetition and greedy [+] over a class.  [runs r s] lists the
    ways [r] matches a prefix of [s], as (matched, rest), in the order in
    which the backtracking matcher tries them; [exec] keeps the first. *)
Module Regex.

Inductive re :=
| Eps
| Cls (p : N -> bool)
| Seq (r1 r2 : re)
| Alt (r1 r2 : re)
| Plus (p : N -> bool).

Definition Opt (r : re) : re := Alt r Eps.

Fixpoint Lit (s : jsstring) : re :=
  match s with
  | [] => Eps
  | c :: s' => Seq (Cls (N.eqb c)) (Lit s')
  end.

Fixpoint times (n : nat) (r : re) : re :=
  match n with
  | O => Eps
  | S n' => Seq r (times n' r)
  end.

Fixpoint upto (n : nat) (r : re) : re :=
  match n with
  | O => Eps
  | S n' => Opt (Seq r (upto n' r))
  end.

(** [r{lo,hi}], greedy. *)
Definition Rep (lo hi : nat) (r : re) : re := Seq (times lo r) (upto (hi - lo) r).

Fixpoint plus_runs (p : N -> bool) (s : jsstring) : list (jsstring * jsstring) :=
  match s with
  | [] => []
  | c :: s' =>
    if p c
    then map (fun mr => (c :: fst mr, snd mr)) (plus_runs p s') ++ [([c], s')]
    else []
  end.

Fixpoint runs (r : re) (s : jsstring) : list (jsstring * jsstring) :=
  match r with
  | Eps => [([], s)]
  | Cls p =>
    match s with
    | c :: s' => if p c then [([c], s')] else []
    | [] => []
    end
  | Seq r1 r2 =>
    flat_map (fun mr1 =>
                map (fun mr2 => (fst mr1 ++ fst mr2, snd mr2)) (runs r2 (snd mr1)))
             (runs r1 s)
  | Alt r1 r2 => runs r1 s ++ runs r2 s
  | Plus p => plus_runs p s
  end.

(** The match at the start of [s], if any. *)
Definition exec (r : re) (s : jsstring) : option jsstring :=
  match runs r s with
  | mr :: _ => Some (fst mr)
  | [] => None
  end.

(** [text.match(r)?.[0]]: the leftmost match (with or without the [g]
    flag, element 0 is the first match of the text). *)
Fixpoint search (r : re) (s : jsstring) : option jsstring :=
  match exec r s with
  | Some m => Some m
  | None =>
    match s with
    | [] => None
    | _ :: s' => search r s'
    end
  end.

(** The least number of code units a match of [r] has. *)
Fixpoint minlen (r : re) : nat :=
  match r with
  | Eps => 0
  | Cls _ => 1
  | Seq r1 r2 => minlen r1 + minlen r2
  | Alt r1 r2 => Nat.min (minlen r1) (minlen r2)
  | Plus _ => 1
  end.

Definition between (lo hi c : N) : bool := ((lo <=? c) && (c <=? hi))%N.

(** [\d], [\w] and [\s] (white space and line terminators). *)
Definition digit (c : N) : bool := between 48 57 c.

Definition word (c : N) : bool :=
  digit c || between 65 90 c || between 97 122 c || (c =? 95)%N.

Definition space (c : N) : bool :=
  between 9 13 c || (c =? 32)%N || (c =? 160)%N || (c =? 5760)%N
  || between 8192 8202 c || (c =? 8232)%N || (c =? 8233)%N || (c =? 8239)%N
  || (c =? 8287)%N || (c =? 12288)%N || (c =? 65279)%N.

End Regex.

Import Regex.

(** [[\s-]] and [[\w.-]]. *)
Definition sep_class (c : N) : bool := space c || (c =? 45)%N.
Definition addr_class (c : N) : bool := word c || (c =? 46)%N || (c =? 45)%N.

Definition countryOrZero : re := Alt (Lit (js "+359")) (Lit (js "0")).

(** [/(\+359|0)[\s-]?\d{2,3}[\s-]?\d{3}[\s-]?\d{3}/g]. *)
Definition phonePermissive : re :=
  Seq countryOrZero
 (Seq (Opt (Cls sep_class))
 (Seq (Rep 2 3 (Cls digit))
 (Seq (Opt (Cls sep_class))
 (Seq (times 3 (Cls digit))
 (Seq (Opt (Cls sep_class))
      (times 3 (Cls digit))))))).

(** [/(\+359|0)\d{9}/g]. *)
Definition phoneStrict : re := Seq countryOrZero (times 9 (Cls digit)).

Definition phonePatterns : list re := [phonePermissive; phoneStrict].

(** [/[\w.-]+@[\w.-]+\.\w+/]. *)
Definition emailPattern : re :=
  Seq (Plus addr_class)
 (Seq (Lit (js "@"))
 (Seq (Plus addr_class)
 (Seq (Lit (js "."))
      (Plus word)))).

(** The loop over [phonePatterns]: the first pattern that matches gives
    the phone and ends the loop. *)
Fixpoint firstPhone (patterns : list re) (text : jsstring) : option jsstring :=
  match patterns with
  | [] => None
  | pattern :: rest =>
    match search pattern text with
    | Some m => Some m
    | None => firstPhone rest text
    end
  end.

Record Contact := {
  phone : option jsstring;
  email : option jsstring;
}.

(** The script that [getContactInfo] evaluates in the page, as a function
    of [document.body.innerText]. *)
Definition contactScript (text : jsstring) : Contact :=
  {| phone := firstPhone phonePatterns text;
     email := search emailPattern text |}.

Definition contactParts (c : Contact) : list jsstring :=
  (match phone c with
   | Some p => if truthy p then [js "Телефон: " ++ p] else []
   | None => []
   end) ++
  (match email c with
   | Some e => if truthy e then [js "Email: " ++ e] else []
   | None => []
   end).

Definition contactMessage (c : Contact) : jsstring :=
  match contactParts c with
  | [] => js "Не намерих контактна информация на тази страница"
  | parts => join (js ". ") parts
  end.

(* ================================================================== *)
(** ** The automation driver *)
(* ================================================================== *)

(** Pages and browser contexts are handles into the browser. *)
Definition Page := nat.
Definition BrowserContext := nat.
Inductive Browser := chromium.

(** The outcome of a call that may throw.  No handler of the worker looks
    at the exception value. *)
Inductive Exc (A : Type) :=
| Ok (a : A)
| Throw.
Arguments Throw {A}.

Definition is_ok {A} (r : Exc A) : bool :=
  match r with Ok _ => true | Throw => false end.

(** What the in-page script of [quickObserve] returns.  The fallback
    object of its [catch] carries only the first three members. *)
Record Observation := {
  obs_url : jsstring;
  obs_title : jsstring;
  obs_prices : list jsstring;
  hasAvailability : option bool;
  noAvailability : option bool;
  textSnippet : option jsstring;
}.

Inductive Script := ProbeScript | ContactScript | ObserveScript.

(** The calls the worker makes on the driver, with their arguments. *)
Inductive Call :=
| CLaunch
| CNewContext
| CNewPage (c : BrowserContext)
| CGoto (p : Page) (target : jsstring) (timeout : Z)
| CWaitForTimeout (p : Page) (ms : Z)
| CUrl (p : Page)
| CEvaluate (p : Page) (script : Script)
| CQuery (p : Page) (sel : jsstring)
| CFill (p : Page) (sel value : jsstring) (timeout : Z)
| CSelectOption (p : Page) (sel value : jsstring) (timeout : Z)
| CClick (p : Page) (sel : jsstring) (timeout : Z)
| CPageClose (p : Page)
| CContextClose (c : BrowserContext).

(** A call together with whether it returned ([true]) or threw. *)
Definition Event := (Call * bool)%type.

(** The driver (Playwright and the clock) over a world [W] that the
    worker cannot inspect: each call steps the world and returns or
    throws.  [drv_innerText] is [document.body.innerText] as read by the
    script of [getContactInfo]; [drv_query] tells whether [page.$] found an
    element.  [drv_settled] is the event loop while the worker awaits a
    call: the pending detached calls whose awaited promise has settled,
    by their position among the pending ones, in the order in which they
    are resumed. *)
Record Driver (W : Type) := {
  drv_launch : W -> Exc Browser * W;
  drv_newContext : W -> Exc BrowserContext * W;
  drv_newPage : BrowserContext -> W -> Exc Page * W;
  drv_goto : Page -> jsstring -> Z -> W -> Exc unit * W;
  drv_waitForTimeout : Page -> Z -> W -> Exc unit * W;
  drv_url : Page -> W -> jsstring * W;
  drv_probe : Page -> W -> Exc unit * W;
  drv_innerText : Page -> W -> Exc jsstring * W;
  drv_observe : Page -> W -> Exc Observation * W;
  drv_query : Page -> jsstring -> W -> Exc bool * W;
  drv_fill : Page -> jsstring -> jsstring -> Z -> W -> Exc unit * W;
  drv_selectOption : Page -> jsstring -> jsstring -> Z -> W -> Exc unit * W;
  drv_click : Page -> jsstring -> Z -> W -> Exc unit * W;
  drv_pageClose : Page -> W -> Exc unit * W;
  drv_contextClose : BrowserContext -> W -> Exc unit * W;
  drv_now : W -> Z * W;
  drv_settled : W -> list nat * W;
}.

(* ================================================================== *)
(** ** HOT SESSION MANAGER: state *)
(* ================================================================== *)

Record HotSession := {
  page : Page;
  context : BrowserContext;
  siteMap : SiteMap;
  lastActivity : Z;
  currentUrl : jsstring;
}.

(** [Map<string, HotSession>]: keys are unique and iteration follows
    insertion order, which [evictOldestSession] depends on. *)
Definition SessionMap := list (jsstring * HotSession).

(** A [closeSession] that was called without [await] and has not reached
    its end.  Where it was called it ran up to its first [await]: the
    session was read and [page.close()] was called; [closed] tells whether
    that call returns or throws.  At [AwaitsContextClose] the call of
    [context.close()] has been made as well, and the deletion of the key
    is what is left. *)
Inductive Detached :=
| AwaitsPageClose (siteId : jsstring) (session : HotSession) (closed : bool)
| AwaitsContextClose (siteId : jsstring).

(** The key that a pending call deletes at its end. *)
Definition owes (d : Detached) : jsstring :=
  match d with
  | AwaitsPageClose siteId _ _ | AwaitsContextClose siteId => siteId
  end.

Module SMap.

Fixpoint get (k : jsstring) (m : SessionMap) : option HotSession :=
  match m with
  | [] => None
  | (k', v) :: m' => if jseqb k k' then Some v else get k m'
  end.

(** [Map.prototype.set]: an existing key keeps its place. *)
Fixpoint set (k : jsstring) (v : HotSession) (m : SessionMap) : SessionMap :=
  match m with
  | [] => [(k, v)]
  | (k', v') :: m' => if jseqb k k' then (k, v) :: m' else (k', v') :: set k v m'
  end.

Fixpoint delete (k : jsstring) (m : SessionMap) : SessionMap :=
  match m with
  | [] => []
  | (k', v') :: m' => if jseqb k k' then m' else (k', v') :: delete k m'
  end.

Definition size (m : SessionMap) : nat := length m.

Definition keys (m : SessionMap) : list jsstring := map fst m.

End SMap.

(** Config *)
Definition MAX_SESSIONS : nat := 50.
Definition SESSION_TIMEOUT : Z := 30 * 60 * 1000.
Definition CLEANUP_INTERVAL : Z := 5 * 60 * 1000.

Record ActionResult := {
  act_message : jsstring;
  act_observation : option (Observation + list PriceEntry);
}.

Record ExecuteResult := {
  success : bool;
  message : jsstring;
  observation : option (Observation + list PriceEntry);
}.

Record ExecuteRequest := {
  req_site_id : jsstring;
  req_keywords : list jsstring;
  req_data : option ExecuteData;
}.

(** The double quote of the selector and message templates. *)
Definition dq : jsstring := [34%N].

Section Worker.

Variable W : Type.
Variable drv : Driver W.
Variable toLowerCase : jsstring -> jsstring.

(** The manager's fields, the driver's world, the log of the calls made
    so far (latest last) and the detached calls of [closeSession] that
    are pending, in the order in which they were made. *)
Record State := {
  world : W;
  log : list Event;
  browser : option Browser;
  sessions : SessionMap;
  isReady : bool;
  detached : list Detached;
}.

Definition with_sessions (m : SessionMap) (st : State) : State :=
  {| world := world st; log := log st; browser := browser st;
     sessions := m; isReady := isReady st; detached := detached st |}.

Definition with_detached (ds : list Detached) (st : State) : State :=
  {| world := world st; log := log st; browser := browser st;
     sessions := sessions st; isReady := isReady st; detached := ds |}.

(** Code that reads and writes the manager, calls the driver, and returns
    or throws; what it did before a throw stays done. *)
Definition M (A : Type) : Type := State -> Exc A * State.

Definition ret {A} (a : A) : M A := fun st => (Ok a, st).

Definition throw {A} : M A := fun st => (Throw, st).

Definition bind {A B} (m : M A) (k : A -> M B) : M B :=
  fun st =>
    match m st with
    | (Ok a, st') => k a st'
    | (Throw, st') => (Throw, st')
    end.

Notation "x <- m ;; k" := (bind m (fun x => k))
  (at level 61, m at next level, right associativity).
Notation "m ;;; k" := (bind m (fun _ => k))
  (at level 61, right associativity).

(** [try { m } catch { h }]. *)
Definition try_catch {A} (m h : M A) : M A :=
  fun st =>
    match m st with
    | (Ok a, st') => (Ok a, st')
    | (Throw, st') => h st'
    end.

Definition lift {A} (r : Exc A) : M A := fun st => (r, st).

Definition getSessions : M SessionMap := fun st => (Ok (sessions st), st).

Definition putSessions (m : SessionMap) : M unit :=
  fun st => (Ok tt, with_sessions m st).

(** One driver call: the world steps, the call is logged. *)
Definition invoke {A} (c : Call) (op : W -> Exc A * W) : M A :=
  fun st =>
    let (r, w) := op (world st) in
    (r, {| world := w; log := log st ++ [(c, is_ok r)];
           browser := browser st; sessions := sessions st;
           isReady := isReady st; detached := detached st |}).

Definition total {A} (op : W -> A * W) : W -> Exc A * W :=
  fun w => let (a, w') := op w in (Ok a, w').

(** [Date.now()]. *)
Definition dateNow : M Z :=
  fun st =>
    let (t, w) := drv_now drv (world st) in
    (Ok t, {| world := w; log := log st; browser := browser st;
              sessions := sessions st; isReady := isReady st;
              detached := detached st |}).

Definition newContext : M BrowserContext := invoke CNewContext (drv_newContext drv).
Definition newPage (c : BrowserContext) : M Page := invoke (CNewPage c) (drv_newPage drv c).
Definition goto (p : Page) (target : jsstring) (timeout : Z) : M unit :=
  invoke (CGoto p target timeout) (drv_goto drv p target timeout).
Definition waitForTimeout (p : Page) (ms : Z) : M unit :=
  invoke (CWaitForTimeout p ms) (drv_waitForTimeout drv p ms).
Definition pageUrl (p : Page) : M jsstring := invoke (CUrl p) (total (drv_url drv p)).
Definition evaluateProbe (p : Page) : M unit :=
  invoke (CEvaluate p ProbeScript) (drv_probe drv p).
Definition evaluateInnerText (p : Page) : M jsstring :=
  invoke (CEvaluate p ContactScript) (drv_innerText drv p).
Definition evaluateObserve (p : Page) : M Observation :=
  invoke (CEvaluate p ObserveScript) (drv_observe drv p).
Definition query (p : Page) (sel : jsstring) : M bool :=
  invoke (CQuery p sel) (drv_query drv p sel).
Definition fill (p : Page) (sel value : jsstring) (timeout : Z) : M unit :=
  invoke (CFill p sel value timeout) (drv_fill drv p sel value timeout).
Definition selectOption (p : Page) (sel value : jsstring) (timeout : Z) : M unit :=
  invoke (CSelectOption p sel value timeout) (drv_selectOption drv p sel value timeout).
Definition pageClick (p : Page) (sel : jsstring) (timeout : Z) : M unit :=
  invoke (CClick p sel timeout) (drv_click drv p sel timeout).
Definition pageClose (p : Page) : M unit := invoke (CPageClose p) (drv_pageClose drv p).
Definition contextClose (c : BrowserContext) : M unit :=
  invoke (CContextClose c) (drv_contextClose drv c).

(* ------------------------------------------------------------------ *)
(** *** ACTIONS *)

Definition fallbackObservation : Observation :=
  {| obs_url := []; obs_title := []; obs_prices := [];
     hasAvailability := None; noAvailability := None; textSnippet := None |}.

Definition quickObserve (page : Page) : M Observation :=
  try_catch (evaluateObserve page) (ret fallbackObservation).

Definition snapshot (message : jsstring) (o : Observation) : ActionResult :=
  {| act_message := message; act_observation := Some (inl o) |}.

Definition bare (message : jsstring) : ActionResult :=
  {| act_message := message; act_observation := None |}.

(** [PATTERNS.x.some(k => fieldKeywords.includes(k))]. *)
Definition keywordsMeet (pats fieldKeywords : list jsstring) : bool :=
  existsb (fun k => arr_includes fieldKeywords k) pats.

(** Reading a member of [data]; [fillForm] receives [action.data!], which
    is [undefined] when the request had no data, and the read then throws. *)
Definition member {X} (data : option ExecuteData) (get : ExecuteData -> option X)
    : Exc (option X) :=
  match data with
  | Some d => Ok (get d)
  | None => Throw
  end.

(** The [if / else if / else if] that matches a field to the data by its
    keywords; [None] is a [value] left [undefined]. *)
Definition resolveValue (field : SiteMapField) (data : option ExecuteData)
    : Exc (option jsstring) :=
  let fieldKeywords := map toLowerCase (fld_keywords field) in
  let third :=
    if keywordsMeet PATTERNS.guests fieldKeywords then
      match member data guests with
      | Throw => Throw
      | Ok g => Ok (if truthy_num g then option_map numberText g else None)
      end
    else Ok None in
  let second :=
    if keywordsMeet PATTERNS.check_out fieldKeywords then
      match member data check_out with
      | Throw => Throw
      | Ok v => if truthy_opt v then Ok v else third
      end
    else third in
  if keywordsMeet PATTERNS.check_in fieldKeywords then
    match member data check_in with
    | Throw => Throw
    | Ok v => if truthy_opt v then Ok v else second
    end
  else second.

(** [[field.selector, `[name=...]`, `#...`].filter(Boolean)]. *)
Definition fieldSelectors (field : SiteMapField) : list jsstring :=
  filter truthy
    [ fld_selector field;
      js "[name=" ++ dq ++ fld_name field ++ dq ++ js "]";
      js "#" ++ fld_name field ].

(** [field.name.replace(/[-_]/g, " ")]. *)
Definition fieldLabel (field : SiteMapField) : jsstring :=
  map (fun c => if ((c =? 45) || (c =? 95))%N then 32%N else c) (fld_name field).

(** The loop over [selectors]; the result is [filled]. *)
Fixpoint trySelectors (page : Page) (field : SiteMapField) (value : jsstring)
    (selectors : list jsstring) : M bool :=
  match selectors with
  | [] => ret false
  | sel :: rest =>
    filled <- try_catch
                (el <- query page sel ;;
                 if el then
                   (if FieldType_eqb (fld_type field) select
                    then selectOption page sel value 2000
                    else fill page sel value 2000) ;;;
                   ret true
                 else ret false)
                (ret false) ;;
    if filled then ret true else trySelectors page field value rest
  end.

(** The loop over [form.fields], threading [actions]. *)
Fixpoint fillFields (page : Page) (flds : list SiteMapField)
    (data : option ExecuteData) (actions : list jsstring) : M (list jsstring) :=
  match flds with
  | [] => ret actions
  | field :: rest =>
    value <- lift (resolveValue field data) ;;
    actions' <-
      (if truthy_opt value then
         let v := match value with Some v => v | None => [] end in
         try_catch
           (filled <- trySelectors page field v (fieldSelectors field) ;;
            if filled
            then ret (actions ++ [fieldLabel field ++ js ": " ++ v])
            else ret actions)
           (ret actions)
       else ret actions) ;;
    fillFields page rest data actions'
  end.

Definition fillForm (page : Page) (form : SiteMapForm)
    (data : option ExecuteData) : M ActionResult :=
  actions <- fillFields page (fields form) data [] ;;
  (* Click submit button *)
  actions <-
    (if truthy (submit_button form) && (0 <? List.length actions) then
       try_catch
         (pageClick page (submit_button form) 3000 ;;;
          waitForTimeout page 1500 ;;;
          ret (actions ++ [js "Търсене"]))
         (ret actions)
     else ret actions) ;;
  observation <- quickObserve page ;;
  ret (snapshot
         (if 0 <? List.length actions
          then js "Попълних: " ++ join (js ", ") actions
          else js "Не успях да попълня формата")
         observation).

(** [buttonText && await page.click(...)]: without a (non-empty)
    [buttonText] the strategy returns at once, without a click. *)
Definition byText (page : Page) (buttonText : option jsstring)
    (mk : jsstring -> jsstring) : M unit :=
  match buttonText with
  | Some t => if truthy t then pageClick page (mk t) 2000 else ret tt
  | None => ret tt
  end.

Definition strategies (page : Page) (selector : jsstring)
    (buttonText : option jsstring) : list (M unit) :=
  [ pageClick page selector 2000;
    byText page buttonText (fun t => js "text=" ++ dq ++ t ++ dq);
    byText page buttonText (fun t => js "button:has-text(" ++ dq ++ t ++ dq ++ js ")");
    byText page buttonText (fun t => js "a:has-text(" ++ dq ++ t ++ dq ++ js ")") ].

Definition clickedMessage (buttonText : option jsstring) : jsstring :=
  if truthy_opt buttonText
  then js "Кликнах " ++ dq ++ match buttonText with Some t => t | None => [] end ++ dq
  else js "Кликнах".

Definition clickFailed : ActionResult := bare (js "Не успях да кликна").

(** The loop over [strategies]. *)
Fixpoint tryStrategies (page : Page) (buttonText : option jsstring)
    (l : list (M unit)) : M ActionResult :=
  match l with
  | [] => ret clickFailed
  | strategy :: rest =>
    done <- try_catch
              (strategy ;;;
               waitForTimeout page 1000 ;;;
               observation <- quickObserve page ;;
               ret (Some (snapshot (clickedMessage buttonText) observation)))
              (ret None) ;;
    match done with
    | Some result => ret result
    | None => tryStrategies page buttonText rest
    end
  end.

Definition clickButton (page : Page) (selector : jsstring)
    (buttonText : option jsstring) : M ActionResult :=
  try_catch
    (tryStrategies page buttonText (strategies page selector buttonText))
    (ret clickFailed).

Definition getContactInfo (page : Page) : M ActionResult :=
  try_catch
    (text <- evaluateInnerText page ;;
     ret (bare (contactMessage (contactScript text))))
    (ret (bare (js "Не успях да извлека контактите"))).

Definition navigateTo (page : Page) (target : jsstring) : M ActionResult :=
  try_catch
    (goto page target 10000 ;;;
     waitForTimeout page 1000 ;;;
     observation <- quickObserve page ;;
     ret (snapshot (js "Отворих " ++ target) observation))
    (ret (bare (js "Не успях да отворя страницата"))).

Definition observeCurrentState (page : Page) : M ActionResult :=
  observation <- quickObserve page ;;
  let message := js "Страница: " ++ dq ++ obs_title observation ++ dq in
  let message :=
    match hasAvailability observation with
    | Some true => message ++ js ". Виждам информация за наличност."
    | _ => message
    end in
  let message :=
    match obs_prices observation with
    | _ :: _ =>
      message ++ js ". Цени: " ++ join (js ", ") (firstn 3 (obs_prices observation))
    | [] => message
    end in
  ret (snapshot message observation).

(* ------------------------------------------------------------------ *)
(** *** SESSION MANAGEMENT *)

Definition closeSession (siteId : jsstring) : M unit :=
  m <- getSessions ;;
  match SMap.get siteId m with
  | Some session =>
    try_catch
      (pageClose (page session) ;;; contextClose (context session))
      (ret tt) ;;;
    m' <- getSessions ;;
    putSessions (SMap.delete siteId m')
  | None => ret tt
  end.

Definition getDetached : M (list Detached) := fun st => (Ok (detached st), st).

Definition putDetached (ds : list Detached) : M unit :=
  fun st => (Ok tt, with_detached ds st).

(** [this.closeSession(siteId)] without [await], as the two functions
    below call it.  The call runs to its first [await]: it reads the
    session and calls [page.close()]; what is left of it is pending from
    then on.  For an id without a session nothing is left. *)
Definition closeSessionDetached (siteId : jsstring) : M unit :=
  m <- getSessions ;;
  match SMap.get siteId m with
  | Some session =>
    closed <- try_catch (pageClose (page session) ;;; ret true) (ret false) ;;
    ds <- getDetached ;;
    putDetached (ds ++ [AwaitsPageClose siteId session closed])
  | None => ret tt
  end.

(** One turn of a pending call, taken once the promise it awaits has
    settled; the result is what is left of the call.  After
    [page.close()] returned, [context.close()] is called and awaited;
    after either of them threw, and after [context.close()] returned, the
    key is deleted. *)
Definition resume (d : Detached) : M (option Detached) :=
  match d with
  | AwaitsPageClose siteId session true =>
    try_catch (contextClose (context session)) (ret tt) ;;;
    ret (Some (AwaitsContextClose siteId))
  | AwaitsPageClose siteId _ false | AwaitsContextClose siteId =>
    m <- getSessions ;;
    putSessions (SMap.delete siteId m) ;;;
    ret None
  end.

(** The [i]th pending call takes a turn. *)
Definition advance (i : nat) : M unit :=
  ds <- getDetached ;;
  match nth_error ds i with
  | Some d =>
    left <- resume d ;;
    putDetached
      (firstn i ds ++ match left with Some d' => [d'] | None => [] end ++
       skipn (S i) ds)
  | None => ret tt
  end.

Fixpoint turns (order : list nat) : M unit :=
  match order with
  | [] => ret tt
  | i :: rest => advance i ;;; turns rest
  end.

(** [await m] where detached calls may be pending: the call is made, and
    while the worker waits for it the event loop resumes the pending
    calls that the driver reports as settled, whether [m] then returns or
    throws.  The awaits of [prepareSession] that follow the limit check
    are written with it: they are the awaits that [prepareSession],
    [execute], [closeSession] and [cleanupSessions] reach with a call
    pending when they are called with none pending on a store within its
    limit.  Only [evictOldestSession] and [cleanupSessions] detach calls;
    the sweep awaits nothing, and the recovery of [execute] recreates a
    session that the store holds, so that its limit check evicts nothing.
    Elsewhere a call that is pending when an operation is called is taken
    to settle after the operation has returned; what is pending then
    takes its turns through [advance]. *)
Definition await {A} (m : M A) : M A :=
  fun st =>
    let (r, st1) := m st in
    let (order, w) := drv_settled drv (world st1) in
    let (_, st2) :=
      turns order
        {| world := w; log := log st1; browser := browser st1;
           sessions := sessions st1; isReady := isReady st1;
           detached := detached st1 |} in
    (r, st2).

(** [cleanupSessions] is synchronous: every [closeSession] it calls is
    left pending, and the store is as it was when the sweep returns. *)
Fixpoint cleanupLoop (now : Z) (entries : SessionMap) : M unit :=
  match entries with
  | [] => ret tt
  | (siteId, session) :: rest =>
    (if (now - lastActivity session >? SESSION_TIMEOUT)%Z
     then closeSessionDetached siteId
     else ret tt) ;;;
    cleanupLoop now rest
  end.

Definition cleanupSessions : M unit :=
  now <- dateNow ;;
  m <- getSessions ;;
  cleanupLoop now m.

(** The scan of [evictOldestSession]: a strictly smaller [lastActivity]
    replaces the candidate. *)
Fixpoint scanOldest (entries : SessionMap) (oldest : option (jsstring * Z))
    : option (jsstring * Z) :=
  match entries with
  | [] => oldest
  | (id, session) :: rest =>
    scanOldest rest
      (match oldest with
       | None => Some (id, lastActivity session)
       | Some (_, time) =>
         if (lastActivity session <? time)%Z
         then Some (id, lastActivity session)
         else oldest
       end)
  end.

Definition evictOldestSession : M unit :=
  m <- getSessions ;;
  match scanOldest m None with
  | Some (id, _) => closeSessionDetached id
  | None => ret tt
  end.

(* ------------------------------------------------------------------ *)
(** *** start, PREPARE SESSION, EXECUTE *)

Definition start : M unit :=
  b <- invoke CLaunch (drv_launch drv) ;;
  fun st =>
    (Ok tt, {| world := world st; log := log st; browser := Some b;
               sessions := sessions st; isReady := true;
               detached := detached st |}).

Definition ready : M bool :=
  fun st =>
    (Ok (isReady st && match browser st with Some _ => true | None => false end), st).

Definition prepareSession (siteId : jsstring) (siteMap : SiteMap) : M bool :=
  r <- ready ;;
  if negb r then ret false
  else
    startTime <- dateNow ;;
    try_catch
      ((* Close old session if exists *)
       closeSession siteId ;;;
       (* Check session limit *)
       m <- getSessions ;;
       (if MAX_SESSIONS <=? SMap.size m then evictOldestSession else ret tt) ;;;
       (* Create new context and page; from here on the eviction may be
          pending *)
       context <- await newContext ;;
       page <- await (newPage context) ;;
       (* Navigate to site *)
       let target :=
         if startsWith (url siteMap) (js "http")
         then url siteMap
         else js "https://" ++ url siteMap in
       await (goto page target 20000) ;;;
       await (waitForTimeout page 1500) ;;;
       (* Save session *)
       now <- dateNow ;;
       current <- pageUrl page ;;
       m <- getSessions ;;
       putSessions
         (SMap.set siteId
            {| page := page; context := context; siteMap := siteMap;
               lastActivity := now; currentUrl := current |} m) ;;;
       elapsed <- dateNow ;;
       ret true)
      (ret false).

Definition failure (msg : jsstring) : ExecuteResult :=
  {| success := false; message := msg; observation := None |}.

(** [session.lastActivity = Date.now()]: the session object is the one
    held by the store. *)
Definition touch (siteId : jsstring) (session : HotSession) (now : Z) : M unit :=
  m <- getSessions ;;
  putSessions
    (SMap.set siteId
       {| page := page session; context := context session;
          siteMap := siteMap session; lastActivity := now;
          currentUrl := currentUrl session |} m).

(** The [switch] of [execute]. *)
Definition runAction (session : HotSession) (action : Action) : M ActionResult :=
  match action with
  | fill_form form data => fillForm (page session) form data
  | click selector buttonText => clickButton (page session) selector buttonText
  | return_prices =>
    ret {| act_message := formatPrices (prices (siteMap session));
           act_observation := Some (inr (prices (siteMap session))) |}
  | return_contact => getContactInfo (page session)
  | navigate target => navigateTo (page session) target
  | observe => observeCurrentState (page session)
  end.

Definition execute (request : ExecuteRequest) : M ExecuteResult :=
  let site_id := req_site_id request in
  let keywords := req_keywords request in
  let data := req_data request in
  m <- getSessions ;;
  match SMap.get site_id m with
  | None => ret (failure (js "Няма активна сесия. Моля, изчакайте зареждане."))
  | Some session =>
    startTime <- dateNow ;;
    now <- dateNow ;;
    touch site_id session now ;;;
    try_catch
      ((* Check if page is still valid; [Some] is the [return] of the
          handler *)
       returned <-
         try_catch
           (evaluateProbe (page session) ;;; ret None)
           (prepareSession site_id (siteMap session) ;;;
            m' <- getSessions ;;
            match SMap.get site_id m' with
            | None => ret (Some (failure (js "Грешка при възстановяване на сесията")))
            | Some newSession => ret None
            end) ;;
       match returned with
       | Some result => ret result
       | None =>
         (* 1. MATCH ACTION from keywords *)
         let action := matchAction toLowerCase keywords (siteMap session) data in
         (* 2. EXECUTE ACTION *)
         result <- runAction session action ;;
         elapsed <- dateNow ;;
         ret {| success := true; message := act_message result;
                observation := act_observation result |}
       end)
      (ret (failure (js "Грешка при изпълнение")))
  end.

End Worker.

(** The manager as constructed, before [start]. *)
Definition created {W} (w : W) : State W :=
  {| world := w; log := []; browser := None; sessions := []; isReady := false;
     detached := [] |}.

(** The operations on the manager, and a run of a sequence of them. *)
Inductive Op :=
| OpStart
| OpPrepare (siteId : jsstring) (siteMap : SiteMap)
| OpExecute (request : ExecuteRequest)
| OpClose (siteId : jsstring)
| OpCleanup.

Definition step {W} (drv : Driver W) (lower : jsstring -> jsstring)
    (op : Op) (st : State W) : State W :=
  match op with
  | OpStart => snd (start drv st)
  | OpPrepare siteId siteMap => snd (prepareSession drv siteId siteMap st)
  | OpExecute request => snd (execute drv lower request st)
  | OpClose siteId => snd (closeSession drv siteId st)
  | OpCleanup => snd (cleanupSessions drv st)
  end.

Definition runOps {W} (drv : Driver W) (lower : jsstring -> jsstring)
    (ops : list Op) (st : State W) : State W :=
  fold_left (fun st op => step drv lower op st) ops st.

(* ================================================================== *)
(** ** A scripted driver for the concrete runs *)
(* ================================================================== *)

(** A small deterministic browser: handles are handed out in sequence, a
    closed or crashed page throws on every call, navigation to a listed
    address fails, a listed selector matches no element, and every page
    shows the same text and title.  [settling] is what the event loop
    resumes whenever the worker awaits: with [0; 0] the first pending
    close takes its two turns, with [[]] none takes any. *)
Module Sim.

Record World := {
  clock : Z;
  fresh : nat;
  closed : list Page;
  unreachable : list jsstring;
  absent : list jsstring;
  bodyText : jsstring;
  title : jsstring;
  location : jsstring;
  settling : list nat;
}.

Definition tick (dt : Z) (f : nat) (cl : list Page) (loc : jsstring) (w : World) : World :=
  {| clock := clock w + dt; fresh := f; closed := cl;
     unreachable := unreachable w; absent := absent w;
     bodyText := bodyText w; title := title w; location := loc;
     settling := settling w |}.

Definition same (w : World) : World := tick 0 (fresh w) (closed w) (location w) w.

Definition dead (p : Page) (w : World) : bool := existsb (Nat.eqb p) (closed w).

Definition missing (sel : jsstring) (w : World) : bool := arr_includes (absent w) sel.

(** A page call that needs a live page. *)
Definition on_page {A} (p : Page) (w : World) (r : Exc A) : Exc A * World :=
  if dead p w then (Throw, w) else (r, w).

Definition needs (sel : jsstring) (w : World) : Exc unit :=
  if missing sel w then Throw else Ok tt.

(** The page dies without the worker's doing. *)
Definition crash (p : Page) (w : World) : World :=
  tick 0 (fresh w) (p :: closed w) (location w) w.

Definition driver : Driver World :=
  {| drv_launch := fun w => (Ok chromium, w);
     drv_newContext := fun w => (Ok (fresh w), tick 0 (S (fresh w)) (closed w) (location w) w);
     drv_newPage := fun _ w => (Ok (fresh w), tick 0 (S (fresh w)) (closed w) (location w) w);
     drv_goto := fun p target _ w =>
       if dead p w || arr_includes (unreachable w) target then (Throw, w)
       else (Ok tt, tick 0 (fresh w) (closed w) target w);
     drv_waitForTimeout := fun p ms w =>
       if dead p w then (Throw, w)
       else (Ok tt, tick ms (fresh w) (closed w) (location w) w);
     drv_url := fun _ w => (location w, w);
     drv_probe := fun p w => on_page p w (Ok tt);
     drv_innerText := fun p w => on_page p w (Ok (bodyText w));
     drv_observe := fun p w =>
       on_page p w
         (Ok {| obs_url := location w; obs_title := title w; obs_prices := [];
                hasAvailability := Some false; noAvailability := Some false;
                textSnippet := Some (firstn 300 (bodyText w)) |});
     drv_query := fun p sel w => on_page p w (Ok (negb (missing sel w)));
     drv_fill := fun p sel _ _ w => on_page p w (needs sel w);
     drv_selectOption := fun p sel _ _ w => on_page p w (needs sel w);
     drv_click := fun p sel _ w => on_page p w (needs sel w);
     drv_pageClose := fun p w => (Ok tt, tick 0 (fresh w) (p :: closed w) (location w) w);
     drv_contextClose := fun _ w => (Ok tt, w);
     drv_now := fun w => (clock w, tick 1 (fresh w) (closed w) (location w) w);
     drv_settled := fun w => (settling w, w) |}.

Definition world0 : World :=
  {| clock := 1000; fresh := 0; closed := []; unreachable := [js "https://down.example"];
     absent := [js "#gone"]; bodyText := js "Hotel, tel. +359 88 123 4567, a@b.com";
     title := js "Hotel"; location := []; settling := [0; 0] |}.

Definition lower := toLowerCase_latin_cyrillic.

Definition run {A} (m : M World A) (st : State World) : State World := snd (m st).

Definition started : State World := run (start driver) (created world0).

Definition site (n : nat) : jsstring := js "site-" ++ Dec.of_Z (Z.of_nat n).

Definition dateField_ex : SiteMapField :=
  {| fld_name := js "check_in"; fld_selector := js "#from"; fld_type := date;
     fld_keywords := [js "From"] |}.

Definition noteField_ex : SiteMapField :=
  {| fld_name := js "note"; fld_selector := js "#note"; fld_type := text;
     fld_keywords := [js "comment"] |}.

Definition form_ex : SiteMapForm :=
  {| form_selector := js "#booking"; fields := [dateField_ex; noteField_ex];
     submit_button := js "#go" |}.

Definition bookBtn_ex : SiteMapButton :=
  {| btn_text := js "Резервирай"; btn_selector := js "#book"; btn_keywords := [];
     action_type := booking |}.

Definition siteMap_ex (n : nat) : SiteMap :=
  {| site_id := site n; url := js "hotel.example"; buttons := [bookBtn_ex];
     forms := [form_ex]; prices := [] |}.

(** Fifty sessions prepared one after the other; [site-0] is the least
    recently active. *)
Definition fill50 : list Op :=
  OpStart :: map (fun n => OpPrepare (site n) (siteMap_ex n)) (seq 0 50).

Definition full : State World := runOps driver lower fill50 (created world0).

End Sim.

(** What the specification says [formatPrices] returns: the first five
    entries, each qualified by its context when it has one, joined and
    prefixed. *)
Definition render_spec (p : PriceEntry) : jsstring :=
  match price_context p with
  | [] => price_text p
  | c :: cs => (c :: cs) ++ js ": " ++ price_text p
  end.

Definition formatPrices_spec (prices : list PriceEntry) : jsstring :=
  js "Цени: " ++ join (js "; ") (map render_spec (firstn 5 prices)).

Definition standardRoom : PriceEntry :=
  {| price_text := js "120 лв"; price_context := js "Стандартна стая" |}.

(* ================================================================== *)
(** ** Vocabulary of the statements *)
(* ================================================================== *)

(** C3 as the specification states it, for one call of the matcher: a
    [fill_form] for a form of the site map that has a date-typed field. *)
Definition picksDateTypedForm lower keywords siteMap data : Prop :=
  exists form field,
    matchAction lower keywords siteMap data = fill_form form data /\
    In form (forms siteMap) /\
    In field (fields form) /\ fld_type field = date.

(** A form bears a date when one of its fields is date-typed or has, among
    its keywords as they are written, a check-in or a check-out pattern. *)
Definition bearsDate (f : SiteMapForm) : Prop :=
  exists field,
    In field (fields f) /\
    (fld_type field = date \/
     exists k, In k (PATTERNS.check_in ++ PATTERNS.check_out) /\
               In k (fld_keywords field)).

(** What the booking rule owes a call of the matcher: a [fill_form] for
    the first form of the site map, in declaration order, that bears a
    date, and no [click]. *)
Definition picksFirstDateForm lower keywords siteMap data : Prop :=
  exists before form after,
    forms siteMap = before ++ form :: after /\
    bearsDate form /\
    (forall f, In f before -> ~ bearsDate f) /\
    matchAction lower keywords siteMap data = fill_form form data /\
    forall selector buttonText,
      matchAction lower keywords siteMap data <> click selector buttonText.

(** The message as the specification words it: phone part, then email
    part, joined by ". "; a fixed message when there is neither. *)
Definition contactMessage_spec (phone email : option jsstring) : jsstring :=
  match phone, email with
  | Some p, Some e => js "Телефон: " ++ p ++ js ". " ++ js "Email: " ++ e
  | Some p, None => js "Телефон: " ++ p
  | None, Some e => js "Email: " ++ e
  | None, None => js "Не намерих контактна информация на тази страница"
  end.

(** The manager's own fields other than the store are left alone, and the
    call log only grows. *)
Definition frame {W} (st st' : State W) : Prop :=
  browser st' = browser st /\ isReady st' = isReady st /\
  exists evs, log st' = log st ++ evs.

(** Between [st] and [st'] the call [c] was made. *)
Definition logged {W} (st st' : State W) (c : Call) : Prop :=
  exists evs b, log st' = log st ++ evs /\ In (c, b) evs.

(** Code that leaves the manager's fields alone and only calls the
    driver. *)
Definition quiet {W A} (m : M W A) : Prop :=
  forall st, sessions (snd (m st)) = sessions st /\ frame st (snd (m st)).

(** Code that makes no detached call and gives none a turn. *)
Definition calm {W A} (m : M W A) : Prop :=
  forall st, detached (snd (m st)) = detached st.

Definition deleteAll (ks : list jsstring) (m : SessionMap) : SessionMap :=
  fold_left (fun m k => SMap.delete k m) ks m.

(** The store once the pending detached calls are through: each deletes
    its key. *)
Definition atRest {W} (st : State W) : SessionMap :=
  deleteAll (map owes (detached st)) (sessions st).

(** Between [st] and [st'] the worker made calls and pending detached
    calls took turns; [done] are the keys of those that ran to their end,
    and nothing else changed the store. *)
Definition passes {W} (st st' : State W) : Prop :=
  frame st st' /\
  exists done,
    Permutation (map owes (detached st)) (done ++ map owes (detached st')) /\
    sessions st' = deleteAll done (sessions st).

(** Between [st] and [st'] the only calls made closed a context. *)
Definition closesOnly {W} (st st' : State W) : Prop :=
  exists evs,
    log st' = log st ++ evs /\
    Forall (fun ev : Event => exists c, fst ev = CContextClose c) evs.

(** The store after the first two steps of [prepareSession]: the old
    session of [id] closed, and the oldest one evicted at the limit. *)
Definition afterEvict (id : jsstring) (m : SessionMap) : SessionMap :=
  let m1 := SMap.delete id m in
  if MAX_SESSIONS <=? SMap.size m1 then
    match scanOldest m1 None with
    | Some (k, _) => SMap.delete k m1
    | None => m1
    end
  else m1.

(** The store as a JavaScript [Map] within its limit. *)
Definition Inv {W} (st : State W) : Prop :=
  SMap.size (sessions st) <= MAX_SESSIONS /\ NoDup (SMap.keys (sessions st)).

(** The store while detached calls may be pending: within its limit once
    they are through, and at most one entry above it until then. *)
Definition Settles {W} (st : State W) : Prop :=
  SMap.size (atRest st) <= MAX_SESSIONS /\
  NoDup (SMap.keys (sessions st)) /\
  SMap.size (sessions st) <= S MAX_SESSIONS.

(** Code that, started on a store within its limit with nothing pending,
    leaves a store that settles. *)
Definition settles {W A} (m : M W A) : Prop :=
  forall st, Inv st -> detached st = [] -> Settles (snd (m st)).

(** Code that, started with nothing pending on a store within its limit
    that holds a session for [id], ends with nothing pending. *)
Definition idle {W A} (id : jsstring) (m : M W A) : Prop :=
  forall st, Inv st -> detached st = [] ->
             SMap.get id (sessions st) <> None ->
             detached (snd (m st)) = [].

(** The states in which the manager can be found when its operations are
    called one after the other, each one when the detached calls of the
    ones before are through: a new manager, the manager at the return of
    an operation, and the manager after a pending call took a turn. *)
Inductive observable {W} (drv : Driver W) (lower : jsstring -> jsstring)
  : State W -> Prop :=
| obs_created w : observable drv lower (created w)
| obs_return op st :
    observable drv lower st -> detached st = [] ->
    observable drv lower (step drv lower op st)
| obs_turn i st :
    observable drv lower st -> observable drv lower (snd (advance drv i st)).

(** C1 as the specification states it, for one call: the entry that the
    scan finds oldest at the time of the call is gone afterwards. *)
Definition evictsOldest {W} (drv : Driver W) (st : State W)
    (id : jsstring) (sm : SiteMap) : Prop :=
  forall k t, scanOldest (sessions st) None = Some (k, t) ->
              SMap.get k (sessions (snd (prepareSession drv id sm st))) = None.

(** C1 as the specification states it, for the store: never more than
    [MAX_SESSIONS] entries. *)
Definition withinLimit {W} (st : State W) : Prop :=
  SMap.size (sessions st) <= MAX_SESSIONS.

Fixpoint distinct (l : list jsstring) : bool :=
  match l with
  | [] => true
  | x :: l' => negb (arr_includes l' x) && distinct l'
  end.

(** What [prepareSession] does at the limit for an id that has no session,
    on a manager with nothing pending: the first entry with the least
    [lastActivity] is the one evicted, and the close of its page is the
    first call made; [settled] is the store without it, the rest in
    order, with the new session, if it could be opened, at the end. When
    [prepareSession] returns, the entry is deleted or its deletion is
    still pending, and the store is [settled] as soon as nothing is
    pending. *)
Definition evictsFirstOldest {W} (drv : Driver W) (st : State W)
    (id : jsstring) (sm : SiteMap) : Prop :=
  exists k s m1 m2 ok st' settled,
    sessions st = m1 ++ (k, s) :: m2 /\
    (forall k' s', In (k', s') m1 -> (lastActivity s < lastActivity s')%Z) /\
    (forall k' s', In (k', s') m2 -> (lastActivity s <= lastActivity s')%Z) /\
    prepareSession drv id sm st = (Ok ok, st') /\
    (exists c evs, log st' = log st ++ (CPageClose (page s), c) :: evs) /\
    (if ok
     then exists new, siteMap new = sm /\ settled = (m1 ++ m2) ++ [(id, new)]
     else settled = m1 ++ m2) /\
    (detached st' = [] /\ sessions st' = settled \/
     map owes (detached st') = [k] /\
     SMap.get k (sessions st') = Some s /\
     SMap.delete k (sessions st') = settled) /\
    (exists order, detached (snd (turns drv order st')) = []) /\
    forall order,
      detached (snd (turns drv order st')) = [] ->
      sessions (snd (turns drv order st')) = settled.

(** What it does for an id that has a session: that session is closed and
    deleted, no other entry leaves, and the new session, if it could be
    opened, is added at the end. *)
Definition replacesOwn {W} (drv : Driver W) (st : State W)
    (id : jsstring) (sm : SiteMap) (s : HotSession) : Prop :=
  exists ok st',
    prepareSession drv id sm st = (Ok ok, st') /\
    logged st st' (CPageClose (page s)) /\
    detached st' = [] /\
    if ok
    then exists new, siteMap new = sm /\
                     sessions st' = SMap.delete id (sessions st) ++ [(id, new)]
    else sessions st' = SMap.delete id (sessions st).

Definition noSessionMessage : jsstring :=
  js "Няма активна сесия. Моля, изчакайте зареждане.".

Module Fixtures.

Import Sim.

(** One prepared session, for [site-0]. *)
Definition one : State World :=
  runOps driver lower [OpStart; OpPrepare (site 0) (siteMap_ex 0)] (created world0).

Definition session0 : HotSession :=
  {| page := 1; context := 0; siteMap := siteMap_ex 0; lastActivity := 2501;
     currentUrl := js "https://hotel.example" |}.

(** A site map whose address cannot be reached. *)
Definition siteMap_down : SiteMap :=
  {| site_id := site 0; url := js "down.example"; buttons := []; forms := [];
     prices := [] |}.

End Fixtures.

(** The values written into the page, in order: the selector and value of
    every [fill] or [selectOption] that returned. *)
Definition writes (evs : list Event) : list (jsstring * jsstring) :=
  flat_map (fun ev : Event =>
              match ev with
              | (CFill _ sel v _, true) => [(sel, v)]
              | (CSelectOption _ sel v _, true) => [(sel, v)]
              | _ => []
              end) evs.

(** [entry] is the summary entry of the write [w]: the write went to a
    selector of a field of the form whose resolved value it carries, and
    the entry is that field's label, a colon and the value. *)
Definition entryOf (lower : jsstring -> jsstring) (form : SiteMapForm)
    (data : option ExecuteData) (entry : jsstring) (w : jsstring * jsstring) : Prop :=
  exists field,
    In field (fields form) /\
    resolveValue lower field data = Ok (Some (snd w)) /\
    In (fst w) (fieldSelectors field) /\
    entry = fieldLabel field ++ js ": " ++ snd w.

(** A call made for a field: a query, fill or select on one of the
    selectors of a field of the form that has a resolved value. *)
Definition fieldCall (lower : jsstring -> jsstring) (page : Page)
    (form : SiteMapForm) (data : option ExecuteData) (ev : Event) : Prop :=
  exists field v sel,
    In field (fields form) /\
    resolveValue lower field data = Ok (Some v) /\
    In sel (fieldSelectors field) /\
    (fst ev = CQuery page sel \/ fst ev = CFill page sel v 2000 \/
     fst ev = CSelectOption page sel v 2000).

(** The calls that end [fillForm]: the submit click, its settle wait and
    the snapshot. *)
Definition closingCall (page : Page) (form : SiteMapForm) (ev : Event) : Prop :=
  fst ev = CClick page (submit_button form) 3000 \/
  fst ev = CWaitForTimeout page 1500 \/
  fst ev = CEvaluate page ObserveScript.

(** The submit control was clicked and the settle wait returned. *)
Definition submitted (evs : list Event) : bool :=
  existsb (fun ev : Event =>
             match ev with (CClick _ _ _, true) => true | _ => false end) evs &&
  existsb (fun ev : Event =>
             match ev with (CWaitForTimeout _ _, true) => true | _ => false end) evs.

(** The value comes from the datum of a vocabulary that the field's
    lower-cased keywords meet. *)
Definition vocabularyValue (lower : jsstring -> jsstring) (field : SiteMapField)
    (d : ExecuteData) (v : jsstring) : Prop :=
  let fieldKeywords := map lower (fld_keywords field) in
  (keywordsMeet PATTERNS.check_in fieldKeywords = true /\
   check_in d = Some v /\ truthy v = true) \/
  (keywordsMeet PATTERNS.check_out fieldKeywords = true /\
   check_out d = Some v /\ truthy v = true) \/
  (keywordsMeet PATTERNS.guests fieldKeywords = true /\
   exists g, guests d = Some g /\ numberText g <> js "0" /\
             numberText g <> js "NaN" /\ v = numberText g).

(** The message of [fillForm] over the summary entries. *)
Definition summary (entries : list jsstring) (evs : list Event) : jsstring :=
  match entries with
  | [] => js "Не успях да попълня формата"
  | _ :: _ =>
    js "Попълних: " ++
    join (js ", ") (entries ++ if submitted evs then [js "Търсене"] else [])
  end.

(** C6 as the specification states it, for one run: the message lists the
    entries of the fields that were written, and nothing else. *)
Definition listsOnlyFilled {W} (drv : Driver W) (lower : jsstring -> jsstring)
    (page : Page) (form : SiteMapForm) (data : option ExecuteData)
    (st : State W) : Prop :=
  forall result st' evs entries,
    fillForm drv lower page form data st = (Ok result, st') ->
    log st' = log st ++ evs ->
    Forall2 (entryOf lower form data) entries (writes evs) ->
    entries <> [] ->
    act_message result = js "Попълних: " ++ join (js ", ") entries.

(** A call of the loop over the selectors of one field. *)
Definition selectorCall (page : Page) (v : jsstring) (sels : list jsstring)
    (ev : Event) : Prop :=
  exists sel,
    In sel sels /\
    (fst ev = CQuery page sel \/ fst ev = CFill page sel v 2000 \/
     fst ev = CSelectOption page sel v 2000).

Definition recoveryMessage : jsstring := js "Грешка при възстановяване на сесията".

(** The events logged after those of [st]. *)
Definition since {W} (st st' : State W) : list Event :=
  skipn (List.length (log st)) (log st').

Module Runs.

Import Sim.

Definition data_ex : ExecuteData :=
  {| check_in := Some (js "2025-02-15"); check_out := None;
     guests := Some {| numberText := js "2" |} |}.

(** [fillForm] on the live page of [site-0]. *)
Definition filled : Exc ActionResult * State World :=
  fillForm driver lower 1 form_ex (Some data_ex) Fixtures.one.

Definition filledMessage : jsstring :=
  match fst filled with
  | Ok r => act_message r
  | Throw => []
  end.

(** The page of [site-0] has died since the session was prepared. *)
Definition stale : State World :=
  {| world := crash 1 (world Fixtures.one); log := log Fixtures.one;
     browser := browser Fixtures.one; sessions := sessions Fixtures.one;
     isReady := isReady Fixtures.one; detached := detached Fixtures.one |}.

Definition bookingRequest : ExecuteRequest :=
  {| req_site_id := site 0; req_keywords := [js "резервация"];
     req_data := Some data_ex |}.

Definition recovered : Exc ExecuteResult * State World :=
  execute driver lower bookingRequest stale.

(** A button without a label whose selector matches nothing. *)
Definition iconBtn : SiteMapButton :=
  {| btn_text := []; btn_selector := js "#gone"; btn_keywords := [];
     action_type := booking |}.

Definition siteMap_icon : SiteMap :=
  {| site_id := site 1; url := js "hotel.example"; buttons := [iconBtn];
     forms := []; prices := [] |}.

Definition withIcon : State World :=
  runOps driver lower [OpStart; OpPrepare (site 1) siteMap_icon] (created world0).

Definition iconRequest : ExecuteRequest :=
  {| req_site_id := site 1; req_keywords := [js "book"]; req_data := None |}.

(** The recreated session of [site-0] after [recovered], and the matched
    action run on it. *)
Definition onReplacement : Exc ActionResult :=
  match SMap.get (site 0) (sessions (snd recovered)) with
  | Some newSession =>
    fst (runAction driver lower newSession
           (matchAction lower (req_keywords bookingRequest) (siteMap newSession)
              (req_data bookingRequest))
           (snd recovered))
  | None => Throw
  end.

(** The address of [site-0] has become unreachable as well. *)
Definition staleDown : State World :=
  {| world :=
       {| clock := clock (world stale); fresh := fresh (world stale);
          closed := closed (world stale);
          unreachable := [js "https://hotel.example"];
          absent := absent (world stale); bodyText := bodyText (world stale);
          title := title (world stale); location := location (world stale);
          settling := settling (world stale) |};
     log := log stale; browser := browser stale; sessions := sessions stale;
     isReady := isReady stale; detached := detached stale |}.

End Runs.

(** [m] is the leftmost match of [r] in [text]: [r] matches nowhere
    before it, and [m] is the match that [r] gives where it starts. *)
Definition leftmost (r : re) (text m : jsstring) : Prop :=
  exists before rest,
    text = before ++ m ++ rest /\
    exec r (m ++ rest) = Some m /\
    forall i, i < List.length before -> exec r (skipn i text) = None.

(** [r] matches nowhere in [text]. *)
Definition unmatched (r : re) (text : jsstring) : Prop :=
  forall i, exec r (skipn i text) = None.

(** The example of C9 as the specification states it, for one text: a
    phone and the email [a@b.com] are reported, phone first. *)
Definition reportsSample (text : jsstring) : Prop :=
  exists p,
    contactMessage (contactScript text) =
    js "Телефон: " ++ p ++ js ". " ++ js "Email: a@b.com".

(** What [getContactInfo] owes a page whose visible text is [text]. *)
Definition reportsContact {W} (drv : Driver W) (page : Page) (st : State W)
    (text : jsstring) : Prop :=
  let c := contactScript text in
  (exists st', getContactInfo drv page st = (Ok (bare (contactMessage c)), st')) /\
  phone c = (match search phonePermissive text with
             | Some m => Some m
             | None => search phoneStrict text
             end) /\
  email c = search emailPattern text /\
  (forall p, phone c = Some p ->
             leftmost phonePermissive text p \/
             (unmatched phonePermissive text /\ leftmost phoneStrict text p)) /\
  (phone c = None ->
   unmatched phonePermissive text /\ unmatched phoneStrict text) /\
  (forall e, email c = Some e -> leftmost emailPattern text e) /\
  (email c = None -> unmatched emailPattern text) /\
  contactMessage c = contactMessage_spec (phone c) (email c) /\
  (includes text (js "+359 88 123 4567") = true ->
   includes text (js "a@b.com") = true ->
   exists p e,
     leftmost phonePermissive text p /\ leftmost emailPattern text e /\
     phone c = Some p /\ email c = Some e /\
     contactMessage c = js "Телефон: " ++ p ++ js ". " ++ js "Email: " ++ e).

(* ================================================================== *)
(** ** LEGACY INTERACT and shutdown *)
(* ================================================================== *)

Record InteractRequest := {
  site_url : jsstring;
  user_message : jsstring;
  session_id : jsstring;
  conversation_history : list (jsstring * jsstring);
  booking_data : option ExecuteData;
}.

Record InteractResult := {
  i_success : bool;
  i_message : jsstring;
  i_observation : option (Observation + list PriceEntry);
  action_taken : option jsstring;
  logs : list jsstring;
}.

(** What the in-page script of [observeDOM] returns. *)
Record DomButton := {
  dom_text : jsstring;
  dom_selector : jsstring;
}.

(** The driver calls of the legacy path and of [shutdown]; they step the
    world and are not entered in the call log.  [drv_errorText] is the
    text of the error that the world threw last. *)
Record DriverExt (W : Type) := {
  drv_observeDOM : Page -> W -> Exc (list DomButton * list jsstring) * W;
  drv_browserClose : W -> Exc unit * W;
  drv_errorText : W -> jsstring;
}.

(** [split(/\s+/)]: the pieces between the maximal runs of white space; a
    string that starts or ends with white space gives an empty first or
    last piece.  [inSep] tells that the previous code unit was white
    space. *)
Fixpoint splitSpaces (s : jsstring) (inSep : bool) : list jsstring :=
  match s with
  | [] => [[]]
  | c :: s' =>
    if space c then
      if inSep then splitSpaces s' true else [] :: splitSpaces s' true
    else
      match splitSpaces s' false with
      | tok :: toks => (c :: tok) :: toks
      | [] => [[c]]
      end
  end.

(** The class replaced by a space: comma, full stop, exclamation and
    question marks, semicolon, colon, round, square and curly brackets,
    double and single quote. *)
Definition punctuation (c : N) : bool :=
  existsb (N.eqb c) [44; 46; 33; 63; 59; 58; 40; 41; 91; 93; 123; 125; 34; 39]%N.

Section Legacy.

Variable W : Type.
Variable drv : Driver W.
Variable ext : DriverExt W.
Variable toLowerCase : jsstring -> jsstring.
Variable toUpperCase : jsstring -> jsstring.

Local Notation "x <- m ;; k" := (bind m (fun x => k))
  (at level 61, m at next level, right associativity).
Local Notation "m ;;; k" := (bind m (fun _ => k))
  (at level 61, right associativity).

(** Extract keywords from message. *)
Definition extractKeywords (message : jsstring) : list jsstring :=
  filter (fun w => 2 <? List.length w)
    (splitSpaces
       (map (fun c => if punctuation c then 32%N else c) (toLowerCase message))
       false).

(** Canonicalization of a code unit under the [i] flag: its upper case
    when that is a single code unit, except that a unit from 128 up is not
    mapped below 128. *)
Definition canonicalize (c : N) : N :=
  match toUpperCase [c] with
  | [u] => if ((128 <=? c) && (u <? 128))%N then c else u
  | _ => c
  end.

Fixpoint LitI (s : jsstring) : re :=
  match s with
  | [] => Eps
  | c :: s' => Seq (Cls (fun d => (canonicalize d =? canonicalize c)%N)) (LitI s')
  end.

(** [/a|b|.../i]. *)
Fixpoint AnyOfI (alternatives : list jsstring) : re :=
  match alternatives with
  | [] => Cls (fun _ => false)
  | [a] => LitI a
  | a :: rest => Alt (LitI a) (AnyOfI rest)
  end.

(** [RegExp.prototype.test]. *)
Definition test (r : re) (s : jsstring) : bool :=
  match search r s with Some _ => true | None => false end.

Definition detectButtonType (text : jsstring) : ActionType :=
  let lower := toLowerCase text in
  if test (AnyOfI (map js ["резерв"; "book"; "запази"; "reserve"]%string)) lower
  then booking
  else if test (AnyOfI (map js ["контакт"; "contact"; "свържи"]%string)) lower
  then contact
  else if test (AnyOfI (map js ["търси"; "search"; "провери"; "check"; "submit";
                                "изпрати"]%string)) lower
  then submit
  else other.

(** A call that steps the world without an entry in the log. *)
Definition perform {A} (op : W -> Exc A * W) : M W A :=
  fun st =>
    let (r, w) := op (world st) in
    (r, {| world := w; log := log st; browser := browser st;
           sessions := sessions st; isReady := isReady st;
           detached := detached st |}).

Definition getBrowser : M W (option Browser) := fun st => (Ok (browser st), st).

Definition errorText : M W jsstring :=
  fun st => (Ok (drv_errorText ext (world st)), st).

(** Legacy DOM observation for backwards compatibility. *)
Definition observeDOM (page : Page) : M W (list DomButton * list jsstring) :=
  try_catch (perform (drv_observeDOM ext page)) (ret ([], [])).

(** Create minimal siteMap from page observation. *)
Definition legacySiteMap (request : InteractRequest)
    (observation : list DomButton * list jsstring) : SiteMap :=
  {| site_id := session_id request;
     url := site_url request;
     buttons :=
       map (fun b =>
              {| btn_text := dom_text b;
                 btn_selector := dom_selector b;
                 btn_keywords := splitSpaces (toLowerCase (dom_text b)) false;
                 action_type := detectButtonType (dom_text b) |})
           (fst observation);
     forms := [];
     prices := map (fun p => {| price_text := p; price_context := [] |})
                   (snd observation) |}.

(** The [try] block of [interact] that creates a session on the fly, with
    its handler; [logs] is the log so far, [inr] a [return] of
    [interact]. *)
Definition createOnTheFly (request : InteractRequest) (logs : list jsstring)
    : M W (list jsstring + InteractResult) :=
  try_catch
    (context <- newContext drv ;;
     page <- newPage drv context ;;
     let target :=
       if truthy (site_url request)
          && negb (startsWith (site_url request) (js "http"))
       then js "https://" ++ site_url request
       else site_url request in
     (if truthy target
      then goto drv page target 20000 ;;; waitForTimeout drv page 1500
      else ret tt) ;;;
     (* Create minimal siteMap from page observation *)
     observation <- observeDOM page ;;
     let siteMap := legacySiteMap request observation in
     now <- dateNow drv ;;
     current <- pageUrl drv page ;;
     m <- @getSessions W ;;
     putSessions
       (SMap.set (session_id request)
          {| page := page; context := context; siteMap := siteMap;
             lastActivity := now; currentUrl := current |} m) ;;;
     ret (inl (logs ++ [js "[LEGACY] Session created"])))
    (error <- errorText ;;
     ret (inr {| i_success := false;
                 i_message := js "Грешка при свързване със сайта";
                 i_observation := None; action_taken := None;
                 logs := logs ++
                         [js "[LEGACY] Failed to create session: " ++ error] |})).

Definition interact (request : InteractRequest) : M W InteractResult :=
  let logs := [js "[LEGACY] Session: " ++ session_id request] in
  (* Check if we have a hot session *)
  m <- @getSessions W ;;
  entered <-
    match SMap.get (session_id request) m with
    | Some session => ret (inl logs)
    | None =>
      (* If no hot session, create one on-the-fly *)
      let logs := logs ++ [js "[LEGACY] No hot session, creating..."] in
      b <- getBrowser ;;
      match b with
      | None =>
        ret (inr {| i_success := false; i_message := js "Worker не е готов";
                    i_observation := None; action_taken := None; logs := logs |})
      | Some _ => createOnTheFly request logs
      end
    end ;;
  match entered with
  | inr result => ret result
  | inl logs =>
    (* Extract keywords from message *)
    let keywords := extractKeywords (user_message request) in
    (* Execute using new system *)
    result <- execute drv toLowerCase
                {| req_site_id := session_id request; req_keywords := keywords;
                   req_data := booking_data request |} ;;
    let logs :=
      logs ++ [js "[LEGACY] Result: " ++
               if success result then js "success" else js "failed"] in
    ret {| i_success := success result;
           i_message := message result;
           i_observation := observation result;
           action_taken := if success result then Some (message result) else None;
           logs := logs |}
  end.

(** The loop of [shutdown] over the store: each key is visited once, in
    order; closing a session deletes only its own key. *)
Fixpoint closeAll (ids : list jsstring) : M W unit :=
  match ids with
  | [] => ret tt
  | id :: rest => closeSession drv id ;;; closeAll rest
  end.

Definition shutdown : M W unit :=
  m <- @getSessions W ;;
  closeAll (SMap.keys m) ;;;
  b <- getBrowser ;;
  match b with
  | Some _ => perform (drv_browserClose ext)
  | None => ret tt
  end.

(** [getStatus], without the process uptime. *)
Record Status := {
  status_ready : bool;
  status_sessions : nat;
  status_maxSessions : nat;
  status_activeSites : list jsstring;
}.

Definition getStatus : M W Status :=
  fun st =>
    (Ok {| status_ready := isReady st;
           status_sessions := SMap.size (sessions st);
           status_maxSessions := MAX_SESSIONS;
           status_activeSites := SMap.keys (sessions st) |}, st).

End Legacy.

Module SimExt.

Import Sim.

(** The legacy calls on the scripted browser: the same two buttons and one
    price on every live page. *)
Definition ext : DriverExt World :=
  {| drv_observeDOM := fun p w =>
       on_page p w
         (Ok ([ {| dom_text := js "Резервирай сега"; dom_selector := js "#book" |};
                {| dom_text := js "Контакти"; dom_selector := js "#contact" |} ],
              [js "120 лв"]));
     drv_browserClose := fun w => (Ok tt, w);
     drv_errorText := fun _ => js "Error: failed" |}.

(** Upper case of the Latin and Cyrillic letters, as [lower_unit]. *)
Definition upper_unit (c : N) : N :=
  if ((97 <=? c) && (c <=? 122))%N then (c - 32)%N
  else if ((224 <=? c) && (c <=? 254) && negb (c =? 247))%N then (c - 32)%N
  else if ((1072 <=? c) && (c <=? 1103))%N then (c - 32)%N
  else if ((1104 <=? c) && (c <=? 1119))%N then (c - 80)%N
  else c.

Definition upper (s : jsstring) : jsstring := map upper_unit s.

End SimExt.

(** Every call that [m] makes satisfies [P]. *)
Definition emits {W A} (P : Event -> Prop) (m : M W A) : Prop :=
  forall st, exists evs, log (snd (m st)) = log st ++ evs /\ Forall P evs.

(** The page a call acts on, if any. *)
Definition callPage (c : Call) : option Page :=
  match c with
  | CGoto p _ _ | CWaitForTimeout p _ | CUrl p | CEvaluate p _ | CQuery p _
  | CFill p _ _ _ | CSelectOption p _ _ _ | CClick p _ _ | CPageClose p => Some p
  | CLaunch | CNewContext | CNewPage _ | CContextClose _ => None
  end.

(** A call on [page] that does not close it. *)
Definition actsOn (page : Page) (ev : Event) : Prop :=
  callPage (fst ev) = Some page /\ fst ev <> CPageClose page.

(** The address [prepareSession] navigates to. *)
Definition normalizeUrl (u : jsstring) : jsstring :=
  if startsWith u (js "http") then u else js "https://" ++ u.

(** The calls by which sessions are closed and opened; a navigation goes
    to [target] with the timeout of [prepareSession], a wait is its settle
    delay. *)
Definition lifecycleCall (target : jsstring) (ev : Event) : Prop :=
  match fst ev with
  | CPageClose _ | CContextClose _ | CNewContext | CNewPage _ | CUrl _ => True
  | CGoto _ t timeout => t = target /\ timeout = 20000%Z
  | CWaitForTimeout _ ms => ms = 1500%Z
  | _ => False
  end.

(** A session that the sweep at time [now] keeps. *)
Definition fresh_at (now : Z) (entry : jsstring * HotSession) : bool :=
  negb (now - lastActivity (snd entry) >? SESSION_TIMEOUT)%Z.

(** A session that the sweep at time [now] closes. *)
Definition stale_at (now : Z) (entry : jsstring * HotSession) : bool :=
  (now - lastActivity (snd entry) >? SESSION_TIMEOUT)%Z.

(** The manager is ready exactly when it has a browser, and only a ready
    manager holds sessions. *)
Definition Started {W} (st : State W) : Prop :=
  (isReady st = true <-> browser st <> None) /\
  (sessions st <> [] -> isReady st = true).

Module Aged.

Import Sim.

(** The full store some twenty-nine minutes later: the sessions prepared
    first have been idle for longer than the timeout. *)
Definition later : State World :=
  {| world := tick 1760000 (fresh (world full)) (closed (world full))
                   (location (world full)) (world full);
     log := log full; browser := browser full; sessions := sessions full;
     isReady := isReady full; detached := detached full |}.

End Aged.

Module Slow.

Import Sim.

(** The full store on a browser that is slow to close a page: no detached
    call gets a turn while the worker awaits. *)
Definition full : State World :=
  {| world :=
       {| clock := clock (world Sim.full); fresh := fresh (world Sim.full);
          closed := closed (world Sim.full);
          unreachable := unreachable (world Sim.full);
          absent := absent (world Sim.full);
          bodyText := bodyText (world Sim.full); title := title (world Sim.full);
          location := location (world Sim.full); settling := [] |};
     log := log Sim.full; browser := browser Sim.full;
     sessions := sessions Sim.full; isReady := isReady Sim.full;
     detached := detached Sim.full |}.

End Slow.

(** [m] returns whatever the driver does: no exception leaves it. *)
Definition returns {W A} (m : M W A) : Prop :=
  forall st, exists a st', m st = (Ok a, st').

(** [session.lastActivity = now] on a session. *)
Definition touched (session : HotSession) (now : Z) : HotSession :=
  {| page := page session; context := context session;
     siteMap := siteMap session; lastActivity := now;
     currentUrl := currentUrl session |}.

(** The joined, lower-cased keywords mention one of the patterns. *)
Definition mentions (lower : jsstring -> jsstring) (keywords : list jsstring)
    (pats : list jsstring) : bool :=
  existsb (fun p => includes (lower (join (js " ") keywords)) p) pats.

(** What a descriptor refers to is taken from the site map. *)
Definition fromSiteMap (lower : jsstring -> jsstring) (keywords : list jsstring)
    (siteMap : SiteMap) (data : option ExecuteData) (action : Action) : Prop :=
  match action with
  | fill_form form d =>
    In form (forms siteMap) /\ dateForm form = true /\ d = data
  | click selector buttonText =>
    exists b, In b (buttons siteMap) /\
              selector = btn_selector b /\ buttonText = Some (btn_text b)
  | return_prices =>
    prices siteMap <> [] /\ mentions lower keywords PATTERNS.prices = true
  | return_contact => mentions lower keywords PATTERNS.contact = true
  | navigate _ => False
  | observe => True
  end.

Module Sites.

Import Sim.

Definition contactBtn_ex : SiteMapButton :=
  {| btn_text := js "Контакти"; btn_selector := js "#contact"; btn_keywords := [];
     action_type := contact |}.

(** Prices, a contact button and a booking button, no form. *)
Definition priced : SiteMap :=
  {| site_id := site 2; url := js "hotel.example";
     buttons := [contactBtn_ex; bookBtn_ex]; forms := [];
     prices := [standardRoom] |}.

Definition bare : SiteMap :=
  {| site_id := site 3; url := js "hotel.example"; buttons := []; forms := [];
     prices := [] |}.

(** A newsletter form: one text field, whose keywords have the check-out
    pattern [to]. *)
Definition newsletter : SiteMapForm :=
  {| form_selector := js "#newsletter";
     fields := [{| fld_name := js "email"; fld_selector := js "#email";
                   fld_type := text; fld_keywords := [js "send"; js "to"] |}];
     submit_button := js "#subscribe" |}.

(** The newsletter form declared before the booking form. *)
Definition twoForms : SiteMap :=
  {| site_id := site 4; url := js "hotel.example"; buttons := [bookBtn_ex];
     forms := [newsletter; form_ex]; prices := [] |}.

End Sites.

(** The store [m'] holds no site id that [m] does not hold, and no more
    sessions than [m]. *)
Definition within (m' m : SessionMap) : Prop :=
  incl (SMap.keys m') (SMap.keys m) /\ SMap.size m' <= SMap.size m.

(** A call that closes no page. *)
Definition noClose (ev : Event) : Prop := forall p, fst ev <> CPageClose p.

(** The store [m'] holds no site id besides [id] that [m] does not hold,
    and at most one session more than [m]. *)
Definition withinOwn (id : jsstring) (m' m : SessionMap) : Prop :=
  incl (SMap.keys m') (id :: SMap.keys m) /\ SMap.size m' <= S (SMap.size m).

Module Newcomer.

Import Sim.

(** A legacy request for a site that has no session. *)
Definition request : InteractRequest :=
  {| site_url := js "hotel.example"; user_message := js "Какви са цените?";
     session_id := js "legacy-1"; conversation_history := [];
     booking_data := None |}.

End Newcomer.

(** Every call on the manager: the operations of the session store, the
    legacy entry point and the shutdown. *)
Inductive Request :=
| Managed (op : Op)
| Interact (request : InteractRequest)
| Shutdown.

Definition serve {W} (drv : Driver W) (ext : DriverExt W)
    (lower upper : jsstring -> jsstring) (r : Request) (st : State W) : State W :=
  match r with
  | Managed op => step drv lower op st
  | Interact request => snd (interact drv ext lower upper request st)
  | Shutdown => snd (shutdown drv ext st)
  end.

Definition serveAll {W} (drv : Driver W) (ext : DriverExt W)
    (lower upper : jsstring -> jsstring) (rs : list Request) (st : State W) : State W :=
  fold_left (fun st r => serve drv ext lower upper r st) rs st.

(** Code that leaves the browser and the ready flag as they are. *)
Definition steady {W A} (m : M W A) : Prop :=
  forall st, browser (snd (m st)) = browser st /\ isReady (snd (m st)) = isReady st.

(** The field's lower-cased keywords meet one of the three vocabularies,
    so that [fillForm] reads a member of [data] for it. *)
Definition consultsData (lower : jsstring -> jsstring) (field : SiteMapField) : bool :=
  keywordsMeet PATTERNS.check_in (map lower (fld_keywords field))
  || keywordsMeet PATTERNS.check_out (map lower (fld_keywords field))
  || keywordsMeet PATTERNS.guests (map lower (fld_keywords field)).

Definition executionFailed : ExecuteResult :=
  failure (js "Грешка при изпълнение").

Module Bare.

Import Sim.

(** A booking request that carries no data. *)
Definition request : ExecuteRequest :=
  {| req_site_id := site 0; req_keywords := [js "резервация"]; req_data := None |}.

End Bare.

(** The four selectors that [clickButton] tries for a button with a
    label, in order. *)
Definition clickSelectors (selector label : jsstring) : list jsstring :=
  [ selector;
    js "text=" ++ dq ++ label ++ dq;
    js "button:has-text(" ++ dq ++ label ++ dq ++ js ")";
    js "a:has-text(" ++ dq ++ label ++ dq ++ js ")" ].

(** What the calls [evs] of a [clickButton] on [page] show for its
    result: a failure after every selector was clicked without a click
    and its wait both returning, or a reported click after a click on one
    of the selectors and the wait after it returned. *)
Definition clickOutcome (page : Page) (sels : list jsstring) (message : jsstring)
    (evs : list Event) (res : ActionResult) : Prop :=
  (res = clickFailed /\
   Forall (fun sel => exists b, In (CClick page sel 2000, b) evs) sels /\
   ~ In (CWaitForTimeout page 1000, true) evs) \/
  (exists o sel,
      res = snapshot message o /\ In sel sels /\
      In (CClick page sel 2000, true) evs /\
      In (CWaitForTimeout page 1000, true) evs).

(** The words that [detectButtonType] looks for, by type. *)
Definition bookingWords : list jsstring :=
  map js ["резерв"; "book"; "запази"; "reserve"]%string.

Definition contactWords : list jsstring :=
  map js ["контакт"; "contact"; "свържи"]%string.

(* ================================================================== *)
(** * Properties *)
(* ================================================================== *)

Unset Implicit Arguments.

Lemma jseqb_eq (a b : jsstring) : jseqb a b = true <-> a = b.
Proof.
  unfold jseqb. destruct (list_eq_dec N.eq_dec a b); split; congruence.
Qed.

Lemma jseqb_refl (a : jsstring) : jseqb a a = true.
Proof. now apply jseqb_eq. Qed.

Lemma jseqb_neq (a b : jsstring) : jseqb a b = false <-> a <> b.
Proof.
  unfold jseqb. destruct (list_eq_dec N.eq_dec a b); split; congruence.
Qed.

(* ------------------------------------------------------------------ *)
(** ** formatPrices *)

Lemma formatPrice_render (p : PriceEntry) : formatPrice p = render_spec p.
Proof.
  unfold formatPrice, render_spec. now destruct (price_context p).
Qed.

(** C4, as the specification states it, fails on the empty list: the guard
    of [formatPrices] answers with the not-found message, not with the bare
    prefix. *)
Lemma formatPrices_empty_not_prefixed :
  formatPrices [] = js "Не намерих цени на сайта" /\
  formatPrices [] <> formatPrices_spec [].
Proof.
  split; [reflexivity | vm_compute; discriminate].
Qed.

(** C4 (amended): for every non-empty price list [formatPrices] renders the
    first five entries in order, an entry with a non-empty context as
    context, colon, text and any other as its text, joined by "; " after
    the prefix; for the empty list it returns the not-found message; the
    [return_prices] branch of [execute] builds its result from the stored
    site map alone, leaving the driver's world and the call log as they
    were; and the standard-room example yields the stated string. *)
Theorem formatPrices_correct :
  (forall p rest, formatPrices (p :: rest) = formatPrices_spec (p :: rest)) /\
  formatPrices [] = js "Не намерих цени на сайта" /\
  (forall W (drv : Driver W) lower session (st : State W),
      runAction drv lower session return_prices st =
      (Ok {| act_message := formatPrices (prices (siteMap session));
             act_observation := Some (inr (prices (siteMap session))) |}, st)) /\
  formatPrices [standardRoom] = js "Цени: Стандартна стая: 120 лв".
Proof.
  repeat split.
  - intros p rest. unfold formatPrices, formatPrices_spec.
    f_equal. f_equal. apply map_ext. intro. apply formatPrice_render.
Qed.

(* ------------------------------------------------------------------ *)
(** ** matchAction *)

Lemma find_first_of_In {A} (p : A -> bool) (l : list A) (x : A) :
  In x l -> p x = true -> exists y, find p l = Some y /\ In y l /\ p y = true.
Proof.
  intros Hin Hp. destruct (find p l) as [y|] eqn:E.
  - exists y. split; [reflexivity|]. now apply find_some in E.
  - apply (find_none _ _ E) in Hin. congruence.
Qed.

(** The booking rule with a date-bearing form in the site map. *)
Lemma matchAction_booking_form lower keywords siteMap data form :
  existsb (fun p => includes (lower (join (js " ") keywords)) p) PATTERNS.booking
  || hasDates data = true ->
  find dateForm (forms siteMap) = Some form ->
  matchAction lower keywords siteMap data = fill_form form data.
Proof.
  intros Htrig Hfind. unfold matchAction. now rewrite Htrig, Hfind.
Qed.

Lemma find_split {A} (p : A -> bool) (l : list A) (x : A) :
  find p l = Some x ->
  exists before after,
    l = before ++ x :: after /\ p x = true /\
    forall y, In y before -> p y = false.
Proof.
  induction l as [|a l IH]; cbn [find]; [discriminate|].
  destruct (p a) eqn:E.
  - intros H. injection H as <-. exists [], l. repeat split; [exact E | intros y []].
  - intros H. destruct (IH H) as [before [after [-> [Hp Hb]]]].
    exists (a :: before), after. repeat split; [exact Hp|].
    intros y [<- | Hy]; [exact E | now apply Hb].
Qed.

(** The predicate of [find] in the booking rule holds of the forms that
    bear a date, and of no other. *)
Lemma dateForm_bearsDate (f : SiteMapForm) : dateForm f = true <-> bearsDate f.
Proof.
  unfold dateForm, bearsDate. rewrite existsb_exists. split.
  - intros [field [Hin H]]. exists field. split; [exact Hin|].
    unfold dateField in H. rewrite !orb_true_iff in H.
    destruct H as [[H | H] | H].
    + left. destruct (fld_type field); try discriminate H. reflexivity.
    + right. apply existsb_exists in H. destruct H as [k [Hk H]].
      unfold arr_includes in H. apply existsb_exists in H.
      destruct H as [k' [Hk' H]]. apply jseqb_eq in H. subst k'.
      exists k. split; [apply in_or_app; now left | exact Hk'].
    + right. apply existsb_exists in H. destruct H as [k [Hk H]].
      unfold arr_includes in H. apply existsb_exists in H.
      destruct H as [k' [Hk' H]]. apply jseqb_eq in H. subst k'.
      exists k. split; [apply in_or_app; now right | exact Hk'].
  - intros [field [Hin H]]. exists field. split; [exact Hin|].
    unfold dateField. rewrite !orb_true_iff.
    destruct H as [H | [k [Hk Hf]]].
    + left. left. now rewrite H.
    + assert (I : arr_includes (fld_keywords field) k = true).
      { unfold arr_includes. apply existsb_exists. exists k.
        split; [exact Hf | apply jseqb_refl]. }
      apply in_app_or in Hk. destruct Hk as [Hk | Hk].
      * left. right. apply existsb_exists. now exists k.
      * right. apply existsb_exists. now exists k.
Qed.

(** The booking rule on a site map whose first date-bearing form is
    [form]. *)
Lemma matchAction_first_date_form lower keywords siteMap data before form after :
  existsb (fun p => includes (lower (join (js " ") keywords)) p) PATTERNS.booking
  || hasDates data = true ->
  forms siteMap = before ++ form :: after ->
  bearsDate form ->
  (forall f, In f before -> ~ bearsDate f) ->
  matchAction lower keywords siteMap data = fill_form form data.
Proof.
  intros Htrig Hs Hb Hn. apply matchAction_booking_form; [exact Htrig|].
  rewrite Hs. clear Hs. induction before as [|f before IH]; cbn [app find].
  - apply dateForm_bearsDate in Hb. now rewrite Hb.
  - destruct (dateForm f) eqn:E.
    + exfalso. apply (Hn f); [now left | now apply dateForm_bearsDate].
    + apply IH. intros g Hg. apply Hn. now right.
Qed.

(** C3, as the specification states it, fails when a form without a
    date-typed field is declared before the one that has it and one of its
    fields has a check-in or check-out pattern among its keywords: the
    keywords "резервация", "стая" are matched to [fill_form] on the
    newsletter form, whose only field is a text field with the keyword
    [to]. *)
Lemma booking_picks_form_without_date_field :
  In Sim.form_ex (forms Sites.twoForms) /\
  In Sim.dateField_ex (fields Sim.form_ex) /\
  fld_type Sim.dateField_ex = date /\
  In Sim.bookBtn_ex (buttons Sites.twoForms) /\
  action_type Sim.bookBtn_ex = booking /\
  matchAction toLowerCase_latin_cyrillic [js "резервация"; js "стая"]
    Sites.twoForms None = fill_form Sites.newsletter None /\
  ~ picksDateTypedForm toLowerCase_latin_cyrillic [js "резервация"; js "стая"]
      Sites.twoForms None.
Proof.
  assert (E : matchAction toLowerCase_latin_cyrillic [js "резервация"; js "стая"]
                Sites.twoForms None = fill_form Sites.newsletter None)
    by (vm_compute; reflexivity).
  split; [right; now left|]. split; [now left|]. split; [reflexivity|].
  split; [now left|]. split; [reflexivity|]. split; [exact E|].
  intros [form [field [H [_ [Hin Hty]]]]]. rewrite E in H.
  injection H as <-. destruct Hin as [<- | []]. discriminate Hty.
Qed.

(** C3 (amended): when the site map has a form with a date-typed field
    and a button tagged booking, every keyword list whose joined
    lower-cased text contains a booking pattern, and every request with a
    check-in or check-out date, is matched to [fill_form], never to
    [click]; the form is the first one in declaration order that bears a
    date, that is, has a date-typed field or a field with a check-in or
    check-out pattern among its keywords as written; it is the form with
    the date-typed field when no form declared before it bears a date.
    In particular so are the keywords "резервация", "стая". *)
Theorem matchAction_booking_prefers_form :
  forall siteMap data f fld b,
    In f (forms siteMap) -> In fld (fields f) -> fld_type fld = date ->
    In b (buttons siteMap) -> action_type b = booking ->
    (forall lower keywords,
        existsb (fun p => includes (lower (join (js " ") keywords)) p)
                PATTERNS.booking = true
        \/ hasDates data = true ->
        picksFirstDateForm lower keywords siteMap data /\
        forall before after,
          forms siteMap = before ++ f :: after ->
          (forall g, In g before -> ~ bearsDate g) ->
          matchAction lower keywords siteMap data = fill_form f data) /\
    picksFirstDateForm toLowerCase_latin_cyrillic [js "резервация"; js "стая"]
                       siteMap data.
Proof.
  intros siteMap data f fld b Hf Hfld Hty _ _.
  assert (Bf : bearsDate f).
  { exists fld. split; [exact Hfld | now left]. }
  assert (G : forall lower keywords,
             existsb (fun p => includes (lower (join (js " ") keywords)) p)
                     PATTERNS.booking
             || hasDates data = true ->
             picksFirstDateForm lower keywords siteMap data).
  { intros lower keywords Htrig.
    destruct (find_first_of_In dateForm (forms siteMap) f Hf
                (proj2 (dateForm_bearsDate f) Bf)) as [form [Hfind _]].
    destruct (find_split _ _ _ Hfind) as [before [after [Hs [Hp Hb]]]].
    assert (Hn : forall g, In g before -> ~ bearsDate g).
    { intros g Hg B. apply dateForm_bearsDate in B. rewrite (Hb g Hg) in B.
      discriminate B. }
    apply dateForm_bearsDate in Hp.
    exists before, form, after.
    rewrite (matchAction_first_date_form lower keywords siteMap data
               before form after Htrig Hs Hp Hn).
    repeat split; try assumption. discriminate. }
  split.
  - intros lower keywords H.
    assert (Htrig : existsb (fun p => includes (lower (join (js " ") keywords)) p)
                            PATTERNS.booking
                    || hasDates data = true).
    { destruct H as [H | H]; rewrite H; auto using orb_true_r. }
    split; [now apply G|]. intros before after Hs Hn.
    now apply (matchAction_first_date_form lower keywords siteMap data
                 before f after).
  - apply G. reflexivity.
Qed.

Lemma matchAction_booking_prefers_form_witness :
  (forall lower keywords,
      existsb (fun p => includes (lower (join (js " ") keywords)) p)
              PATTERNS.booking = true
      \/ hasDates None = true ->
      picksFirstDateForm lower keywords (Sim.siteMap_ex 0) None /\
      forall before after,
        forms (Sim.siteMap_ex 0) = before ++ Sim.form_ex :: after ->
        (forall g, In g before -> ~ bearsDate g) ->
        matchAction lower keywords (Sim.siteMap_ex 0) None =
        fill_form Sim.form_ex None) /\
  picksFirstDateForm toLowerCase_latin_cyrillic [js "резервация"; js "стая"]
                     (Sim.siteMap_ex 0) None.
Proof.
  apply (matchAction_booking_prefers_form (Sim.siteMap_ex 0) None
           Sim.form_ex Sim.dateField_ex Sim.bookBtn_ex);
    simpl; auto.
Defined.

(* ------------------------------------------------------------------ *)
(** ** The regular expressions and getContactInfo *)

Lemma plus_runs_sound p s m rest :
  In (m, rest) (plus_runs p s) -> s = m ++ rest /\ 1 <= List.length m.
Proof.
  revert m rest. induction s as [|c s IH]; intros m rest; simpl.
  - tauto.
  - destruct (p c); [|simpl; tauto].
    rewrite in_app_iff, in_map_iff. intros [[[m' r'] [E Hin]] | [E | []]].
    + inversion E; subst. destruct (IH _ _ Hin) as [-> _].
      simpl. split; [reflexivity | lia].
    + inversion E; subst. simpl. split; [reflexivity | lia].
Qed.

Lemma runs_sound r : forall s m rest,
  In (m, rest) (runs r s) -> s = m ++ rest /\ minlen r <= List.length m.
Proof.
  induction r as [|p|r1 IH1 r2 IH2|r1 IH1 r2 IH2|p]; intros s m rest; simpl.
  - intros [E | []]. inversion E; subst. split; [reflexivity | simpl; lia].
  - destruct s as [|c s]; [simpl; tauto|].
    destruct (p c); [|simpl; tauto].
    intros [E | []]. inversion E; subst. split; [reflexivity | simpl; lia].
  - rewrite in_flat_map. intros [[m1 s1] [H1 H2]].
    rewrite in_map_iff in H2. destruct H2 as [[m2 s2] [E H2]].
    simpl in E. inversion E; subst.
    destruct (IH1 _ _ _ H1) as [-> L1]. simpl in H2.
    destruct (IH2 _ _ _ H2) as [-> L2].
    rewrite length_app, app_assoc. split; [reflexivity | lia].
  - rewrite in_app_iff. intros [H | H].
    + destruct (IH1 _ _ _ H). split; [assumption | lia].
    + destruct (IH2 _ _ _ H). split; [assumption | lia].
  - apply plus_runs_sound.
Qed.

Lemma exec_sound r s m :
  exec r s = Some m -> minlen r <= List.length m /\ exists rest, s = m ++ rest.
Proof.
  unfold exec. destruct (runs r s) as [|[m' rest] l] eqn:E; [discriminate|].
  intros H. inversion H; subst. simpl.
  destruct (runs_sound r s m rest) as [-> L]; [rewrite E; now left|].
  split; [assumption | now exists rest].
Qed.

Lemma search_sound r s m :
  search r s = Some m -> minlen r <= List.length m.
Proof.
  induction s as [|c s IH]; simpl.
  - destruct (exec r []) eqn:E; [|discriminate].
    intros H. inversion H; subst. now apply exec_sound in E.
  - destruct (exec r (c :: s)) eqn:E.
    + intros H. inversion H; subst. now apply exec_sound in E.
    + exact IH.
Qed.

Lemma search_truthy r s m :
  1 <= minlen r -> search r s = Some m -> truthy m = true.
Proof.
  intros L H. apply search_sound in H. destruct m; [simpl in H; lia | reflexivity].
Qed.

Lemma search_found_later r s1 s2 :
  exec r s2 <> None -> search r (s1 ++ s2) <> None.
Proof.
  intros H. induction s1 as [|c s1 IH]; simpl.
  - destruct s2; simpl; destruct (exec r _); congruence.
  - destruct (exec r (c :: s1 ++ s2)); [discriminate | exact IH].
Qed.

Lemma startsWith_split p : forall s,
  startsWith s p = true -> exists rest, s = p ++ rest.
Proof.
  induction p as [|c p IH]; intros s.
  - intros _. now exists s.
  - destruct s as [|d s]; cbn [startsWith]; [discriminate|].
    rewrite andb_true_iff. intros [E H]. apply N.eqb_eq in E. subst d.
    destruct (IH _ H) as [rest ->]. now exists rest.
Qed.

Lemma includes_split p s :
  includes s p = true -> exists before rest, s = before ++ p ++ rest.
Proof.
  induction s as [|c s IH]; cbn [includes]; rewrite orb_true_iff.
  - intros [H | H]; [|discriminate].
    destruct (startsWith_split _ _ H) as [rest E]. now exists [], rest.
  - intros [H | H].
    + destruct (startsWith_split _ _ H) as [rest E]. now exists [], rest.
    + destruct (IH H) as [before [rest ->]]. now exists (c :: before), rest.
Qed.

Lemma plus_runs_complete p m rest :
  m <> [] -> forallb p m = true -> In (m, rest) (plus_runs p (m ++ rest)).
Proof.
  induction m as [|c m IH]; [congruence|]. intros _ H.
  change (p c && forallb p m = true) in H.
  apply andb_true_iff in H. destruct H as [Hc Hm].
  change (In (c :: m, rest)
             (if p c
              then map (fun mr => (c :: fst mr, snd mr)) (plus_runs p (m ++ rest))
                   ++ [([c], m ++ rest)]
              else [])).
  rewrite Hc. apply in_or_app.
  destruct m as [|c' m].
  - right. now left.
  - left. apply in_map_iff. exists (c' :: m, rest). split; [reflexivity|].
    apply IH; [discriminate | assumption].
Qed.

Lemma seq_runs_complete r1 r2 s m1 s1 m2 s2 :
  In (m1, s1) (runs r1 s) -> In (m2, s2) (runs r2 s1) ->
  In (m1 ++ m2, s2) (runs (Seq r1 r2) s).
Proof.
  intros H1 H2. simpl. apply in_flat_map. exists (m1, s1). split; [assumption|].
  apply in_map_iff. now exists (m2, s2).
Qed.

Lemma lit_runs_complete l rest : In (l, rest) (runs (Lit l) (l ++ rest)).
Proof.
  induction l as [|c l IH]; simpl.
  - now left.
  - rewrite N.eqb_refl. simpl. rewrite app_nil_r.
    apply in_map_iff. now exists (l, rest).
Qed.

Lemma exec_of_In r s m rest : In (m, rest) (runs r s) -> exec r s <> None.
Proof.
  unfold exec. destruct (runs r s); [intros [] | discriminate].
Qed.

(** The permissive pattern matches at the start of the sample number,
    whatever follows it; the match stops after the ninth digit. *)
Lemma phone_sample_matches rest :
  exec phonePermissive (js "+359 88 123 4567" ++ rest) = Some (js "+359 88 123 456").
Proof. vm_compute. reflexivity. Qed.

Lemma email_sample_matches rest :
  exec emailPattern (js "a@b.com" ++ rest) <> None.
Proof.
  apply exec_of_In with (m := js "a" ++ js "@" ++ js "b" ++ js "." ++ js "com")
                        (rest := rest).
  unfold emailPattern.
  change (js "a@b.com" ++ rest)
    with (js "a" ++ js "@" ++ js "b" ++ js "." ++ js "com" ++ rest).
  apply seq_runs_complete with (s1 := js "@" ++ js "b" ++ js "." ++ js "com" ++ rest).
  { apply (plus_runs_complete addr_class (js "a")); [discriminate | reflexivity]. }
  apply seq_runs_complete with (s1 := js "b" ++ js "." ++ js "com" ++ rest).
  { apply lit_runs_complete. }
  apply seq_runs_complete with (s1 := js "." ++ js "com" ++ rest).
  { apply (plus_runs_complete addr_class (js "b")); [discriminate | reflexivity]. }
  apply seq_runs_complete with (s1 := js "com" ++ rest).
  { apply lit_runs_complete. }
  apply (plus_runs_complete word (js "com")); [discriminate | reflexivity].
Qed.

Lemma firstPhone_permissive text :
  firstPhone phonePatterns text =
  match search phonePermissive text with
  | Some m => Some m
  | None => search phoneStrict text
  end.
Proof.
  unfold phonePatterns. simpl.
  destruct (search phonePermissive text); [reflexivity|].
  now destruct (search phoneStrict text).
Qed.

Lemma phone_truthy text p : phone (contactScript text) = Some p -> truthy p = true.
Proof.
  unfold contactScript; cbn [phone]. rewrite firstPhone_permissive.
  destruct (search phonePermissive text) eqn:E1.
  - intros H. inversion H; subst.
    apply (search_truthy phonePermissive text p); [vm_compute; lia | assumption].
  - apply search_truthy. vm_compute; lia.
Qed.

Lemma email_truthy text e : email (contactScript text) = Some e -> truthy e = true.
Proof.
  unfold contactScript; cbn [email]. apply search_truthy. vm_compute; lia.
Qed.

Lemma contactMessage_correct text :
  contactMessage (contactScript text) =
  contactMessage_spec (phone (contactScript text)) (email (contactScript text)).
Proof.
  unfold contactMessage, contactParts, contactMessage_spec.
  destruct (phone (contactScript text)) as [p|] eqn:Ep;
    destruct (email (contactScript text)) as [e|] eqn:Ee;
    try rewrite (phone_truthy text p Ep); try rewrite (email_truthy text e Ee);
    simpl; reflexivity.
Qed.

Lemma contains_sample_found text :
  includes text (js "+359 88 123 4567") = true ->
  includes text (js "a@b.com") = true ->
  exists p e, phone (contactScript text) = Some p /\
              email (contactScript text) = Some e.
Proof.
  intros Hp He.
  destruct (includes_split _ _ Hp) as [b1 [r1 E1]].
  destruct (includes_split _ _ He) as [b2 [r2 E2]].
  assert (P : search phonePermissive text <> None).
  { rewrite E1. apply search_found_later. now rewrite phone_sample_matches. }
  assert (Q : search emailPattern text <> None).
  { rewrite E2. apply search_found_later. apply email_sample_matches. }
  unfold contactScript; cbn [phone email]. rewrite firstPhone_permissive.
  destruct (search phonePermissive text) as [p|]; [|congruence].
  destruct (search emailPattern text) as [e|]; [|congruence].
  now exists p, e.
Qed.

(* ------------------------------------------------------------------ *)
(** ** The session map *)

Lemma get_In k m s : SMap.get k m = Some s -> In (k, s) m.
Proof.
  induction m as [|[k' v] m IH]; simpl; [discriminate|].
  destruct (jseqb k k') eqn:E.
  - apply jseqb_eq in E. intros H. inversion H; subst. now left.
  - intros H. right. now apply IH.
Qed.

Lemma In_get k s m : In (k, s) m -> SMap.get k m <> None.
Proof.
  induction m as [|[k' v] m IH]; simpl; [tauto|].
  intros [E | H].
  - inversion E; subst. now rewrite jseqb_refl.
  - destruct (jseqb k k'); [discriminate | now apply IH].
Qed.

Lemma get_keys k m : SMap.get k m = None <-> ~ In k (SMap.keys m).
Proof.
  induction m as [|[k' v] m IH]; simpl; [tauto|].
  destruct (jseqb k k') eqn:E.
  - apply jseqb_eq in E. subst. split; [discriminate | tauto].
  - apply jseqb_neq in E. rewrite IH. intuition congruence.
Qed.

Lemma delete_absent k m : SMap.get k m = None -> SMap.delete k m = m.
Proof.
  induction m as [|[k' v] m IH]; simpl; [reflexivity|].
  destruct (jseqb k k'); [discriminate|]. intros H. now rewrite IH.
Qed.

Lemma set_absent k v m : SMap.get k m = None -> SMap.set k v m = m ++ [(k, v)].
Proof.
  induction m as [|[k' v'] m IH]; simpl; [reflexivity|].
  destruct (jseqb k k'); [discriminate|]. intros H. now rewrite IH.
Qed.

Lemma size_delete_le k m : SMap.size (SMap.delete k m) <= SMap.size m.
Proof.
  unfold SMap.size. induction m as [|[k' v] m IH]; simpl; [lia|].
  destruct (jseqb k k'); simpl; lia.
Qed.

Lemma size_delete_present k m :
  SMap.get k m <> None -> S (SMap.size (SMap.delete k m)) = SMap.size m.
Proof.
  unfold SMap.size. induction m as [|[k' v] m IH]; simpl; [congruence|].
  destruct (jseqb k k'); simpl; [reflexivity|]. intros H. now rewrite IH.
Qed.

Lemma size_set_le k v m : SMap.size (SMap.set k v m) <= S (SMap.size m).
Proof.
  unfold SMap.size. induction m as [|[k' v'] m IH]; simpl; [lia|].
  destruct (jseqb k k'); simpl; lia.
Qed.

Lemma size_set_present k v m :
  SMap.get k m <> None -> SMap.size (SMap.set k v m) = SMap.size m.
Proof.
  unfold SMap.size. induction m as [|[k' v'] m IH]; simpl; [congruence|].
  destruct (jseqb k k'); simpl; [reflexivity|]. intros H. now rewrite IH.
Qed.

Lemma get_set_same k v m : SMap.get k (SMap.set k v m) = Some v.
Proof.
  induction m as [|[k' v'] m IH]; simpl.
  - now rewrite jseqb_refl.
  - destruct (jseqb k k') eqn:E; simpl; [now rewrite jseqb_refl | now rewrite E].
Qed.

Lemma keys_delete_subset k k' m :
  In k' (SMap.keys (SMap.delete k m)) -> In k' (SMap.keys m).
Proof.
  induction m as [|[k0 v] m IH]; simpl; [tauto|].
  destruct (jseqb k k0); simpl; tauto.
Qed.

Lemma NoDup_delete k m :
  NoDup (SMap.keys m) -> NoDup (SMap.keys (SMap.delete k m)).
Proof.
  induction m as [|[k0 v] m IH]; simpl; [trivial|].
  intros H. inversion H; subst.
  destruct (jseqb k k0); simpl; [assumption|].
  constructor; [|now apply IH].
  intros Hin. now apply keys_delete_subset in Hin.
Qed.

Lemma get_delete_same k m :
  NoDup (SMap.keys m) -> SMap.get k (SMap.delete k m) = None.
Proof.
  induction m as [|[k0 v] m IH]; simpl; [reflexivity|].
  intros H. inversion H; subst.
  destruct (jseqb k k0) eqn:E; simpl.
  - apply jseqb_eq in E. subst. now apply get_keys.
  - rewrite E. now apply IH.
Qed.

Lemma get_delete_other k k' m :
  k' <> k -> SMap.get k' (SMap.delete k m) = SMap.get k' m.
Proof.
  intros Hne. induction m as [|[k0 v] m IH]; simpl; [reflexivity|].
  destruct (jseqb k k0) eqn:E; simpl.
  - apply jseqb_eq in E. subst.
    destruct (jseqb k' k0) eqn:E'; [apply jseqb_eq in E'; congruence | reflexivity].
  - now rewrite IH.
Qed.

Lemma keys_set k v m :
  SMap.keys (SMap.set k v m) = SMap.keys m \/
  (~ In k (SMap.keys m) /\ SMap.keys (SMap.set k v m) = SMap.keys m ++ [k]).
Proof.
  induction m as [|[k0 v0] m IH]; simpl.
  - right. tauto.
  - destruct (jseqb k k0) eqn:E; simpl.
    + apply jseqb_eq in E. subst. now left.
    + apply jseqb_neq in E. destruct IH as [-> | [Hn ->]]; [now left|].
      right. split; [intuition congruence | reflexivity].
Qed.

Lemma NoDup_set k v m :
  NoDup (SMap.keys m) -> NoDup (SMap.keys (SMap.set k v m)).
Proof.
  intros H. destruct (keys_set k v m) as [-> | [Hn ->]]; [assumption|].
  apply NoDup_app; [assumption | repeat constructor; simpl; tauto |].
  intros x Hx [<- | []]. contradiction.
Qed.

Lemma delete_split k s m1 m2 :
  ~ In k (SMap.keys m1) -> SMap.delete k (m1 ++ (k, s) :: m2) = m1 ++ m2.
Proof.
  induction m1 as [|[k0 v] m1 IH]; simpl; intros H.
  - now rewrite jseqb_refl.
  - destruct (jseqb k k0) eqn:E.
    + apply jseqb_eq in E. subst. tauto.
    + rewrite IH; tauto.
Qed.

(** The scan keeps the first entry among those with the least
    [lastActivity]. *)
Lemma scanOldest_acc m : forall k0 t0 k t,
  scanOldest m (Some (k0, t0)) = Some (k, t) ->
  ((k, t) = (k0, t0) /\
   forall k' s', In (k', s') m -> (t0 <= lastActivity s')%Z) \/
  (exists m1 s m2,
      m = m1 ++ (k, s) :: m2 /\ lastActivity s = t /\ (t < t0)%Z /\
      (forall k' s', In (k', s') m1 -> (t < lastActivity s')%Z) /\
      (forall k' s', In (k', s') m2 -> (t <= lastActivity s')%Z)).
Proof.
  induction m as [|[id session] m IH]; intros k0 t0 k t; simpl.
  - intros H. inversion H; subst. left. split; [reflexivity | tauto].
  - destruct (lastActivity session <? t0)%Z eqn:E.
    + apply Z.ltb_lt in E. intros H.
      destruct (IH _ _ _ _ H) as [[Eq Hall] | [m1 [s [m2 [-> [Hs [Hlt [H1 H2]]]]]]]].
      * inversion Eq; subst. right. exists [], session, m.
        split; [reflexivity|]. split; [reflexivity|]. split; [assumption|].
        split; [simpl; tauto | assumption].
      * right. exists ((id, session) :: m1), s, m2.
        split; [reflexivity|]. split; [assumption|]. split; [lia|].
        split; [|assumption].
        intros k' s' [Eq | Hin]; [inversion Eq; subst; lia | eauto].
    + apply Z.ltb_ge in E. intros H.
      destruct (IH _ _ _ _ H) as [[Eq Hall] | [m1 [s [m2 [-> [Hs [Hlt [H1 H2]]]]]]]].
      * left. split; [assumption|]. inversion Eq; subst.
        intros k' s' [Eq' | Hin]; [inversion Eq'; subst; assumption | eauto].
      * right. exists ((id, session) :: m1), s, m2.
        split; [reflexivity|]. split; [assumption|]. split; [assumption|].
        split; [|assumption].
        intros k' s' [Eq | Hin]; [inversion Eq; subst; lia | eauto].
Qed.

Lemma scanOldest_first m : m <> [] ->
  exists k s m1 m2,
    scanOldest m None = Some (k, lastActivity s) /\
    m = m1 ++ (k, s) :: m2 /\
    (forall k' s', In (k', s') m1 -> (lastActivity s < lastActivity s')%Z) /\
    (forall k' s', In (k', s') m2 -> (lastActivity s <= lastActivity s')%Z).
Proof.
  destruct m as [|[id session] m]; [congruence|]. intros _. simpl.
  destruct (scanOldest m (Some (id, lastActivity session))) as [[k t]|] eqn:E.
  - destruct (scanOldest_acc _ _ _ _ _ E)
      as [[Eq Hall] | [m1 [s [m2 [-> [Hs [Hlt [H1 H2]]]]]]]].
    + inversion Eq; subst. exists id, session, [], m.
      split; [reflexivity|]. split; [reflexivity|].
      split; [simpl; tauto | assumption].
    + subst t. exists k, s, ((id, session) :: m1), m2.
      split; [reflexivity|]. split; [reflexivity|]. split; [|assumption].
      intros k' s' [Eq | Hin]; [inversion Eq; subst; lia | eauto].
  - exfalso. clear -E. revert E. generalize (id, lastActivity session).
    induction m as [|[i x] m IH]; intros [a b]; simpl; [discriminate|].
    destruct (lastActivity x <? b)%Z; apply IH.
Qed.

(* ------------------------------------------------------------------ *)
(** ** Session management *)

Section ManagerFacts.

Context {W : Type} (drv : Driver W) (lower : jsstring -> jsstring).

Lemma frame_refl (st : State W) : frame st st.
Proof. repeat split. exists []. now rewrite app_nil_r. Qed.

Lemma frame_trans (st1 st2 st3 : State W) : frame st1 st2 -> frame st2 st3 -> frame st1 st3.
Proof.
  intros [B1 [R1 [e1 L1]]] [B2 [R2 [e2 L2]]]. repeat split; try congruence.
  exists (e1 ++ e2). now rewrite L2, L1, app_assoc.
Qed.

Lemma invoke_frame {A} c (op : W -> Exc A * W) st :
  sessions (snd (invoke c op st)) = sessions st /\
  frame st (snd (invoke c op st)).
Proof.
  unfold invoke. destruct (op (world st)) as [r w]. simpl.
  repeat split. now exists [(c, is_ok r)].
Qed.

Lemma dateNow_frame st :
  exists t st', dateNow drv st = (Ok t, st') /\
                sessions st' = sessions st /\ frame st st'.
Proof.
  unfold dateNow. destruct (drv_now drv (world st)) as [t w].
  exists t. eexists. split; [reflexivity|]. simpl.
  repeat split. exists []. now rewrite app_nil_r.
Qed.

Lemma bind_ok {A B} (m : M W A) (k : A -> M W B) st a st' :
  m st = (Ok a, st') -> bind m k st = k a st'.
Proof. unfold bind. now intros ->. Qed.

Ltac call_driver :=
  match goal with
  | |- context [drv_pageClose ?d ?p ?w] =>
    destruct (drv_pageClose d p w) as [[[]|] ?]
  | |- context [drv_contextClose ?d ?c ?w] =>
    destruct (drv_contextClose d c w) as [[[]|] ?]
  end; cbn.

(** [closeSession] returns, with the key deleted; when the key had a
    session, its page was asked to close. *)
Lemma closeSession_spec k st :
  exists st',
    closeSession drv k st = (Ok tt, st') /\
    sessions st' = SMap.delete k (sessions st) /\
    frame st st' /\
    forall s, SMap.get k (sessions st) = Some s ->
              exists b evs, log st' = log st ++ (CPageClose (page s), b) :: evs.
Proof.
  unfold closeSession, bind, getSessions.
  destruct (SMap.get k (sessions st)) as [s|] eqn:G.
  - unfold try_catch, pageClose, contextClose, invoke, bind, ret, putSessions,
      with_sessions.
    repeat call_driver;
      (eexists; split; [reflexivity|]; cbn;
       split; [reflexivity|]; split;
       [ repeat split; rewrite <- ?app_assoc; eexists; reflexivity
       | intros s' E; inversion E; subst; rewrite <- ?app_assoc;
         do 2 eexists; reflexivity ]).
  - exists st. unfold ret. rewrite (delete_absent _ _ G).
    repeat split; [exists []; now rewrite app_nil_r | discriminate].
Qed.

Lemma logged_frame (st0 st1 st2 st3 : State W) c :
  frame st0 st1 -> logged st1 st2 c -> frame st2 st3 -> logged st0 st3 c.
Proof.
  intros [_ [_ [e1 L1]]] [e2 [b [L2 Hin]]] [_ [_ [e3 L3]]].
  exists (e1 ++ e2 ++ e3), b. split.
  - now rewrite L3, L2, L1, !app_assoc.
  - apply in_or_app. right. apply in_or_app. now left.
Qed.

End ManagerFacts.

(* ------------------------------------------------------------------ *)
(** ** Deleting several keys *)

Lemma delete_comm k k' m :
  SMap.delete k (SMap.delete k' m) = SMap.delete k' (SMap.delete k m).
Proof.
  induction m as [|[k0 v] m IH]; [reflexivity|]. cbn [SMap.delete].
  destruct (jseqb k' k0) eqn:E'; destruct (jseqb k k0) eqn:E;
    cbn [SMap.delete]; rewrite ?E, ?E'; try reflexivity.
  - apply jseqb_eq in E, E'. now subst.
  - now rewrite IH.
Qed.

Lemma deleteAll_app l1 l2 m : deleteAll (l1 ++ l2) m = deleteAll l2 (deleteAll l1 m).
Proof. apply fold_left_app. Qed.

Lemma deleteAll_perm l l' : Permutation l l' -> forall m, deleteAll l m = deleteAll l' m.
Proof.
  induction 1 as [|x l l' _ IH|x y l|l l' l'' _ IH1 _ IH2]; intros m.
  - reflexivity.
  - apply (IH (SMap.delete x m)).
  - cbn [deleteAll fold_left]. now rewrite (delete_comm x y).
  - now rewrite IH1.
Qed.

Lemma size_deleteAll_le ks : forall m, SMap.size (deleteAll ks m) <= SMap.size m.
Proof.
  induction ks as [|k ks IH]; intros m; [apply Nat.le_refl|].
  cbn [deleteAll fold_left]. fold (deleteAll ks (SMap.delete k m)).
  pose proof (IH (SMap.delete k m)). pose proof (size_delete_le k m). lia.
Qed.

Lemma keys_deleteAll_subset ks : forall k' m,
  In k' (SMap.keys (deleteAll ks m)) -> In k' (SMap.keys m).
Proof.
  induction ks as [|k ks IH]; intros k' m H; [exact H|].
  apply (keys_delete_subset k). now apply IH.
Qed.

Lemma NoDup_deleteAll ks : forall m,
  NoDup (SMap.keys m) -> NoDup (SMap.keys (deleteAll ks m)).
Proof.
  induction ks as [|k ks IH]; intros m N; [exact N|].
  apply (IH (SMap.delete k m)). now apply NoDup_delete.
Qed.

Lemma get_deleteAll_none ks k m :
  SMap.get k m = None -> SMap.get k (deleteAll ks m) = None.
Proof.
  intros G. apply get_keys. intros Hin. apply keys_deleteAll_subset in Hin.
  now apply get_keys in G.
Qed.

Lemma delete_set_other k id v : forall m,
  k <> id -> SMap.delete k (SMap.set id v m) = SMap.set id v (SMap.delete k m).
Proof.
  intros m Hne. assert (Ek : jseqb k id = false) by now apply jseqb_neq.
  induction m as [|[k0 v0] m IH]; cbn [SMap.set SMap.delete].
  - now rewrite Ek.
  - destruct (jseqb id k0) eqn:Ei; destruct (jseqb k k0) eqn:E0;
      cbn [SMap.set SMap.delete]; rewrite ?Ei, ?E0, ?Ek.
    + apply jseqb_eq in Ei, E0. congruence.
    + reflexivity.
    + reflexivity.
    + now rewrite IH.
Qed.

Lemma deleteAll_set ks id v : forall m,
  ~ In id ks -> deleteAll ks (SMap.set id v m) = SMap.set id v (deleteAll ks m).
Proof.
  induction ks as [|k ks IH]; intros m Hn; [reflexivity|].
  cbn [deleteAll fold_left]. fold (deleteAll ks (SMap.delete k (SMap.set id v m))).
  fold (deleteAll ks (SMap.delete k m)).
  rewrite delete_set_other; [|intros ->; apply Hn; now left].
  apply IH. intros H. apply Hn. now right.
Qed.

Lemma nth_error_parts {A} (l : list A) : forall i d,
  nth_error l i = Some d -> l = firstn i l ++ d :: skipn (S i) l.
Proof.
  induction l as [|x l IH]; intros [|i] d H; try discriminate.
  - now inversion H.
  - cbn [firstn skipn app]. f_equal. now apply IH.
Qed.

(* ------------------------------------------------------------------ *)
(** ** Detached calls and their turns *)

Section DetachedFacts.

Context {W : Type} (drv : Driver W).

Lemma passes_refl (st : State W) : passes st st.
Proof. split; [apply frame_refl|]. now exists []. Qed.

Lemma passes_trans (st1 st2 st3 : State W) :
  passes st1 st2 -> passes st2 st3 -> passes st1 st3.
Proof.
  intros [F1 [d1 [P1 S1]]] [F2 [d2 [P2 S2]]].
  split; [apply (frame_trans _ _ _ F1 F2)|].
  exists (d1 ++ d2). split.
  - rewrite <- app_assoc. apply (Permutation_trans P1).
    now apply Permutation_app_head.
  - now rewrite S2, S1, deleteAll_app.
Qed.

Lemma passes_same (st st' : State W) :
  sessions st' = sessions st -> detached st' = detached st -> frame st st' ->
  passes st st'.
Proof. intros S D F. split; [exact F|]. exists []. now rewrite D, S. Qed.

Lemma passes_atRest (st st' : State W) : passes st st' -> atRest st' = atRest st.
Proof.
  intros [_ [done [P S]]]. unfold atRest. rewrite S, <- deleteAll_app.
  symmetry. now apply deleteAll_perm.
Qed.

Lemma passes_owes (st st' : State W) :
  passes st st' -> incl (map owes (detached st')) (map owes (detached st)).
Proof.
  intros [_ [done [P _]]] k Hk. apply (Permutation_in _ (Permutation_sym P)).
  apply in_or_app. now right.
Qed.

Lemma passes_frame (st st' : State W) : passes st st' -> frame st st'.
Proof. now intros [F _]. Qed.

Lemma closesOnly_refl (st : State W) : closesOnly st st.
Proof. exists []. split; [now rewrite app_nil_r | constructor]. Qed.

Lemma closesOnly_trans (st1 st2 st3 : State W) :
  closesOnly st1 st2 -> closesOnly st2 st3 -> closesOnly st1 st3.
Proof.
  intros [e1 [L1 F1]] [e2 [L2 F2]]. exists (e1 ++ e2).
  split; [now rewrite L2, L1, app_assoc | now apply Forall_app].
Qed.

(** The detached call reads the session and asks its page to close; the
    store is left as it is. *)
Lemma closeSessionDetached_spec k (st : State W) :
  exists st',
    closeSessionDetached drv k st = (Ok tt, st') /\
    sessions st' = sessions st /\
    frame st st' /\
    match SMap.get k (sessions st) with
    | Some s =>
      exists c, detached st' = detached st ++ [AwaitsPageClose k s c] /\
                log st' = log st ++ [(CPageClose (page s), c)]
    | None => st' = st
    end.
Proof.
  unfold closeSessionDetached, bind, getSessions.
  destruct (SMap.get k (sessions st)) as [s|].
  - unfold try_catch, bind, pageClose, invoke, ret, getDetached, putDetached,
      with_detached.
    destruct (drv_pageClose drv (page s) (world st)) as [[[]|] w]; cbn;
      (eexists; split; [reflexivity|]; cbn; split; [reflexivity|]; split;
       [repeat split; eexists; reflexivity | eexists; split; reflexivity]).
  - exists st. unfold ret. repeat split. apply frame_refl.
Qed.

(** One turn closes a context and keeps the call pending, or deletes the
    key of the call. *)
Lemma resume_spec d (st : State W) :
  exists left st',
    resume drv d st = (Ok left, st') /\
    frame st st' /\ closesOnly st st' /\
    detached st' = detached st /\
    match left with
    | Some d' => owes d' = owes d /\ sessions st' = sessions st
    | None => sessions st' = SMap.delete (owes d) (sessions st)
    end.
Proof.
  assert (Del : forall k,
             exists left st',
               bind (@getSessions W)
                 (fun m => bind (putSessions (SMap.delete k m)) (fun _ => ret None)) st =
               (Ok left, st') /\
               frame st st' /\ closesOnly st st' /\ detached st' = detached st /\
               match left with
               | Some d' => owes d' = k /\ sessions st' = sessions st
               | None => sessions st' = SMap.delete k (sessions st)
               end).
  { intros k. unfold bind, getSessions, putSessions, ret, with_sessions.
    eexists None, _. split; [reflexivity|]. cbn.
    split; [repeat split; exists []; now rewrite app_nil_r|].
    split; [exists []; split; [now rewrite app_nil_r | constructor]|].
    now split. }
  destruct d as [k s [|]|k]; cbn [resume owes]; try apply Del.
  unfold bind, try_catch, contextClose, invoke, ret.
  destruct (drv_contextClose drv (context s) (world st)) as [[[]|] w]; cbn;
    (eexists (Some _), _; split; [reflexivity|]; cbn;
     split; [repeat split; eexists; reflexivity|];
     split; [eexists; split; [reflexivity|];
             apply Forall_cons; [eexists; reflexivity | apply Forall_nil]|];
     repeat split).
Qed.

Lemma advance_spec i (st : State W) :
  exists st', advance drv i st = (Ok tt, st') /\ passes st st' /\ closesOnly st st'.
Proof.
  unfold advance. unfold bind at 1, getDetached at 1.
  destruct (nth_error (detached st) i) as [d|] eqn:N.
  - destruct (resume_spec d st) as [left [st1 [E [F [C [D R]]]]]].
    rewrite (bind_ok _ _ _ _ _ E). unfold putDetached, with_detached.
    eexists. split; [reflexivity|].
    assert (Fr : forall ds, frame st {| world := world st1; log := log st1;
                                        browser := browser st1; sessions := sessions st1;
                                        isReady := isReady st1; detached := ds |}).
    { intros ds. exact F. }
    split; [|exact C]. split; [apply Fr|]. cbn [detached sessions].
    pose proof (nth_error_parts _ _ _ N) as Parts.
    destruct left as [d'|].
    + destruct R as [O S]. exists []. split; [|now rewrite S].
      cbn [app]. rewrite Parts at 1. rewrite !map_app. cbn [map]. now rewrite O.
    + exists [owes d]. split; [|now rewrite R].
      rewrite Parts at 1. rewrite !map_app. cbn [map app].
      apply Permutation_sym, Permutation_middle.
  - exists st. unfold ret. split; [reflexivity|].
    split; [apply passes_refl | apply closesOnly_refl].
Qed.

Lemma turns_spec order : forall st : State W,
  exists st', turns drv order st = (Ok tt, st') /\ passes st st' /\ closesOnly st st'.
Proof.
  induction order as [|i order IH]; intros st; cbn [turns].
  - exists st. unfold ret. split; [reflexivity|].
    split; [apply passes_refl | apply closesOnly_refl].
  - destruct (advance_spec i st) as [st1 [E [P C]]].
    rewrite (bind_ok _ _ _ _ _ E).
    destruct (IH st1) as [st2 [E2 [P2 C2]]]. exists st2.
    split; [exact E2|].
    split; [apply (passes_trans _ _ _ P P2) | apply (closesOnly_trans _ _ _ C C2)].
Qed.

(** While the worker awaits [m], pending calls take turns; the result is
    that of [m]. *)
Lemma await_spec {A} (m : M W A) (st : State W) :
  exists st2,
    await drv m st = (fst (m st), st2) /\
    passes (snd (m st)) st2 /\ closesOnly (snd (m st)) st2.
Proof.
  unfold await. destruct (m st) as [r st1]. cbn [fst snd].
  destruct (drv_settled drv (world st1)) as [order w].
  match goal with
  | |- context [turns drv order ?s] =>
    destruct (turns_spec order s) as [st2 [E [P C]]]
  end.
  rewrite E. exists st2. split; [reflexivity|]. split; [exact P | exact C].
Qed.

(** A driver call that is awaited. *)
Lemma await_invoke {A} c (op : W -> Exc A * W) (st : State W) :
  exists r st1 st2,
    await drv (invoke c op) st = (r, st2) /\
    log st1 = log st ++ [(c, is_ok r)] /\
    passes st st1 /\ passes st1 st2 /\ closesOnly st1 st2.
Proof.
  destruct (await_spec (invoke c op) st) as [st2 [E [P C]]].
  exists (fst (invoke c op st)), (snd (invoke c op st)), st2.
  split; [exact E|]. split; [|split; [|split; assumption]].
  - unfold invoke. now destruct (op (world st)).
  - destruct (invoke_frame c op st) as [S F].
    apply passes_same; [exact S| |exact F].
    unfold invoke. now destruct (op (world st)).
Qed.

(** Pending calls can always be brought to their end: the first one is
    given turns until none is left. *)
Lemma turns_drain n : forall st : State W,
  length (detached st) <= n ->
  exists order, detached (snd (turns drv order st)) = [].
Proof.
  induction n as [|n IH]; intros st Hn.
  - exists []. cbn. destruct (detached st); [reflexivity | cbn in Hn; lia].
  - destruct (detached st) as [|d ds] eqn:Ed; [exists []; exact Ed|].
    assert (Last : forall st1 : State W,
               (exists k, detached st1 = AwaitsContextClose k :: ds) \/
               (exists k s, detached st1 = AwaitsPageClose k s false :: ds) ->
               length (detached (snd (advance drv 0 st1))) <= n).
    { intros st1 Hd. unfold advance, bind at 1, getDetached at 1.
      destruct Hd as [[k Hd] | [k [s Hd]]]; rewrite Hd; cbn [nth_error];
        unfold resume, bind, getSessions, putSessions, ret, putDetached,
          with_sessions, with_detached; cbn; cbn in Hn; lia. }
    destruct d as [k s [|]|k].
    + assert (Hd : exists k', detached (snd (advance drv 0 st)) =
                              AwaitsContextClose k' :: ds).
      { exists k. unfold advance, bind at 1, getDetached at 1. rewrite Ed.
        cbn [nth_error].
        unfold resume, bind, try_catch, contextClose, invoke, ret, putDetached,
          with_detached.
        destruct (drv_contextClose drv (context s) (world st)) as [[[]|] w];
          reflexivity. }
      destruct (IH (snd (advance drv 0 (snd (advance drv 0 st)))))
        as [order Ho]; [apply Last; now left|].
      exists (0 :: 0 :: order). cbn [turns]. unfold bind at 1.
      destruct (advance_spec 0 st) as [st1 [E1 _]]. rewrite E1 in *.
      cbn [snd] in *. unfold bind at 1.
      destruct (advance_spec 0 st1) as [st2 [E2 _]]. rewrite E2 in *.
      exact Ho.
    + destruct (IH (snd (advance drv 0 st))) as [order Ho].
      { apply Last. right. now exists k, s. }
      exists (0 :: order). cbn [turns]. unfold bind at 1.
      destruct (advance_spec 0 st) as [st1 [E1 _]]. rewrite E1 in *.
      exact Ho.
    + destruct (IH (snd (advance drv 0 st))) as [order Ho].
      { apply Last. left. now exists k. }
      exists (0 :: order). cbn [turns]. unfold bind at 1.
      destruct (advance_spec 0 st) as [st1 [E1 _]]. rewrite E1 in *.
      exact Ho.
Qed.

End DetachedFacts.

Section PrepareAnatomy.

Context {W : Type} (drv : Driver W).

Lemma calm_ret {A} (a : A) : calm (W:=W) (ret a).
Proof. intros st. reflexivity. Qed.

Lemma calm_lift {A} (r : Exc A) : calm (W:=W) (lift r).
Proof. intros st. reflexivity. Qed.

Lemma calm_bind {A B} (m : M W A) (k : A -> M W B) :
  calm m -> (forall a, calm (k a)) -> calm (bind m k).
Proof.
  intros Hm Hk st. unfold bind. specialize (Hm st).
  destruct (m st) as [[a|] st1]; cbn [snd] in *; [|exact Hm].
  now rewrite (Hk a st1).
Qed.

Lemma calm_try_catch {A} (m h : M W A) : calm m -> calm h -> calm (try_catch m h).
Proof.
  intros Hm Hh st. unfold try_catch. specialize (Hm st).
  destruct (m st) as [[a|] st1]; cbn [snd] in *; [exact Hm|].
  now rewrite (Hh st1).
Qed.

Lemma calm_invoke {A} c (op : W -> Exc A * W) : calm (invoke c op).
Proof. intros st. unfold invoke. now destruct (op (world st)). Qed.

Lemma calm_dateNow : calm (dateNow drv).
Proof. intros st. unfold dateNow. now destruct (drv_now drv (world st)). Qed.

Lemma calm_getSessions : calm (@getSessions W).
Proof. intros st. reflexivity. Qed.

Lemma calm_putSessions m : calm (W:=W) (putSessions m).
Proof. intros st. reflexivity. Qed.

Lemma calm_closeSession k : calm (closeSession drv k).
Proof.
  unfold closeSession. apply calm_bind; [apply calm_getSessions|]. intros m.
  destruct (SMap.get k m); [|apply calm_ret].
  apply calm_bind.
  - apply calm_try_catch; [|apply calm_ret].
    apply calm_bind; [apply calm_invoke | intros; apply calm_invoke].
  - intros _. apply calm_bind; [apply calm_getSessions | intros; apply calm_putSessions].
Qed.

(** The eviction leaves the store as it is: the close of the oldest
    session is pending. *)
Lemma evictOldestSession_spec (st : State W) :
  exists st',
    evictOldestSession drv st = (Ok tt, st') /\
    sessions st' = sessions st /\
    frame st st' /\
    match scanOldest (sessions st) None with
    | Some (k, _) =>
      match SMap.get k (sessions st) with
      | Some s =>
        exists c, detached st' = detached st ++ [AwaitsPageClose k s c] /\
                  log st' = log st ++ [(CPageClose (page s), c)]
      | None => st' = st
      end
    | None => st' = st
    end.
Proof.
  unfold evictOldestSession, bind, getSessions.
  destruct (scanOldest (sessions st) None) as [[k t]|].
  - apply closeSessionDetached_spec.
  - exists st. unfold ret. repeat split. apply frame_refl.
Qed.

Lemma cleanupLoop_spec now entries : forall st : State W,
  exists st',
    cleanupLoop drv now entries st = (Ok tt, st') /\
    sessions st' = sessions st /\
    frame st st'.
Proof.
  induction entries as [|[siteId session] rest IH]; intros st; cbn [cleanupLoop].
  - exists st. unfold ret. repeat split. apply frame_refl.
  - destruct (now - lastActivity session >? SESSION_TIMEOUT)%Z.
    + destruct (closeSessionDetached_spec drv siteId st) as [st1 [E [S [F _]]]].
      rewrite (bind_ok _ _ _ _ _ E).
      destruct (IH st1) as [st2 [E2 [S2 F2]]]. exists st2.
      split; [exact E2|]. split; [congruence | apply (frame_trans _ _ _ F F2)].
    + unfold bind at 1, ret at 1. apply IH.
Qed.

Lemma cleanupSessions_spec (st : State W) :
  exists st',
    cleanupSessions drv st = (Ok tt, st') /\
    sessions st' = sessions st /\
    frame st st'.
Proof.
  unfold cleanupSessions.
  destruct (dateNow_frame drv st) as [t [st1 [E [S F]]]].
  rewrite (bind_ok _ _ _ _ _ E). unfold bind, getSessions.
  destruct (cleanupLoop_spec t (sessions st1) st1) as [st2 [E2 [S2 F2]]].
  exists st2. split; [exact E2|].
  split; [congruence | apply (frame_trans _ _ _ F F2)].
Qed.

Ltac awaited c op st x b P :=
  let r := fresh "r" in
  let a := fresh "a" in
  let E := fresh "Hea" in
  let L := fresh "Hla" in
  let P1 := fresh "Hpa" in
  let Q := fresh "Hqa" in
  let C := fresh "Hca" in
  destruct (await_invoke drv c op st) as [r [a [b [E [L [P1 [Q C]]]]]]];
  unfold bind at 1; rewrite E; clear E;
  pose proof (passes_trans _ _ _ P1 Q) as P;
  destruct r as [x|];
  [|exists Throw, b, b;
    split; [reflexivity|];
    split; [eauto using passes_trans|];
    split; [apply frame_refl|]; split; reflexivity].

(** The part of [prepareSession] from [newContext] to the end of the
    [try] block, as run from [st]: pending calls may take turns until the
    new session is stored, at [mid]. *)
Lemma openSession_spec id sm (k : M W bool) (st : State W) :
  k = (bind (await drv (newContext drv))
         (fun context : BrowserContext =>
          bind (await drv (newPage drv context))
            (fun page : Page =>
             bind
               (await drv
                  (goto drv page
                     (if startsWith (url sm) (js "http")
                      then url sm
                      else js "https://" ++ url sm)
                     20000))
               (fun _ : unit =>
                bind (await drv (waitForTimeout drv page 1500))
                  (fun _ : unit =>
                   bind (dateNow drv)
                     (fun now : Z =>
                      bind (pageUrl drv page)
                        (fun current : jsstring =>
                         bind (getSessions (W:=W))
                           (fun m : SessionMap =>
                            bind
                              (putSessions
                                 (SMap.set id
                                    {|
                                      page := page;
                                      context := context;
                                      siteMap := sm;
                                      lastActivity := now;
                                      currentUrl := current
                                    |} m))
                              (fun _ : unit =>
                               bind (dateNow drv) (fun _ : Z => ret true)))))))))) ->
  exists r st' mid,
    k st = (r, st') /\ passes st mid /\ frame mid st' /\
    detached st' = detached mid /\
    match r with
    | Ok ok => ok = true /\
               exists new, siteMap new = sm /\
                           sessions st' = SMap.set id new (sessions mid)
    | Throw => sessions st' = sessions mid
    end.
Proof.
  intros ->.
  unfold newContext. awaited CNewContext (drv_newContext drv) st ctx s1 P1.
  unfold newPage. awaited (CNewPage ctx) (drv_newPage drv ctx) s1 pg s2 P2.
  unfold goto.
  match goal with
  | |- context [invoke (CGoto ?p ?t ?n) ?op] => awaited (CGoto p t n) op s2 u1 s3 P3
  end.
  unfold waitForTimeout.
  match goal with
  | |- context [await drv (invoke (CWaitForTimeout ?p ?n) ?op)] =>
    awaited (CWaitForTimeout p n) op s3 u2 s4 P4
  end.
  assert (Pm : passes st s4) by eauto using passes_trans.
  unfold bind, dateNow, pageUrl, invoke, total, getSessions, putSessions, ret,
    with_sessions.
  destruct (drv_now drv (world s4)) as [t w]. cbn.
  destruct (drv_url drv pg w) as [u w']. cbn.
  destruct (drv_now drv w') as [t' w'']. cbn.
  eexists (Ok true), _, s4. split; [reflexivity|]. split; [exact Pm|]. cbn.
  split; [repeat split; eexists; reflexivity|]. split; [reflexivity|].
  split; [reflexivity|]. eexists. (split; [|reflexivity]); reflexivity.
Qed.

(** [prepareSession] on a ready manager, step by step: the session of
    the id closed ([st1]), the limit checked and the close of the oldest
    session detached ([st2]), the new session opened while pending calls
    take turns ([mid]) and stored ([st3]). *)
Lemma prepareSession_anatomy id sm (st : State W) b :
  isReady st = true -> browser st = Some b ->
  exists st1 st2 ok st3 mid,
    sessions st1 = SMap.delete id (sessions st) /\
    detached st1 = detached st /\
    frame st st1 /\
    (forall s, SMap.get id (sessions st) = Some s ->
               exists c evs, log st1 = log st ++ (CPageClose (page s), c) :: evs) /\
    (SMap.get id (sessions st) = None -> log st1 = log st) /\
    (if MAX_SESSIONS <=? SMap.size (sessions st1)
     then evictOldestSession drv else ret tt) st1 = (Ok tt, st2) /\
    prepareSession drv id sm st = (Ok ok, st3) /\
    passes st2 mid /\ frame mid st3 /\ detached st3 = detached mid /\
    if ok
    then exists new, siteMap new = sm /\ sessions st3 = SMap.set id new (sessions mid)
    else sessions st3 = sessions mid.
Proof.
  intros Hr Hb. unfold prepareSession.
  unfold ready at 1. unfold bind at 1. rewrite Hr, Hb. cbn [andb negb].
  destruct (dateNow_frame drv st) as [t0 [st0 [E0 [S0 F0]]]].
  pose proof (calm_dateNow st) as D0. rewrite E0 in D0. cbn [snd] in D0.
  assert (L0 : log st0 = log st).
  { revert E0. unfold dateNow. destruct (drv_now drv (world st)).
    intros E0. now inversion E0. }
  rewrite (bind_ok _ _ _ _ _ E0).
  unfold try_catch at 1.
  destruct (closeSession_spec drv id st0) as [st1 [E1 [S1 [F1 L1]]]].
  pose proof (calm_closeSession id st0) as D1. rewrite E1 in D1. cbn [snd] in D1.
  rewrite (bind_ok _ _ _ _ _ E1).
  unfold getSessions at 1. unfold bind at 1.
  assert (EV : exists st2,
             (if MAX_SESSIONS <=? SMap.size (sessions st1)
              then evictOldestSession drv else ret tt) st1 = (Ok tt, st2)).
  { destruct (MAX_SESSIONS <=? SMap.size (sessions st1)).
    - destruct (evictOldestSession_spec st1) as [st2 [E2 _]]. now exists st2.
    - now exists st1. }
  destruct EV as [st2 E2].
  rewrite (bind_ok _ _ _ _ _ E2).
  destruct (openSession_spec id sm _ st2 eq_refl) as [r [st3 [mid [E3 [P3 [F3 [D3 R3]]]]]]].
  rewrite E3.
  assert (Own : forall s, SMap.get id (sessions st) = Some s ->
                          exists c evs, log st1 = log st ++ (CPageClose (page s), c) :: evs).
  { intros s G. rewrite <- S0 in G. destruct (L1 s G) as [c [evs EL]].
    exists c, evs. now rewrite EL, L0. }
  assert (Abs : SMap.get id (sessions st) = None -> log st1 = log st).
  { intros G. rewrite <- S0 in G. revert E1.
    unfold closeSession, bind, getSessions. rewrite G. unfold ret.
    intros E1. injection E1 as <-. exact L0. }
  exists st1, st2.
  destruct r as [ok|].
  - destruct R3 as [-> [new [Hn Hs]]]. exists true, st3, mid.
    split; [congruence|]. split; [congruence|].
    split; [apply (frame_trans _ _ _ F0 F1)|].
    split; [exact Own|]. split; [exact Abs|]. split; [exact E2|].
    split; [reflexivity|]. split; [exact P3|]. split; [exact F3|].
    split; [exact D3|]. now exists new.
  - exists false, st3, mid. unfold ret.
    split; [congruence|]. split; [congruence|].
    split; [apply (frame_trans _ _ _ F0 F1)|].
    split; [exact Own|]. split; [exact Abs|]. split; [exact E2|].
    split; [reflexivity|]. split; [exact P3|]. split; [exact F3|].
    split; [exact D3 | exact R3].
Qed.

(** What [prepareSession] leaves on a ready manager, whatever is pending:
    the session of the id is closed and deleted, pending calls may have
    deleted their keys, and the new session, if it could be opened, is
    stored under the id. *)
Lemma prepareSession_spec id sm (st : State W) b :
  isReady st = true -> browser st = Some b ->
  exists ok st',
    prepareSession drv id sm st = (Ok ok, st') /\
    frame st st' /\
    (exists ks,
        if ok
        then exists new,
            siteMap new = sm /\
            sessions st' = SMap.set id new (deleteAll ks (SMap.delete id (sessions st)))
        else sessions st' = deleteAll ks (SMap.delete id (sessions st))) /\
    (forall s, SMap.get id (sessions st) = Some s ->
               logged st st' (CPageClose (page s))).
Proof.
  intros Hr Hb.
  destruct (prepareSession_anatomy id sm st b Hr Hb)
    as [st1 [st2 [ok [st3 [mid [S1 [D1 [F1 [Own [_ [E2 [E [P [F3 [D3 R]]]]]]]]]]]]]]].
  assert (S2 : sessions st2 = sessions st1 /\ frame st1 st2).
  { destruct (MAX_SESSIONS <=? SMap.size (sessions st1)).
    - destruct (evictOldestSession_spec st1) as [st2' [E2' [S2 [F2 _]]]].
      rewrite E2 in E2'. inversion E2'. subst st2'. now split.
    - unfold ret in E2. inversion E2. subst st2. split; [reflexivity | apply frame_refl]. }
  destruct S2 as [S2 F2].
  assert (F : frame st st3).
  { apply (frame_trans _ _ _ F1). apply (frame_trans _ _ _ F2).
    apply (frame_trans _ _ _ (passes_frame _ _ P) F3). }
  pose proof P as Pm.
  destruct P as [_ [done [_ Sm]]]. rewrite S2, S1 in Sm.
  exists ok, st3. split; [exact E|]. split; [exact F|]. split.
  - exists done. destruct ok.
    + destruct R as [new [Hn Hs]]. exists new. split; [exact Hn|]. now rewrite Hs, Sm.
    + now rewrite R, Sm.
  - intros s G. destruct (Own s G) as [c [evs EL]].
    assert (F13 : frame st1 st3).
    { apply (frame_trans _ _ _ F2).
      apply (frame_trans _ _ _ (passes_frame _ _ Pm) F3). }
    destruct F13 as [_ [_ [evs' EL']]].
    exists (((CPageClose (page s), c) :: evs) ++ evs'), c.
    split; [now rewrite EL', EL, <- app_assoc | now left].
Qed.

End PrepareAnatomy.

Section QuietFacts.

Context {W : Type} (drv : Driver W) (lower : jsstring -> jsstring).

Lemma prepareSession_unready id sm st :
  isReady st = false \/ browser st = None ->
  prepareSession drv id sm st = (Ok false, st).
Proof.
  intros H. unfold prepareSession, ready, bind, ret.
  destruct H as [-> | ->]; [reflexivity|]. now rewrite andb_false_r.
Qed.

Lemma quiet_ret {A} (a : A) : quiet (W:=W) (ret a).
Proof. intros st. split; [reflexivity | apply frame_refl]. Qed.

Lemma quiet_lift {A} (r : Exc A) : quiet (W:=W) (lift r).
Proof. intros st. split; [reflexivity | apply frame_refl]. Qed.

Lemma quiet_bind {A B} (m : M W A) (k : A -> M W B) :
  quiet m -> (forall a, quiet (k a)) -> quiet (bind m k).
Proof.
  intros Hm Hk st. unfold bind. specialize (Hm st).
  destruct (m st) as [[a|] st1]; simpl in Hm; [|exact Hm].
  destruct Hm as [S1 F1]. destruct (Hk a st1) as [S2 F2].
  split; [congruence | eauto using frame_trans].
Qed.

Lemma quiet_try_catch {A} (m h : M W A) :
  quiet m -> quiet h -> quiet (try_catch m h).
Proof.
  intros Hm Hh st. unfold try_catch. specialize (Hm st).
  destruct (m st) as [[a|] st1]; simpl in Hm; [exact Hm|].
  destruct Hm as [S1 F1]. destruct (Hh st1) as [S2 F2].
  split; [congruence | eauto using frame_trans].
Qed.

Lemma quiet_invoke {A} c (op : W -> Exc A * W) : quiet (invoke c op).
Proof. intros st. apply invoke_frame. Qed.

Lemma quiet_dateNow : quiet (dateNow drv).
Proof.
  intros st. destruct (dateNow_frame drv st) as [t [st' [E [S F]]]].
  now rewrite E.
Qed.

Ltac quiet_step :=
  first
    [ apply quiet_ret | apply quiet_lift | apply quiet_dateNow
    | apply quiet_invoke | apply quiet_try_catch | apply quiet_bind
    | progress intros
    | match goal with
      | |- quiet (if ?b then _ else _) => destruct b
      | |- quiet (match ?x with Some _ => _ | None => _ end) => destruct x
      end ].

Lemma quiet_quickObserve p : quiet (quickObserve drv p).
Proof. unfold quickObserve, evaluateObserve. repeat quiet_step. Qed.

Lemma quiet_trySelectors p field v sels : quiet (trySelectors drv p field v sels).
Proof.
  induction sels as [|sel rest IH]; simpl; [apply quiet_ret|].
  unfold query, selectOption, fill. repeat quiet_step; assumption.
Qed.

Lemma quiet_fillFields p flds data : forall actions,
  quiet (fillFields drv lower p flds data actions).
Proof.
  induction flds as [|field rest IH]; intros actions; simpl; [apply quiet_ret|].
  apply quiet_bind; [apply quiet_lift|]. intros value.
  apply quiet_bind; [|intros; apply IH].
  destruct (truthy_opt value); [|apply quiet_ret].
  apply quiet_try_catch; [|apply quiet_ret].
  apply quiet_bind; [apply quiet_trySelectors|].
  intros []; apply quiet_ret.
Qed.

Lemma quiet_fillForm p form data : quiet (fillForm drv lower p form data).
Proof.
  unfold fillForm. apply quiet_bind; [apply quiet_fillFields|]. intros actions.
  apply quiet_bind.
  - destruct (_ && _); [|apply quiet_ret].
    unfold pageClick, waitForTimeout. repeat quiet_step.
  - intros. apply quiet_bind; [apply quiet_quickObserve | intros; apply quiet_ret].
Qed.

Lemma quiet_byText p t mk : quiet (byText drv p t mk).
Proof. unfold byText, pageClick. repeat quiet_step. Qed.

Lemma quiet_tryStrategies p t l :
  Forall quiet l -> quiet (tryStrategies drv p t l).
Proof.
  induction 1 as [|strategy rest Hs _ IH]; simpl; [apply quiet_ret|].
  apply quiet_bind.
  - apply quiet_try_catch; [|apply quiet_ret].
    apply quiet_bind; [assumption|]. intros _.
    apply quiet_bind; [apply quiet_invoke|]. intros _.
    apply quiet_bind; [apply quiet_quickObserve | intros; apply quiet_ret].
  - intros [result|]; [apply quiet_ret | assumption].
Qed.

Lemma quiet_clickButton p sel t : quiet (clickButton drv p sel t).
Proof.
  unfold clickButton. apply quiet_try_catch; [|apply quiet_ret].
  apply quiet_tryStrategies. unfold strategies.
  apply Forall_cons; [apply quiet_invoke|].
  repeat (apply Forall_cons; [apply quiet_byText|]). apply Forall_nil.
Qed.

Lemma quiet_runAction session action : quiet (runAction drv lower session action).
Proof.
  destruct action; simpl.
  - apply quiet_fillForm.
  - apply quiet_clickButton.
  - apply quiet_ret.
  - unfold getContactInfo, evaluateInnerText. repeat quiet_step.
  - unfold navigateTo, goto, waitForTimeout.
    apply quiet_try_catch; [|apply quiet_ret].
    repeat (apply quiet_bind; [apply quiet_invoke | intros]).
    apply quiet_bind; [apply quiet_quickObserve | intros; apply quiet_ret].
  - unfold observeCurrentState.
    apply quiet_bind; [apply quiet_quickObserve | intros; apply quiet_ret].
Qed.

End QuietFacts.

(* ------------------------------------------------------------------ *)
(** ** The capacity of the store *)


Lemma distinct_NoDup l : distinct l = true -> NoDup l.
Proof.
  induction l as [|x l IH]; simpl; [constructor|].
  rewrite andb_true_iff, negb_true_iff. intros [H1 H2].
  constructor; [|now apply IH].
  intros Hin. unfold arr_includes in H1.
  assert (E : existsb (jseqb x) l = true).
  { apply existsb_exists. exists x. split; [assumption | apply jseqb_refl]. }
  congruence.
Qed.

Lemma get_split k s m1 m2 :
  ~ In k (SMap.keys m1) -> SMap.get k (m1 ++ (k, s) :: m2) = Some s.
Proof.
  induction m1 as [|[k0 v] m1 IH]; simpl; intros H.
  - now rewrite jseqb_refl.
  - destruct (jseqb k k0) eqn:E.
    + apply jseqb_eq in E. subst. tauto.
    + apply IH. tauto.
Qed.

Lemma NoDup_split k s m1 m2 :
  NoDup (SMap.keys (m1 ++ (k, s) :: m2)) ->
  ~ In k (SMap.keys m1) /\ ~ In k (SMap.keys (m1 ++ m2)).
Proof.
  unfold SMap.keys. rewrite !map_app. simpl. intros H.
  apply NoDup_remove_2 in H. split; [|assumption].
  intros Hin. apply H. apply in_or_app. now left.
Qed.

Lemma afterEvict_size id m :
  SMap.size m <= MAX_SESSIONS -> SMap.size (afterEvict id m) < MAX_SESSIONS.
Proof.
  intros H. unfold afterEvict. cbv zeta.
  pose proof (size_delete_le id m) as D.
  destruct (MAX_SESSIONS <=? SMap.size (SMap.delete id m)) eqn:E.
  - apply Nat.leb_le in E.
    destruct (SMap.delete id m) as [|e m1] eqn:Em; [simpl in E; unfold MAX_SESSIONS in E; lia|].
    destruct (scanOldest_first (e :: m1)) as [k [s [l1 [l2 [Sc [Sp _]]]]]];
      [discriminate|].
    rewrite Sc.
    assert (P : SMap.get k (e :: m1) <> None).
    { apply (In_get k s). rewrite Sp. apply in_or_app. right. now left. }
    pose proof (size_delete_present k (e :: m1) P). lia.
  - apply Nat.leb_gt in E. lia.
Qed.

Section CapacityFacts.

Context {W : Type} (drv : Driver W) (lower : jsstring -> jsstring).

Ltac calm_step :=
  first
    [ apply calm_ret | apply calm_lift | apply calm_dateNow
    | apply calm_invoke | apply calm_try_catch | apply calm_bind
    | progress intros
    | match goal with
      | |- calm (if ?b then _ else _) => destruct b
      | |- calm (match ?x with Some _ => _ | None => _ end) => destruct x
      end ].

Lemma calm_quickObserve p : calm (quickObserve drv p).
Proof. unfold quickObserve, evaluateObserve. repeat calm_step. Qed.

Lemma calm_trySelectors p field v sels : calm (trySelectors drv p field v sels).
Proof.
  induction sels as [|sel rest IH]; simpl; [apply calm_ret|].
  unfold query, selectOption, fill. repeat calm_step; assumption.
Qed.

Lemma calm_fillFields p flds data : forall actions,
  calm (fillFields drv lower p flds data actions).
Proof.
  induction flds as [|field rest IH]; intros actions; simpl; [apply calm_ret|].
  apply calm_bind; [apply calm_lift|]. intros value.
  apply calm_bind; [|intros; apply IH].
  destruct (truthy_opt value); [|apply calm_ret].
  apply calm_try_catch; [|apply calm_ret].
  apply calm_bind; [apply calm_trySelectors|].
  intros []; apply calm_ret.
Qed.

Lemma calm_fillForm p form data : calm (fillForm drv lower p form data).
Proof.
  unfold fillForm. apply calm_bind; [apply calm_fillFields|]. intros actions.
  apply calm_bind.
  - destruct (_ && _); [|apply calm_ret].
    unfold pageClick, waitForTimeout. repeat calm_step.
  - intros. apply calm_bind; [apply calm_quickObserve | intros; apply calm_ret].
Qed.

Lemma calm_byText p t mk : calm (byText drv p t mk).
Proof. unfold byText, pageClick. repeat calm_step. Qed.

Lemma calm_tryStrategies p t l :
  Forall calm l -> calm (tryStrategies drv p t l).
Proof.
  induction 1 as [|strategy rest Hs _ IH]; simpl; [apply calm_ret|].
  apply calm_bind.
  - apply calm_try_catch; [|apply calm_ret].
    apply calm_bind; [assumption|]. intros _.
    apply calm_bind; [apply calm_invoke|]. intros _.
    apply calm_bind; [apply calm_quickObserve | intros; apply calm_ret].
  - intros [result|]; [apply calm_ret | assumption].
Qed.

Lemma calm_clickButton p sel t : calm (clickButton drv p sel t).
Proof.
  unfold clickButton. apply calm_try_catch; [|apply calm_ret].
  apply calm_tryStrategies. unfold strategies.
  apply Forall_cons; [apply calm_invoke|].
  repeat (apply Forall_cons; [apply calm_byText|]). apply Forall_nil.
Qed.

Lemma calm_runAction session action : calm (runAction drv lower session action).
Proof.
  destruct action; simpl.
  - apply calm_fillForm.
  - apply calm_clickButton.
  - apply calm_ret.
  - unfold getContactInfo, evaluateInnerText. repeat calm_step.
  - unfold navigateTo, goto, waitForTimeout.
    apply calm_try_catch; [|apply calm_ret].
    repeat (apply calm_bind; [apply calm_invoke | intros]).
    apply calm_bind; [apply calm_quickObserve | intros; apply calm_ret].
  - unfold observeCurrentState.
    apply calm_bind; [apply calm_quickObserve | intros; apply calm_ret].
Qed.

(** *** The store settles *)

Lemma atRest_rest (st : State W) : detached st = [] -> atRest st = sessions st.
Proof. unfold atRest. now intros ->. Qed.

Lemma Settles_rest (st : State W) : Inv st -> detached st = [] -> Settles st.
Proof.
  intros [L N] D. unfold Settles. rewrite (atRest_rest st D).
  split; [exact L|]. split; [exact N | lia].
Qed.

Lemma Settles_Inv (st : State W) : Settles st -> detached st = [] -> Inv st.
Proof.
  intros [L [N _]] D. rewrite (atRest_rest st D) in L. now split.
Qed.

Lemma Settles_same (st st' : State W) :
  sessions st' = sessions st -> detached st' = detached st ->
  Settles st -> Settles st'.
Proof. unfold Settles, atRest. now intros -> ->. Qed.

Lemma Settles_passes (st st' : State W) : passes st st' -> Settles st -> Settles st'.
Proof.
  intros P [L [N C]]. unfold Settles. rewrite (passes_atRest _ _ P).
  destruct P as [_ [done [_ S]]]. rewrite S.
  split; [exact L|]. split; [now apply NoDup_deleteAll|].
  pose proof (size_deleteAll_le done (sessions st)). lia.
Qed.

Lemma settles_bind_r {A B} (m : M W A) (k : A -> M W B) :
  settles m -> (forall a, quiet (k a)) -> (forall a, calm (k a)) ->
  settles (bind m k).
Proof.
  intros Hm Q C st I D. unfold bind. specialize (Hm st I D).
  destruct (m st) as [[a|] st1]; cbn [snd] in *; [|exact Hm].
  destruct (Q a st1) as [S _].
  apply (Settles_same st1); [exact S | apply C | exact Hm].
Qed.

Lemma settles_try_catch_l {A} (m h : M W A) :
  quiet m -> calm m -> settles h -> settles (try_catch m h).
Proof.
  intros Q C Hh st I D. unfold try_catch.
  pose proof (Q st) as [S _]. pose proof (C st) as D1.
  destruct (m st) as [[a|] st1]; cbn [snd] in *.
  - apply (Settles_same st); [exact S | exact D1 | now apply Settles_rest].
  - apply Hh; [unfold Inv; now rewrite S | congruence].
Qed.

Lemma settles_try_catch_r {A} (m h : M W A) :
  settles m -> quiet h -> calm h -> settles (try_catch m h).
Proof.
  intros Hm Q C st I D. unfold try_catch. specialize (Hm st I D).
  destruct (m st) as [[a|] st1]; cbn [snd] in *; [exact Hm|].
  destruct (Q st1) as [S _].
  apply (Settles_same st1); [exact S | apply C | exact Hm].
Qed.

(** The limit check of [prepareSession], made with nothing pending: the
    store is left as it is, and what is pending afterwards is the close of
    the oldest session, if the limit was reached. *)
Lemma limit_check_spec id m (st1 st2 : State W) :
  sessions st1 = SMap.delete id m -> detached st1 = [] ->
  (if MAX_SESSIONS <=? SMap.size (sessions st1)
   then evictOldestSession drv else ret tt) st1 = (Ok tt, st2) ->
  sessions st2 = sessions st1 /\ frame st1 st2 /\
  atRest st2 = afterEvict id m /\
  incl (map owes (detached st2)) (SMap.keys (sessions st1)).
Proof.
  intros S1 D1 E. unfold afterEvict. cbv zeta. rewrite <- S1.
  destruct (MAX_SESSIONS <=? SMap.size (sessions st1)).
  - destruct (evictOldestSession_spec drv st1) as [st2' [E' [S2 [F2 R]]]].
    rewrite E in E'. injection E' as <-.
    split; [exact S2|]. split; [exact F2|].
    destruct (scanOldest (sessions st1) None) as [[k t]|].
    + destruct (SMap.get k (sessions st1)) as [s|] eqn:G.
      * destruct R as [c [D2 _]]. unfold atRest. rewrite D2, D1, S2. cbn.
        split; [reflexivity|]. intros k' [<-|[]].
        apply get_In in G. apply (in_map fst) in G. exact G.
      * subst st2. unfold atRest. rewrite D1. cbn.
        split; [now rewrite (delete_absent _ _ G) | intros k' []].
    + subst st2. unfold atRest. rewrite D1. cbn. split; [reflexivity | intros k' []].
  - unfold ret in E. injection E as <-.
    split; [reflexivity|]. split; [apply frame_refl|].
    unfold atRest. rewrite D1. cbn. split; [reflexivity | intros k' []].
Qed.


Lemma passes_rest (st st' : State W) :
  detached st = [] -> passes st st' ->
  detached st' = [] /\ sessions st' = sessions st.
Proof.
  intros D [_ [done [P S]]]. rewrite D in P. cbn in P.
  apply Permutation_nil in P. apply app_eq_nil in P. destruct P as [-> P].
  apply map_eq_nil in P. now split.
Qed.

(** Once nothing is pending the store is the one that was to be. *)
Lemma turns_drained order (st : State W) :
  detached (snd (turns drv order st)) = [] ->
  sessions (snd (turns drv order st)) = atRest st.
Proof.
  destruct (turns_spec drv order st) as [st' [E [P _]]]. rewrite E. cbn [snd].
  intros D. rewrite <- (passes_atRest _ _ P). now rewrite atRest_rest.
Qed.

Lemma settles_prepareSession id sm : settles (prepareSession drv id sm).
Proof.
  intros st [L N] D.
  destruct (isReady st) eqn:Hr;
    [destruct (browser st) as [b|] eqn:Hb|].
  - destruct (prepareSession_anatomy drv id sm st b Hr Hb)
      as [st1 [st2 [ok [st3 [mid [S1 [D1 [_ [_ [_ [E2 [E [P [_ [D3 R]]]]]]]]]]]]]]].
    rewrite E. cbn [snd]. rewrite D in D1.
    destruct (limit_check_spec id _ st1 st2 S1 D1 E2) as [S2 [_ [A2 I2]]].
    pose proof (afterEvict_size id _ L) as Sz.
    assert (Nid : ~ In id (map owes (detached mid))).
    { intros Hin. apply (passes_owes _ _ P) in Hin. apply I2 in Hin.
      rewrite S1 in Hin. pose proof (get_delete_same id _ N) as G.
      now apply get_keys in G. }
    pose proof (passes_atRest _ _ P) as Am. rewrite A2 in Am.
    destruct P as [_ [done [_ Sm]]]. rewrite S2, S1 in Sm.
    assert (Nm : NoDup (SMap.keys (sessions mid))).
    { rewrite Sm. now apply NoDup_deleteAll, NoDup_delete. }
    assert (Lm : SMap.size (sessions mid) <= MAX_SESSIONS).
    { rewrite Sm. pose proof (size_deleteAll_le done (SMap.delete id (sessions st))).
      pose proof (size_delete_le id (sessions st)). lia. }
    unfold Settles, atRest. rewrite D3. destruct ok.
    + destruct R as [new [_ ->]]. rewrite (deleteAll_set _ _ _ _ Nid).
      fold (atRest mid). rewrite Am.
      pose proof (size_set_le id new (afterEvict id (sessions st))).
      pose proof (size_set_le id new (sessions mid)).
      split; [lia|]. split; [now apply NoDup_set | lia].
    + rewrite R. fold (atRest mid). rewrite Am.
      split; [lia|]. split; [exact Nm | lia].
  - rewrite prepareSession_unready; [|now right]. now apply Settles_rest.
  - rewrite prepareSession_unready; [|now left]. now apply Settles_rest.
Qed.

Lemma settles_closeSession id : settles (closeSession drv id).
Proof.
  intros st [L N] D. destruct (closeSession_spec drv id st) as [st' [E [S _]]].
  pose proof (calm_closeSession drv id st) as D'. rewrite E in *. cbn [snd] in *.
  apply Settles_rest; [|congruence]. unfold Inv. rewrite S. split.
  - pose proof (size_delete_le id (sessions st)). lia.
  - now apply NoDup_delete.
Qed.

Lemma settles_cleanupSessions : settles (cleanupSessions drv).
Proof.
  intros st [L N] D. destruct (cleanupSessions_spec drv st) as [st' [E [S _]]].
  rewrite E. cbn [snd]. unfold Settles, atRest. rewrite S.
  pose proof (size_deleteAll_le (map owes (detached st')) (sessions st)).
  split; [lia|]. split; [exact N | lia].
Qed.

Lemma settles_start : settles (start drv).
Proof.
  intros st I D. unfold start, bind, invoke.
  destruct (drv_launch drv (world st)) as [[b|] w]; now apply Settles_rest.
Qed.

Lemma calm_touch id session t : calm (W:=W) (touch id session t).
Proof. intros st. reflexivity. Qed.

Lemma settles_execute request : settles (execute drv lower request).
Proof.
  intros st I D. unfold execute. unfold bind at 1, getSessions at 1.
  destruct (SMap.get (req_site_id request) (sessions st)) as [session|] eqn:G;
    [|now apply Settles_rest].
  destruct (dateNow_frame drv st) as [t0 [st0 [E0 [S0 _]]]].
  pose proof (calm_dateNow drv st) as D0. rewrite E0 in D0. cbn [snd] in D0.
  rewrite (bind_ok _ _ _ _ _ E0).
  destruct (dateNow_frame drv st0) as [t1 [st1 [E1 [S1 _]]]].
  pose proof (calm_dateNow drv st0) as D1. rewrite E1 in D1. cbn [snd] in D1.
  rewrite (bind_ok _ _ _ _ _ E1).
  unfold touch at 1. unfold bind at 1, getSessions at 1.
  unfold bind at 1, putSessions at 1.
  match goal with |- Settles (snd (?m ?s)) => assert (B : settles m); [|apply B] end.
  - apply settles_try_catch_r; [|apply quiet_ret|apply calm_ret].
    apply settles_bind_r.
    + apply settles_try_catch_l.
      * unfold evaluateProbe. apply quiet_bind; [apply quiet_invoke|intros; apply quiet_ret].
      * unfold evaluateProbe. apply calm_bind; [apply calm_invoke|intros; apply calm_ret].
      * apply settles_bind_r; [apply settles_prepareSession| |].
        -- intros _. apply quiet_bind; [|intros m; destruct (SMap.get _ m); apply quiet_ret].
           intros s. split; [reflexivity | apply frame_refl].
        -- intros _. apply calm_bind; [apply calm_getSessions|].
           intros m; destruct (SMap.get _ m); apply calm_ret.
    + intros [result|]; [apply quiet_ret|].
      apply quiet_bind; [apply quiet_runAction|].
      intros. apply quiet_bind; [apply quiet_dateNow | intros; apply quiet_ret].
    + intros [result|]; [apply calm_ret|].
      apply calm_bind; [apply calm_runAction|].
      intros. apply calm_bind; [apply calm_dateNow | intros; apply calm_ret].
  - destruct I as [L N]. unfold Inv, with_sessions. simpl. rewrite S1, S0. split.
    + rewrite size_set_present; [assumption | congruence].
    + now apply NoDup_set.
  - unfold with_sessions. simpl. congruence.
Qed.

Lemma Settles_step op (st : State W) :
  Inv st -> detached st = [] -> Settles (step drv lower op st).
Proof.
  destruct op; cbn [step].
  - apply settles_start.
  - apply settles_prepareSession.
  - apply settles_execute.
  - apply settles_closeSession.
  - apply settles_cleanupSessions.
Qed.

Lemma observable_Settles (st : State W) : observable drv lower st -> Settles st.
Proof.
  induction 1 as [w|op st _ IH D|i st _ IH].
  - apply Settles_rest; [|reflexivity].
    split; [cbn; unfold MAX_SESSIONS; lia | constructor].
  - apply Settles_step; [now apply Settles_Inv | exact D].
  - destruct (advance_spec drv i st) as [st' [E [P _]]]. rewrite E. cbn [snd].
    now apply (Settles_passes st).
Qed.

End CapacityFacts.

(** *** prepareSession at the limit *)

Section PrepareFacts.

Context {W : Type} (drv : Driver W).

Lemma prepare_at_capacity st id sm b :
  isReady st = true -> browser st = Some b ->
  NoDup (SMap.keys (sessions st)) ->
  detached st = [] ->
  MAX_SESSIONS <= SMap.size (sessions st) ->
  SMap.get id (sessions st) = None ->
  evictsFirstOldest drv st id sm.
Proof.
  intros Hr Hb N D C G.
  destruct (prepareSession_anatomy drv id sm st b Hr Hb)
    as [st1 [st2 [ok [st3 [mid [S1 [D1 [_ [_ [L1 [E2 [E [P [F3 [D3 R]]]]]]]]]]]]]]].
  specialize (L1 G). rewrite (delete_absent _ _ G) in S1. rewrite D in D1.
  assert (Ne : sessions st <> []).
  { intros Em. rewrite Em in C. unfold MAX_SESSIONS in C. simpl in C. lia. }
  destruct (scanOldest_first (sessions st) Ne) as [k [s [m1 [m2 [Sc [Sp [H1 H2]]]]]]].
  pose proof N as N'. rewrite Sp in N'. destruct (NoDup_split _ _ _ _ N') as [N1 N2].
  assert (Gk : SMap.get k (sessions st) = Some s).
  { rewrite Sp. now apply get_split. }
  assert (Gid : SMap.get id (m1 ++ m2) = None).
  { apply get_keys. intros Hin. apply get_keys in G. apply G.
    rewrite Sp. unfold SMap.keys in *. rewrite map_app in *. simpl.
    apply in_app_or in Hin. apply in_or_app. simpl. tauto. }
  assert (Kid : k <> id).
  { intros ->. rewrite Gk in G. discriminate. }
  (* the eviction *)
  apply Nat.leb_le in C. rewrite S1, C in E2.
  destruct (evictOldestSession_spec drv st1) as [st2' [E2' [S2 [_ R2]]]].
  rewrite E2 in E2'. injection E2' as <-.
  rewrite S1, Sc, Gk in R2. destruct R2 as [c [D2 L2]]. rewrite D1 in D2. cbn in D2.
  (* the awaits *)
  pose proof (passes_frame _ _ P) as [_ [_ [e1 Lm]]].
  destruct F3 as [_ [_ [e2 L3]]].
  destruct P as [_ [done [Pm Sm]]]. rewrite D2 in Pm. cbn in Pm.
  apply Permutation_length_1_inv in Pm. rewrite S2, S1 in Sm.
  set (settled := if ok then (m1 ++ m2) ++
                    match SMap.get id (sessions st3) with
                    | Some new => [(id, new)] | None => [] end
                  else m1 ++ m2).
  assert (Hset : if ok
                 then exists new, siteMap new = sm /\ settled = (m1 ++ m2) ++ [(id, new)]
                 else settled = m1 ++ m2).
  { subst settled. destruct ok; [|reflexivity].
    destruct R as [new [Hn Hs]]. exists new. split; [exact Hn|].
    now rewrite Hs, get_set_same. }
  assert (Rest : atRest st3 = settled).
  { unfold atRest. rewrite D3. subst settled.
    apply app_eq_unit in Pm. destruct Pm as [[-> Pm] | [-> Pm]].
    - rewrite Pm. cbn in Sm. cbn. destruct ok.
      + destruct R as [new [_ Hs]]. rewrite Hs, get_set_same, Sm.
        rewrite (delete_set_other _ _ _ _ Kid), Sp, (delete_split _ _ _ _ N1).
        now apply set_absent.
      + rewrite R, Sm, Sp. now apply delete_split.
    - rewrite Pm. cbn in Sm. cbn. destruct ok.
      + destruct R as [new [_ Hs]]. rewrite Hs, get_set_same, Sm.
        rewrite Sp, (delete_split _ _ _ _ N1). now apply set_absent.
      + rewrite R, Sm, Sp. now apply delete_split. }
  exists k, s, m1, m2, ok, st3, settled.
  split; [exact Sp|]. split; [exact H1|]. split; [exact H2|]. split; [exact E|].
  split.
  { exists c, (e1 ++ e2). now rewrite L3, Lm, L2, L1, <- !app_assoc. }
  split; [exact Hset|]. split.
  - apply app_eq_unit in Pm. destruct Pm as [[-> Pm] | [-> Pm]].
    + right. rewrite D3. split; [exact Pm|].
      unfold atRest in Rest. rewrite D3, Pm in Rest. cbn in Rest.
      split; [|exact Rest]. cbn in Sm.
      destruct ok.
      * destruct R as [new [_ Hs]]. rewrite Hs, Sm.
        rewrite (set_absent _ _ _ G), Sp, <- app_assoc. cbn.
        now apply get_split.
      * now rewrite R, Sm.
    + left. apply map_eq_nil in Pm. rewrite D3. split; [exact Pm|].
      unfold atRest in Rest. now rewrite D3, Pm in Rest.
  - split; [apply (turns_drain drv (length (detached st3)) st3); lia|].
    intros order Hd. rewrite <- Rest. now apply turns_drained.
Qed.

Lemma prepare_existing st id sm b s :
  isReady st = true -> browser st = Some b ->
  NoDup (SMap.keys (sessions st)) ->
  detached st = [] ->
  SMap.size (sessions st) <= MAX_SESSIONS ->
  SMap.get id (sessions st) = Some s ->
  replacesOwn drv st id sm s.
Proof.
  intros Hr Hb N D C G.
  destruct (prepareSession_anatomy drv id sm st b Hr Hb)
    as [st1 [st2 [ok [st3 [mid [S1 [D1 [_ [Own [_ [E2 [E [P [F3 [D3 R]]]]]]]]]]]]]]].
  rewrite D in D1.
  assert (Pn : SMap.get id (sessions st) <> None) by congruence.
  pose proof (size_delete_present id (sessions st) Pn) as Sz.
  assert (Cc : (MAX_SESSIONS <=? SMap.size (sessions st1)) = false).
  { apply Nat.leb_gt. rewrite S1. lia. }
  rewrite Cc in E2. unfold ret in E2. injection E2 as <-.
  pose proof (passes_frame _ _ P) as Fm.
  destruct (passes_rest _ _ D1 P) as [Dm Sm].
  exists ok, st3. split; [exact E|]. split.
  - destruct (Own s G) as [c [evs EL]].
    destruct (frame_trans _ _ _ Fm F3) as [_ [_ [evs' EL']]].
    exists (((CPageClose (page s), c) :: evs) ++ evs'), c.
    split; [now rewrite EL', EL, <- app_assoc | now left].
  - split; [congruence|]. destruct ok.
    + destruct R as [new [Hn Hs]]. exists new. split; [exact Hn|].
      rewrite Hs, Sm, S1. apply set_absent. now apply get_delete_same.
    + now rewrite R, Sm, S1.
Qed.

End PrepareFacts.

(** *** execute detaches nothing *)

Section RecoveryFacts.

Context {W : Type} (drv : Driver W) (lower : jsstring -> jsstring).

Lemma idle_bind_r id {A B} (m : M W A) (k : A -> M W B) :
  idle id m -> (forall a, calm (k a)) -> idle id (bind m k).
Proof.
  intros Hm Hk st I D G. unfold bind. specialize (Hm st I D G).
  destruct (m st) as [[a|] st1]; cbn [snd] in *; [|exact Hm].
  now rewrite (Hk a st1).
Qed.

Lemma idle_try_catch_l id {A} (m h : M W A) :
  quiet m -> calm m -> idle id h -> idle id (try_catch m h).
Proof.
  intros Q C Hh st I D G. unfold try_catch.
  pose proof (Q st) as [S _]. pose proof (C st) as D1.
  destruct (m st) as [[a|] st1]; cbn [snd] in *; [congruence|].
  apply Hh; [unfold Inv; now rewrite S | congruence | now rewrite S].
Qed.

Lemma idle_try_catch_r id {A} (m h : M W A) :
  idle id m -> calm h -> idle id (try_catch m h).
Proof.
  intros Hm Hh st I D G. unfold try_catch. specialize (Hm st I D G).
  destruct (m st) as [[a|] st1]; cbn [snd] in *; [exact Hm|].
  now rewrite (Hh st1).
Qed.

(** Recreating the session of an id that has one evicts nothing: the
    store is below its limit once the old session is deleted. *)
Lemma idle_prepareSession id sm : idle id (prepareSession drv id sm).
Proof.
  intros st [L N] D G.
  destruct (SMap.get id (sessions st)) as [s|] eqn:Gs; [clear G | now elim G].
  destruct (isReady st) eqn:Hr; [destruct (browser st) as [b|] eqn:Hb|].
  - destruct (prepare_existing drv st id sm b s Hr Hb N D L Gs)
      as [ok [st' [E [_ [D' _]]]]].
    now rewrite E.
  - rewrite prepareSession_unready; [exact D | now right].
  - rewrite prepareSession_unready; [exact D | now left].
Qed.

(** [execute], called with nothing pending on a store within its limit,
    returns with nothing pending: its awaits are reached with no detached
    call to resume. *)
Lemma execute_detaches_nothing request (st : State W) :
  Inv st -> detached st = [] ->
  detached (snd (execute drv lower request st)) = [].
Proof.
  intros I D. unfold execute. unfold bind at 1, getSessions at 1.
  destruct (SMap.get (req_site_id request) (sessions st)) as [session|] eqn:G;
    [|exact D].
  destruct (dateNow_frame drv st) as [t0 [st0 [E0 [S0 _]]]].
  pose proof (calm_dateNow drv st) as D0. rewrite E0 in D0. cbn [snd] in D0.
  rewrite (bind_ok _ _ _ _ _ E0).
  destruct (dateNow_frame drv st0) as [t1 [st1 [E1 [S1 _]]]].
  pose proof (calm_dateNow drv st0) as D1. rewrite E1 in D1. cbn [snd] in D1.
  rewrite (bind_ok _ _ _ _ _ E1).
  unfold touch at 1. unfold bind at 1, getSessions at 1.
  unfold bind at 1, putSessions at 1.
  match goal with
  | |- detached (snd (?m ?s)) = [] =>
    assert (B : idle (req_site_id request) m); [|apply B]
  end.
  - apply idle_try_catch_r; [|apply calm_ret].
    apply idle_bind_r.
    + apply idle_try_catch_l.
      * unfold evaluateProbe.
        apply quiet_bind; [apply quiet_invoke | intros; apply quiet_ret].
      * unfold evaluateProbe.
        apply calm_bind; [apply calm_invoke | intros; apply calm_ret].
      * apply idle_bind_r; [apply idle_prepareSession|].
        intros _. apply calm_bind; [apply calm_getSessions|].
        intros m; destruct (SMap.get _ m); apply calm_ret.
    + intros [result|]; [apply calm_ret|].
      apply calm_bind; [apply calm_runAction|].
      intros. apply calm_bind; [apply calm_dateNow | intros; apply calm_ret].
  - destruct I as [L N]. unfold Inv, with_sessions. simpl. rewrite S1, S0. split.
    + rewrite size_set_present; [assumption | congruence].
    + now apply NoDup_set.
  - unfold with_sessions. simpl. congruence.
  - unfold with_sessions. simpl. rewrite get_set_same. discriminate.
Qed.

End RecoveryFacts.

(** C1, as the specification states it, fails in two ways. When the id
    passed to [prepareSession] already has a session, its own entry is
    closed and replaced, the store is then below the limit, and the least
    recently active entry stays. And when the close of the evicted
    session has not come to its end by the time the new session is
    stored, the store holds one entry more than the limit. *)
Lemma store_limit_counterexamples :
  SMap.size (sessions Sim.full) = MAX_SESSIONS /\
  scanOldest (sessions Sim.full) None = Some (Sim.site 0, 2501%Z) /\
  ~ evictsOldest Sim.driver Sim.full (Sim.site 10) (Sim.siteMap_ex 10) /\
  SMap.size (sessions Slow.full) = MAX_SESSIONS /\
  ~ withinLimit
      (snd (prepareSession Sim.driver (Sim.site 77) (Sim.siteMap_ex 77) Slow.full)).
Proof.
  assert (E : scanOldest (sessions Sim.full) None = Some (Sim.site 0, 2501%Z))
    by (vm_compute; reflexivity).
  assert (G : SMap.get (Sim.site 0)
                (sessions (snd (prepareSession Sim.driver (Sim.site 10)
                                  (Sim.siteMap_ex 10) Sim.full))) <> None)
    by (vm_compute; discriminate).
  split; [vm_compute; reflexivity|]. split; [exact E|].
  split; [intros H; exact (G (H _ _ E))|].
  split; [vm_compute; reflexivity|].
  unfold withinLimit.
  assert (Sz : SMap.size
                 (sessions (snd (prepareSession Sim.driver (Sim.site 77)
                                   (Sim.siteMap_ex 77) Slow.full))) = 51)
    by (vm_compute; reflexivity).
  rewrite Sz. unfold MAX_SESSIONS. lia.
Qed.

(** The store that [prepareSession] leaves above the limit comes back to
    it when the pending close has had its two turns. *)
Lemma pending_eviction_lands :
  let st := snd (prepareSession Sim.driver (Sim.site 77) (Sim.siteMap_ex 77)
                   Slow.full) in
  map owes (detached st) = [Sim.site 0] /\
  detached (snd (turns Sim.driver [0; 0] st)) = [] /\
  SMap.size (sessions (snd (turns Sim.driver [0; 0] st))) = MAX_SESSIONS /\
  SMap.get (Sim.site 0) (sessions (snd (turns Sim.driver [0; 0] st))) = None.
Proof. vm_compute. repeat split. Qed.

(** A second [prepareSession] that is called while the close of the first
    eviction is pending picks the same entry again, and the store comes to
    rest one entry above the limit. *)
Lemma overlapping_evictions_leave_one_too_many :
  let st1 := snd (prepareSession Sim.driver (Sim.site 77) (Sim.siteMap_ex 77)
                    Slow.full) in
  let st2 := snd (prepareSession Sim.driver (Sim.site 78) (Sim.siteMap_ex 78) st1) in
  map owes (detached st2) = [Sim.site 0; Sim.site 0] /\
  detached (snd (turns Sim.driver [0; 0; 0; 0] st2)) = [] /\
  SMap.size (sessions (snd (turns Sim.driver [0; 0; 0; 0] st2))) = S MAX_SESSIONS.
Proof. vm_compute. repeat split. Qed.

(** C1 (amended): as long as every operation (start, prepareSession,
    execute, closeSession, cleanup) is called when no detached close is
    pending, the store holds at most MAX_SESSIONS (50) entries whenever
    nothing is pending, at most one more while a close is pending, and at
    most 50 once the pending closes are through; whenever prepareSession
    is called at the limit for an id that has no session, exactly one
    entry is evicted, namely the first entry in insertion order among
    those with the least lastActivity: the close of its page is the first
    call made, it is not awaited, and the entry leaves the store before
    or after the insertion, at the latest when the close has had its
    turns; when the id already has a session, that session is closed and
    replaced and no other entry leaves the store. *)
Theorem session_store_capacity :
  (forall W (drv : Driver W) lower (st : State W),
      observable drv lower st ->
      SMap.size (sessions st) <= S MAX_SESSIONS /\
      SMap.size (atRest st) <= MAX_SESSIONS /\
      (detached st = [] -> SMap.size (sessions st) <= MAX_SESSIONS)) /\
  (forall W (drv : Driver W) (st : State W) id sm b,
      isReady st = true -> browser st = Some b ->
      NoDup (SMap.keys (sessions st)) ->
      detached st = [] ->
      MAX_SESSIONS <= SMap.size (sessions st) ->
      SMap.get id (sessions st) = None ->
      evictsFirstOldest drv st id sm) /\
  (forall W (drv : Driver W) (st : State W) id sm b s,
      isReady st = true -> browser st = Some b ->
      NoDup (SMap.keys (sessions st)) ->
      detached st = [] ->
      SMap.size (sessions st) <= MAX_SESSIONS ->
      SMap.get id (sessions st) = Some s ->
      replacesOwn drv st id sm s).
Proof.
  split; [|split].
  - intros W drv lower st O.
    destruct (observable_Settles drv lower st O) as [A [_ C]].
    split; [exact C|]. split; [exact A|].
    intros D. rewrite <- (atRest_rest st D). exact A.
  - intros W drv. apply prepare_at_capacity.
  - intros W drv. apply prepare_existing.
Qed.

Lemma session_store_capacity_witness :
  evictsFirstOldest Sim.driver Sim.full (Sim.site 77) (Sim.siteMap_ex 77).
Proof.
  apply (proj1 (proj2 session_store_capacity) Sim.World Sim.driver Sim.full
             (Sim.site 77) (Sim.siteMap_ex 77) chromium);
    try (vm_compute; reflexivity).
  apply distinct_NoDup. vm_compute. reflexivity.
Defined.

(* ------------------------------------------------------------------ *)
(** ** execute without a session, prepareSession that fails *)


(** C7: [execute] for a site id with no session returns a failure with the
    no-session message, makes no driver call and leaves the manager, the
    store included, exactly as it was. *)
Theorem execute_unknown_site :
  forall W (drv : Driver W) lower request (st : State W),
    SMap.get (req_site_id request) (sessions st) = None ->
    execute drv lower request st =
    (Ok {| success := false; message := noSessionMessage; observation := None |},
     st).
Proof.
  intros W drv lower request st G. unfold execute, bind, getSessions.
  rewrite G. unfold ret, failure, noSessionMessage. reflexivity.
Qed.

Lemma execute_unknown_site_witness :
  execute Sim.driver Sim.lower
    {| req_site_id := js "unknown"; req_keywords := [js "цена"]; req_data := None |}
    Fixtures.one =
  (Ok {| success := false; message := noSessionMessage; observation := None |},
   Fixtures.one).
Proof.
  apply (execute_unknown_site Sim.World Sim.driver Sim.lower). reflexivity.
Defined.

(** C10: when an id has a session and [prepareSession] for it returns
    [false] on a ready manager (context creation, page creation, navigation
    or the settle wait threw), the old session's page has been asked to
    close and the store has no session for the id. *)
Theorem prepareSession_failure_drops_session :
  forall W (drv : Driver W) (st st' : State W) id sd b s,
    isReady st = true -> browser st = Some b ->
    NoDup (SMap.keys (sessions st)) ->
    SMap.get id (sessions st) = Some s ->
    prepareSession drv id sd st = (Ok false, st') ->
    SMap.get id (sessions st') = None /\
    logged st st' (CPageClose (page s)).
Proof.
  intros W drv st st' id sd b s Hr Hb N G E.
  destruct (prepareSession_spec drv id sd st b Hr Hb)
    as [ok [st1 [E1 [_ [[ks S] L]]]]].
  rewrite E in E1. inversion E1; subst ok st1.
  split; [|now apply L]. rewrite S.
  apply get_deleteAll_none. now apply get_delete_same.
Qed.

Lemma prepareSession_failure_drops_session_witness :
  SMap.get (Sim.site 0)
    (sessions (snd (prepareSession Sim.driver (Sim.site 0) Fixtures.siteMap_down
                      Fixtures.one))) = None /\
  logged Fixtures.one
    (snd (prepareSession Sim.driver (Sim.site 0) Fixtures.siteMap_down Fixtures.one))
    (CPageClose (page Fixtures.session0)).
Proof.
  apply (prepareSession_failure_drops_session Sim.World Sim.driver Fixtures.one _
           (Sim.site 0) Fixtures.siteMap_down chromium Fixtures.session0);
    try (vm_compute; reflexivity).
  apply distinct_NoDup. vm_compute. reflexivity.
Defined.

(* ------------------------------------------------------------------ *)
(** ** fillForm *)


Lemma resolveValue_data lower field d :
  exists v, resolveValue lower field (Some d) = Ok v.
Proof.
  unfold resolveValue, member.
  repeat match goal with
         | |- context [if ?b then _ else _] => destruct b
         end; eexists; reflexivity.
Qed.

Lemma resolveValue_vocabulary lower field d v :
  resolveValue lower field (Some d) = Ok (Some v) -> vocabularyValue lower field d v.
Proof.
  unfold resolveValue, member, vocabularyValue. cbv zeta.
  destruct (keywordsMeet PATTERNS.check_in _) eqn:K1;
  destruct (keywordsMeet PATTERNS.check_out _) eqn:K2;
  destruct (keywordsMeet PATTERNS.guests _) eqn:K3;
  destruct (check_in d) as [ci|] eqn:C1; simpl;
  try destruct (truthy ci) eqn:T1;
  destruct (check_out d) as [co|] eqn:C2; simpl;
  try destruct (truthy co) eqn:T2;
  destruct (guests d) as [g|] eqn:C3; simpl;
  try destruct (falsy_number g) eqn:T3; simpl;
  intros H; inversion H; subst;
  try (left; repeat split; assumption);
  try (right; left; repeat split; assumption);
  try (right; right; split; [reflexivity|]; exists g;
       unfold falsy_number in T3; apply orb_false_iff in T3;
       destruct T3 as [T0 Tn]; apply jseqb_neq in T0; apply jseqb_neq in Tn;
       repeat split; try reflexivity; assumption).
Qed.

Lemma writes_app evs1 evs2 : writes (evs1 ++ evs2) = writes evs1 ++ writes evs2.
Proof. unfold writes. apply flat_map_app. Qed.

Section FillFacts.

Context {W : Type} (drv : Driver W) (lower : jsstring -> jsstring).

Lemma selectorCall_tail page v sel sels ev :
  selectorCall page v sels ev -> selectorCall page v (sel :: sels) ev.
Proof. intros [s [Hin H]]. exists s. split; [now right | assumption]. Qed.

Ltac here sel := exists sel; split; [now left | simpl; tauto].

Lemma trySelectors_spec page field v : forall sels (st : State W),
  exists filled st' evs,
    trySelectors drv page field v sels st = (Ok filled, st') /\
    log st' = log st ++ evs /\
    Forall (selectorCall page v sels) evs /\
    if filled : bool
    then exists sel, In sel sels /\ writes evs = [(sel, v)]
    else writes evs = [].
Proof.
  induction sels as [|sel rest IH]; intros st.
  - exists false, st, []. simpl. unfold ret. rewrite app_nil_r. auto.
  - assert (Later : forall st1 evs1,
               log st1 = log st ++ evs1 -> writes evs1 = [] ->
               Forall (selectorCall page v (sel :: rest)) evs1 ->
               exists filled st' evs,
                 trySelectors drv page field v rest st1 = (Ok filled, st') /\
                 log st' = log st ++ evs /\
                 Forall (selectorCall page v (sel :: rest)) evs /\
                 if filled : bool
                 then exists s, In s (sel :: rest) /\ writes evs = [(s, v)]
                 else writes evs = []).
    { intros st1 evs1 L1 W1 F1.
      destruct (IH st1) as [filled [st' [evs [E [L [F Wr]]]]]].
      exists filled, st', (evs1 ++ evs). split; [assumption|].
      split; [now rewrite L, L1, app_assoc|].
      split.
      - apply Forall_app. split; [assumption|].
        eapply Forall_impl; [|exact F]. apply selectorCall_tail.
      - rewrite writes_app, W1. simpl. destruct filled; [|assumption].
        destruct Wr as [s [Hin Hw]]. exists s. split; [now right | assumption]. }
    simpl. unfold bind, try_catch, query, selectOption, fill, invoke, ret.
    destruct (drv_query drv page sel (world st)) as [[[]|] w1]; cbn.
    + destruct (FieldType_eqb (fld_type field) select); cbn.
      * destruct (drv_selectOption drv page sel v 2000 w1) as [[[]|] w2]; cbn.
        -- eexists true, _, _. split; [reflexivity|]. cbn.
           split; [rewrite <- app_assoc; reflexivity|].
           split; [repeat constructor; here sel|].
           exists sel. split; [now left | reflexivity].
        -- apply (Later _ [(CQuery page sel, true);
                           (CSelectOption page sel v 2000, false)]);
             [cbn; now rewrite <- app_assoc | reflexivity
             | repeat constructor; here sel].
      * destruct (drv_fill drv page sel v 2000 w1) as [[[]|] w2]; cbn.
        -- eexists true, _, _. split; [reflexivity|]. cbn.
           split; [rewrite <- app_assoc; reflexivity|].
           split; [repeat constructor; here sel|].
           exists sel. split; [now left | reflexivity].
        -- apply (Later _ [(CQuery page sel, true);
                           (CFill page sel v 2000, false)]);
             [cbn; now rewrite <- app_assoc | reflexivity
             | repeat constructor; here sel].
    + apply (Later _ [(CQuery page sel, true)]);
        [reflexivity | reflexivity | repeat constructor; here sel].
    + apply (Later _ [(CQuery page sel, false)]);
        [reflexivity | reflexivity | repeat constructor; here sel].
Qed.

Lemma fieldCall_of_selectorCall page form d field v ev :
  In field (fields form) ->
  resolveValue lower field (Some d) = Ok (Some v) ->
  selectorCall page v (fieldSelectors field) ev ->
  fieldCall lower page form (Some d) ev.
Proof.
  intros Hin Hr [sel [Hs H]]. exists field, v, sel. auto.
Qed.

Lemma fillFields_spec page form d : forall flds actions (st : State W),
  incl flds (fields form) ->
  exists entries st' evs,
    fillFields drv lower page flds (Some d) actions st =
      (Ok (actions ++ entries), st') /\
    log st' = log st ++ evs /\
    Forall (fieldCall lower page form (Some d)) evs /\
    Forall2 (entryOf lower form (Some d)) entries (writes evs).
Proof.
  induction flds as [|field rest IH]; intros actions st Hincl.
  - exists [], st, []. simpl. unfold ret. rewrite !app_nil_r.
    repeat split; constructor.
  - assert (Hfield : In field (fields form)) by (apply Hincl; now left).
    assert (Hrest : incl rest (fields form))
      by (intros x Hx; apply Hincl; now right).
    cbn [fillFields]. unfold bind at 1, lift.
    destruct (resolveValue_data lower field d) as [value Hv]. rewrite Hv.
    destruct value as [v|]; [destruct (truthy v) eqn:Tv|];
      cbn [truthy_opt]; rewrite ?Tv.
    + unfold bind at 1, try_catch, bind at 1.
      destruct (trySelectors_spec page field v (fieldSelectors field) st)
        as [filled [st1 [evs1 [E1 [L1 [F1 W1]]]]]].
      rewrite E1.
      assert (F1' : Forall (fieldCall lower page form (Some d)) evs1).
      { eapply Forall_impl; [|exact F1]. intros ev.
        now apply fieldCall_of_selectorCall. }
      destruct filled; unfold ret.
      * destruct W1 as [sel [Hsel Hw]].
        destruct (IH (actions ++ [fieldLabel field ++ js ": " ++ v]) st1 Hrest)
          as [entries [st' [evs [E [L [F Wr]]]]]].
        exists ((fieldLabel field ++ js ": " ++ v) :: entries), st', (evs1 ++ evs).
        rewrite E, <- app_assoc. split; [reflexivity|].
        split; [now rewrite L, L1, app_assoc|].
        split; [apply Forall_app; now split|].
        rewrite writes_app, Hw. simpl. constructor; [|assumption].
        exists field. simpl. auto.
      * destruct (IH actions st1 Hrest) as [entries [st' [evs [E [L [F Wr]]]]]].
        exists entries, st', (evs1 ++ evs). split; [assumption|].
        split; [now rewrite L, L1, app_assoc|].
        split; [apply Forall_app; now split|].
        now rewrite writes_app, W1.
    + unfold bind at 1, ret. apply IH. assumption.
    + unfold bind at 1, ret. apply IH. assumption.
Qed.

Lemma fieldCalls_not_submit page form data evs :
  Forall (fieldCall lower page form data) evs ->
  existsb (fun ev : Event =>
             match ev with (CClick _ _ _, true) => true | _ => false end) evs = false /\
  existsb (fun ev : Event =>
             match ev with (CWaitForTimeout _ _, true) => true | _ => false end) evs
  = false.
Proof.
  induction 1 as [|[c b] evs [field [v [sel [_ [_ [_ H]]]]]] _ [IH1 IH2]];
    [now split|].
  simpl in H. simpl. rewrite IH1, IH2.
  destruct H as [-> | [-> | ->]]; now destruct b.
Qed.

Lemma submitted_after_fields page form data evs tail :
  Forall (fieldCall lower page form data) evs ->
  submitted (evs ++ tail) = submitted tail.
Proof.
  intros F. destruct (fieldCalls_not_submit page form data evs F) as [H1 H2].
  unfold submitted. now rewrite !existsb_app, H1, H2.
Qed.

Ltac closing :=
  repeat (apply Forall_cons; [unfold closingCall; simpl; tauto|]);
  apply Forall_nil.

(** The submit block of [fillForm], run with the [actions] so far. *)
Lemma submit_spec page form actions (st : State W) :
  exists evs st',
    (if truthy (submit_button form) && (0 <? List.length actions)
     then try_catch
            (bind (pageClick drv page (submit_button form) 3000)
               (fun _ => bind (waitForTimeout drv page 1500)
                           (fun _ => ret (actions ++ [js "Търсене"]))))
            (ret actions)
     else ret actions) st =
      (Ok (actions ++ if submitted evs then [js "Търсене"] else []), st') /\
    log st' = log st ++ evs /\
    Forall (closingCall page form) evs /\
    writes evs = [] /\
    (actions = [] -> evs = []).
Proof.
  destruct (truthy (submit_button form) && (0 <? List.length actions)) eqn:C.
  - assert (Ne : actions = [] -> False).
    { intros ->. now rewrite andb_false_r in C. }
    unfold try_catch, bind, pageClick, waitForTimeout, invoke, ret.
    destruct (drv_click drv page (submit_button form) 3000 (world st))
      as [[[]|] w2]; cbn [world log is_ok].
    + destruct (drv_waitForTimeout drv page 1500 w2) as [[[]|] w3];
        cbn [world log is_ok].
      * exists [(CClick page (submit_button form) 3000, true);
                (CWaitForTimeout page 1500, true)]. eexists.
        split; [reflexivity|]. cbn [log].
        split; [now rewrite <- app_assoc|].
        split; [closing|]. split; [reflexivity | tauto].
      * exists [(CClick page (submit_button form) 3000, true);
                (CWaitForTimeout page 1500, false)]. eexists.
        split; [cbn [submitted existsb andb orb]; now rewrite app_nil_r|].
        cbn [log]. split; [now rewrite <- app_assoc|].
        split; [closing|]. split; [reflexivity | tauto].
    + exists [(CClick page (submit_button form) 3000, false)]. eexists.
      split; [cbn [submitted existsb andb orb]; now rewrite app_nil_r|].
      cbn [log]. split; [reflexivity|].
      split; [closing|]. split; [reflexivity | tauto].
  - exists [], st. unfold ret. cbn [submitted existsb andb]. rewrite !app_nil_r.
    repeat split. constructor.
Qed.

Lemma quickObserve_spec page (st : State W) :
  exists o b st',
    quickObserve drv page st = (Ok o, st') /\
    log st' = log st ++ [(CEvaluate page ObserveScript, b)].
Proof.
  unfold quickObserve, try_catch, evaluateObserve, invoke, ret.
  destruct (drv_observe drv page (world st)) as [[o|] w]; cbn [is_ok];
    do 3 eexists; split; reflexivity.
Qed.

Lemma summary_message entries tail :
  (entries = [] -> tail = []) ->
  (if 0 <? List.length (entries ++ tail)
   then js "Попълних: " ++ join (js ", ") (entries ++ tail)
   else js "Не успях да попълня формата") =
  match entries with
  | [] => js "Не успях да попълня формата"
  | _ :: _ => js "Попълних: " ++ join (js ", ") (entries ++ tail)
  end.
Proof.
  destruct entries as [|e entries]; intros H.
  - now rewrite (H eq_refl).
  - reflexivity.
Qed.

Lemma fillForm_spec page form d (st : State W) :
  exists result st' evs entries,
    fillForm drv lower page form (Some d) st = (Ok result, st') /\
    log st' = log st ++ evs /\
    Forall (fun ev => fieldCall lower page form (Some d) ev \/
                      closingCall page form ev) evs /\
    Forall2 (entryOf lower form (Some d)) entries (writes evs) /\
    act_message result = summary entries evs.
Proof.
  unfold fillForm.
  destruct (fillFields_spec page form d (fields form) [] st (incl_refl _))
    as [entries [st1 [evs1 [E1 [L1 [F1 W1]]]]]].
  rewrite (bind_ok _ _ _ _ _ E1). cbn [app].
  destruct (submit_spec page form entries st1)
    as [evs2 [st2 [E2 [L2 [F2 [W2 N2]]]]]].
  rewrite (bind_ok _ _ _ _ _ E2).
  destruct (quickObserve_spec page st2) as [o [b [st3 [E3 L3]]]].
  rewrite (bind_ok _ _ _ _ _ E3). unfold ret.
  eexists _, st3, (evs1 ++ evs2 ++ [(CEvaluate page ObserveScript, b)]), entries.
  split; [reflexivity|].
  split; [now rewrite L3, L2, L1, <- !app_assoc|].
  split.
  { apply Forall_app. split.
    - eapply Forall_impl; [|exact F1]. intros ev H. now left.
    - apply Forall_app. split.
      + eapply Forall_impl; [|exact F2]. intros ev H. now right.
      + apply Forall_cons; [|apply Forall_nil].
        right. unfold closingCall. simpl. tauto. }
  split; [now rewrite !writes_app, W2, !app_nil_r|].
  unfold snapshot, summary. cbn [act_message].
  rewrite (submitted_after_fields page form (Some d) evs1 _ F1).
  replace (submitted (evs2 ++ [(CEvaluate page ObserveScript, b)]))
    with (submitted evs2)
    by (unfold submitted; rewrite !existsb_app; cbn [existsb];
        now rewrite !orb_false_r).
  apply summary_message. intros ->. now rewrite (N2 eq_refl).
Qed.

End FillFacts.

(* ------------------------------------------------------------------ *)
(** ** execute: liveness recovery *)

Section ExecuteFacts.

Context {W : Type} (drv : Driver W) (lower : jsstring -> jsstring).

Lemma quiet_sessions {A} (m : M W A) st r st' :
  quiet m -> m st = (r, st') -> sessions st' = sessions st.
Proof. intros Q E. destruct (Q st) as [S _]. now rewrite E in S. Qed.

Lemma execute_tail_quiet session keywords data :
  quiet (W:=W)
    (bind (runAction drv lower session
             (matchAction lower keywords (siteMap session) data))
       (fun result =>
          bind (dateNow drv)
            (fun _ => ret {| success := true; message := act_message result;
                             observation := act_observation result |}))).
Proof.
  apply quiet_bind; [apply quiet_runAction|]. intros.
  apply quiet_bind; [apply quiet_dateNow | intros; apply quiet_ret].
Qed.

Lemma execute_tail_calm session keywords data :
  calm (W:=W)
    (bind (runAction drv lower session
             (matchAction lower keywords (siteMap session) data))
       (fun result =>
          bind (dateNow drv)
            (fun _ => ret {| success := true; message := act_message result;
                             observation := act_observation result |}))).
Proof.
  apply calm_bind; [apply calm_runAction|]. intros.
  apply calm_bind; [apply calm_dateNow | intros; apply calm_ret].
Qed.

Lemma prepareSession_returns id sm (st : State W) :
  exists ok st', prepareSession drv id sm st = (Ok ok, st').
Proof.
  destruct (isReady st) eqn:Hr; [destruct (browser st) as [b|] eqn:Hb|].
  - destruct (prepareSession_spec drv id sm st b Hr Hb) as [ok [st' [E _]]].
    now exists ok, st'.
  - exists false, st. apply prepareSession_unready. now right.
  - exists false, st. apply prepareSession_unready. now left.
Qed.

(** The liveness check of [execute] with its handler. *)
Lemma recovery_spec id session (st : State W) :
  SMap.get id (sessions st) <> None ->
  exists returned st',
    try_catch
      (bind (evaluateProbe drv (page session)) (fun _ => ret None))
      (bind (prepareSession drv id (siteMap session))
         (fun _ =>
            bind (@getSessions W)
              (fun m' =>
                 match SMap.get id m' with
                 | Some _ => ret None
                 | None => ret (Some (failure recoveryMessage))
                 end))) st = (Ok returned, st') /\
    match returned with
    | Some result => result = failure recoveryMessage
    | None => SMap.get id (sessions st') <> None
    end.
Proof.
  intros G. unfold recoveryMessage.
  unfold try_catch, bind at 1, evaluateProbe, invoke.
  destruct (drv_probe drv (page session) (world st)) as [[[]|] w];
    cbn [is_ok].
  - unfold ret. eexists None, _. split; [reflexivity | exact G].
  - match goal with
    | |- context [bind (prepareSession drv id ?sm) _ ?s] =>
      destruct (prepareSession_returns id sm s) as [ok [st2 E]]
    end.
    rewrite (bind_ok _ _ _ _ _ E). unfold bind, getSessions, ret.
    destruct (SMap.get id (sessions st2)) eqn:G2.
    + exists None, st2. split; [reflexivity | congruence].
    + eexists (Some _), st2. split; reflexivity.
Qed.

Lemma execute_lost_session request (st st' : State W) session r :
  SMap.get (req_site_id request) (sessions st) = Some session ->
  execute drv lower request st = (r, st') ->
  SMap.get (req_site_id request) (sessions st') = None ->
  r = Ok (failure recoveryMessage).
Proof.
  intros G E Lost. unfold execute in E.
  unfold bind at 1, getSessions at 1 in E. rewrite G in E.
  destruct (dateNow_frame drv st) as [t0 [st0 [E0 [S0 F0]]]].
  rewrite (bind_ok _ _ _ _ _ E0) in E.
  destruct (dateNow_frame drv st0) as [t1 [st1 [E1 [S1 F1]]]].
  rewrite (bind_ok _ _ _ _ _ E1) in E.
  unfold touch at 1 in E. unfold bind at 1, getSessions at 1 in E.
  unfold bind at 1, putSessions at 1 in E.
  match type of E with
  | try_catch _ _ ?s = _ =>
    destruct (recovery_spec (req_site_id request) session s)
      as [returned [st2 [R Hr]]]
  end.
  { unfold with_sessions. cbn [sessions]. rewrite get_set_same. discriminate. }
  unfold recoveryMessage in R, Hr |- *.
  unfold try_catch at 1 in E.
  rewrite (bind_ok _ _ _ _ _ R) in E.
  destruct returned as [result|].
  - unfold ret in E. inversion E; subst. reflexivity.
  - exfalso. apply Hr.
    match type of E with
    | (let (_, _) := ?m st2 in _) = _ =>
      pose proof (execute_tail_quiet session (req_keywords request)
                    (req_data request)) as Q;
      destruct (m st2) as [[a|] st3] eqn:T
    end.
    + inversion E; subst.
      now rewrite <- (quiet_sessions _ _ _ _ Q T).
    + unfold ret in E. inversion E; subst.
      now rewrite <- (quiet_sessions _ _ _ _ Q T).
Qed.

End ExecuteFacts.

(* ------------------------------------------------------------------ *)
(** ** The executors on concrete pages *)



(** C6, as the specification states it, fails when the submit control is
    clicked: the message then ends with the entry "Търсене", which is no
    field. *)
Lemma fillForm_message_names_submit :
  Runs.filledMessage = js "Попълних: check in: 2025-02-15, Търсене" /\
  ~ listsOnlyFilled Sim.driver Sim.lower 1 Sim.form_ex (Some Runs.data_ex)
      Fixtures.one.
Proof.
  split; [vm_compute; reflexivity|]. intros H.
  assert (N : Runs.filledMessage <>
              js "Попълних: " ++ join (js ", ") [js "check in: 2025-02-15"])
    by (vm_compute; discriminate).
  apply N.
  apply (H {| act_message := Runs.filledMessage;
              act_observation := match fst Runs.filled with
                                 | Ok r => act_observation r
                                 | Throw => None
                                 end |}
           (snd Runs.filled) (since Fixtures.one (snd Runs.filled))).
  - vm_compute. reflexivity.
  - vm_compute. reflexivity.
  - change (writes (since Fixtures.one (snd Runs.filled)))
      with [(js "#from", js "2025-02-15")].
    constructor; [|constructor].
    exists Sim.dateField_ex. simpl. repeat split; auto.
  - discriminate.
Qed.

(** C6 (amended): for every form and structured data, a value is resolved
    for a field only from the check-in, check-out or guest-count datum
    whose vocabulary the field's lower-cased keywords meet, the datum
    being present and truthy (a string that is not empty, a number other
    than the zeros and NaN), and the value is the string itself or what
    [String] makes of the number; the only calls made are queries, fills
    and selects on selectors of fields with a resolved value, then the
    submit click, its settle wait and the snapshot; and the message lists,
    in order, one "label: value" entry per value actually written,
    followed by the entry "Търсене" when the submit click and its wait
    succeeded, or is the failure message when nothing was written. *)
Theorem fillForm_summary :
  forall W (drv : Driver W) lower page form d (st : State W),
    Forall (fun field =>
              match resolveValue lower field (Some d) with
              | Ok (Some v) => vocabularyValue lower field d v
              | _ => True
              end) (fields form) /\
    exists result st' evs entries,
      fillForm drv lower page form (Some d) st = (Ok result, st') /\
      log st' = log st ++ evs /\
      Forall (fun ev => fieldCall lower page form (Some d) ev \/
                        closingCall page form ev) evs /\
      Forall2 (entryOf lower form (Some d)) entries (writes evs) /\
      act_message result = summary entries evs.
Proof.
  intros W drv lower page form d st. split; [|apply fillForm_spec].
  apply Forall_forall. intros field _.
  destruct (resolveValue lower field (Some d)) as [[v|]|] eqn:E; trivial.
  now apply resolveValue_vocabulary.
Qed.

(** Without a label, a failed click on the declared selector is followed
    by a text strategy that returns without clicking, and [clickButton]
    reports a click. *)
Lemma clickButton_unlabelled :
  forall W (drv : Driver W) page selector buttonText (st : State W) w1 w2,
    truthy_opt buttonText = false ->
    drv_click drv page selector 2000 (world st) = (Throw, w1) ->
    drv_waitForTimeout drv page 1000 w1 = (Ok tt, w2) ->
    exists o b st',
      clickButton drv page selector buttonText st =
        (Ok (snapshot (js "Кликнах") o), st') /\
      log st' = log st ++ [(CClick page selector 2000, false);
                           (CWaitForTimeout page 1000, true);
                           (CEvaluate page ObserveScript, b)].
Proof.
  intros W drv page selector buttonText st w1 w2 T C Wt.
  assert (B : forall mk s, byText drv page buttonText mk s = (Ok tt, s)).
  { intros mk s. unfold byText. destruct buttonText as [t|]; [|reflexivity].
    simpl in T. now rewrite T. }
  unfold clickButton, strategies. cbn [tryStrategies].
  unfold clickedMessage. rewrite T.
  unfold try_catch, bind, pageClick, waitForTimeout, invoke, ret.
  rewrite C. cbn [world log is_ok]. rewrite B. cbn [world log is_ok].
  rewrite Wt. cbn [world log is_ok].
  unfold quickObserve, try_catch, evaluateObserve, invoke, ret.
  cbn [world log is_ok].
  destruct (drv_observe drv page w2) as [[o|] w3]; cbn [is_ok];
    do 3 eexists; (split; [reflexivity|]); cbn [log];
    now rewrite <- !app_assoc.
Qed.

(** C5 on the code: for a booking button without a label whose selector
    matches nothing, [execute] makes one click, which throws, and answers
    with success and the message "Кликнах", not with the failure message. *)
Theorem execute_unlabelled_click_fails_reported_clicked :
  matchAction Sim.lower (req_keywords Runs.iconRequest) Runs.siteMap_icon
    (req_data Runs.iconRequest) = click (js "#gone") (Some []) /\
  (exists o,
      fst (execute Sim.driver Sim.lower Runs.iconRequest Runs.withIcon) =
      Ok {| success := true; message := js "Кликнах";
            observation := Some (inl o) |}) /\
  since Runs.withIcon
        (snd (execute Sim.driver Sim.lower Runs.iconRequest Runs.withIcon)) =
    [(CEvaluate 1 ProbeScript, true);
     (CClick 1 (js "#gone") 2000, false);
     (CWaitForTimeout 1 1000, true);
     (CEvaluate 1 ObserveScript, true)] /\
  message {| success := true; message := js "Кликнах"; observation := None |}
    <> act_message clickFailed.
Proof.
  split; [vm_compute; reflexivity|].
  split; [eexists; vm_compute; reflexivity|].
  split; [vm_compute; reflexivity|].
  vm_compute. discriminate.
Qed.

(** C2 on the code: the page of the session has died; [execute] recreates
    the session (the store then holds page 3) and runs the matched
    [fill_form] on the dead page 1: every call of the action throws and
    the form is reported as not filled, although the same action on the
    replacement page fills and submits it. *)
Theorem execute_recovered_acts_on_dead_page :
  option_map page (SMap.get (Sim.site 0) (sessions Runs.stale)) = Some 1 /\
  option_map page (SMap.get (Sim.site 0) (sessions (snd Runs.recovered))) = Some 3 /\
  fst Runs.recovered =
    Ok {| success := true; message := js "Не успях да попълня формата";
          observation := Some (inl fallbackObservation) |} /\
  since Runs.stale (snd Runs.recovered) =
    [(CEvaluate 1 ProbeScript, false);
     (CPageClose 1, true); (CContextClose 0, true);
     (CNewContext, true); (CNewPage 2, true);
     (CGoto 3 (js "https://hotel.example") 20000, true);
     (CWaitForTimeout 3 1500, true); (CUrl 3, true);
     (CQuery 1 (js "#from"), false);
     (CQuery 1 (js "[name=" ++ dq ++ js "check_in" ++ dq ++ js "]"), false);
     (CQuery 1 (js "#check_in"), false);
     (CEvaluate 1 ObserveScript, false)] /\
  (exists o,
      Runs.onReplacement =
      Ok {| act_message := js "Попълних: check in: 2025-02-15, Търсене";
            act_observation := Some (inl o) |}).
Proof.
  split; [vm_compute; reflexivity|].
  split; [vm_compute; reflexivity|].
  split; [vm_compute; reflexivity|].
  split; [vm_compute; reflexivity|].
  eexists. vm_compute. reflexivity.
Qed.

(** When the recreation fails as well, [execute] returns the recovery
    failure and makes no call for any action. *)
Lemma execute_recreation_failed_run :
  fst (execute Sim.driver Sim.lower Runs.bookingRequest Runs.staleDown) =
    Ok (failure (js "Грешка при възстановяване на сесията")) /\
  sessions (snd (execute Sim.driver Sim.lower Runs.bookingRequest Runs.staleDown))
    = [] /\
  since Runs.staleDown
        (snd (execute Sim.driver Sim.lower Runs.bookingRequest Runs.staleDown)) =
    [(CEvaluate 1 ProbeScript, false);
     (CPageClose 1, true); (CContextClose 0, true);
     (CNewContext, true); (CNewPage 2, true);
     (CGoto 3 (js "https://hotel.example") 20000, false)].
Proof.
  split; [vm_compute; reflexivity|].
  split; vm_compute; reflexivity.
Qed.

Lemma search_leftmost r : forall s m,
  search r s = Some m -> leftmost r s m.
Proof.
  induction s as [|c s IH]; intros m; cbn [search].
  - destruct (exec r []) as [m'|] eqn:E; [|discriminate].
    intros H. injection H as <-.
    destruct (exec_sound r [] m' E) as [_ [rest Hs]].
    exists [], rest. cbn [app]. rewrite <- Hs.
    split; [reflexivity|]. split; [exact E|]. intros i Hi. cbn in Hi. lia.
  - destruct (exec r (c :: s)) as [m'|] eqn:E.
    + intros H. injection H as <-.
      destruct (exec_sound r (c :: s) m' E) as [_ [rest Hs]].
      exists [], rest. cbn [app]. rewrite <- Hs.
      split; [reflexivity|]. split; [exact E|]. intros i Hi. cbn in Hi. lia.
    + intros H. destruct (IH m H) as [before [rest [Hs [He Hn]]]].
      exists (c :: before), rest. split; [cbn [app]; now rewrite Hs|].
      split; [exact He|]. intros [|i] Hi; [exact E|].
      cbn [skipn]. apply Hn. cbn in Hi. lia.
Qed.

Lemma search_unmatched r : forall s, search r s = None -> unmatched r s.
Proof.
  induction s as [|c s IH]; cbn [search].
  - destruct (exec r []) eqn:E; [discriminate|]. intros _ i.
    now rewrite skipn_nil.
  - destruct (exec r (c :: s)) eqn:E; [discriminate|].
    intros H [|i]; [exact E | cbn [skipn]; now apply IH].
Qed.

(** C9, as the specification states its example, fails: on a text that
    contains "+359 88 123 4567" and "a@b.com" after another phone number
    and another address, the message reports those, not the email
    "a@b.com". *)
Lemma contact_sample_not_reported :
  includes (js "x@y.zz, 0888123456; +359 88 123 4567, a@b.com")
           (js "+359 88 123 4567") = true /\
  includes (js "x@y.zz, 0888123456; +359 88 123 4567, a@b.com")
           (js "a@b.com") = true /\
  contactMessage
    (contactScript (js "x@y.zz, 0888123456; +359 88 123 4567, a@b.com")) =
    js "Телефон: 0888123456. Email: x@y.zz" /\
  ~ reportsSample (js "x@y.zz, 0888123456; +359 88 123 4567, a@b.com").
Proof.
  assert (E : contactMessage
                (contactScript
                   (js "x@y.zz, 0888123456; +359 88 123 4567, a@b.com")) =
              js "Телефон: 0888123456. Email: x@y.zz")
    by (vm_compute; reflexivity).
  split; [vm_compute; reflexivity|]. split; [vm_compute; reflexivity|].
  split; [exact E|].
  intros [p H]. rewrite E in H.
  apply (f_equal (@rev N)) in H. rewrite !rev_app_distr in H.
  vm_compute in H. discriminate H.
Qed.

(** C9 (amended): [getContactInfo] scans the visible text with the
    permissive phone pattern and falls back to the strict one only when
    the first matches nowhere, and with the one email pattern; what it
    reports of each pattern is its leftmost match in the text; the message
    lists the phone part before the email part, joined by ". ", and is the
    fixed not-found message when neither matched; a text containing
    "+359 88 123 4567" and "a@b.com" yields a phone and an email, phone
    first, each the leftmost match of its pattern, which need not be the
    sample; and the text made of just the two yields the phone match
    "+359 88 123 456" and the email "a@b.com". *)
Theorem getContactInfo_reports :
  forall W (drv : Driver W) page (st : State W) text w,
    drv_innerText drv page (world st) = (Ok text, w) ->
    reportsContact drv page st text /\
    contactMessage (contactScript (js "+359 88 123 4567 a@b.com")) =
    js "Телефон: +359 88 123 456. Email: a@b.com".
Proof.
  intros W drv page st text w H. split; [|vm_compute; reflexivity].
  assert (Ph : forall p,
             phone (contactScript text) = Some p ->
             leftmost phonePermissive text p \/
             (unmatched phonePermissive text /\ leftmost phoneStrict text p)).
  { intros p. cbn [contactScript phone]. rewrite firstPhone_permissive.
    destruct (Regex.search phonePermissive text) as [m|] eqn:E.
    - intros Hp. injection Hp as <-. left. now apply search_leftmost.
    - intros Hp. right. split; [now apply search_unmatched|].
      now apply search_leftmost. }
  unfold reportsContact. cbv zeta.
  split.
  { unfold getContactInfo, try_catch, bind, evaluateInnerText, invoke, ret.
    rewrite H. eexists. reflexivity. }
  split; [apply firstPhone_permissive|].
  split; [reflexivity|].
  split; [exact Ph|].
  split.
  { cbn [contactScript phone]. rewrite firstPhone_permissive.
    destruct (Regex.search phonePermissive text) as [m|] eqn:E; [discriminate|].
    intros Hs. split; now apply search_unmatched. }
  split; [intros e He; now apply search_leftmost|].
  split; [intros He; now apply search_unmatched|].
  split; [apply contactMessage_correct|].
  intros Hp He. destruct (contains_sample_found text Hp He) as [p [e [Ep Ee]]].
  exists p, e.
  assert (Lp : leftmost phonePermissive text p).
  { destruct (Ph p Ep) as [L | [U _]]; [exact L|].
    exfalso. apply includes_split in Hp. destruct Hp as [before [rest Hs]].
    specialize (U (List.length before)). rewrite Hs in U.
    rewrite skipn_app, skipn_all, Nat.sub_diag in U. cbn [skipn app] in U.
    rewrite phone_sample_matches in U. discriminate U. }
  split; [exact Lp|]. split; [now apply search_leftmost|].
  split; [exact Ep|]. split; [exact Ee|].
  rewrite contactMessage_correct, Ep, Ee. reflexivity.
Qed.

Lemma getContactInfo_reports_witness :
  reportsContact Sim.driver 1 Fixtures.one (Sim.bodyText Sim.world0) /\
  contactMessage (contactScript (js "+359 88 123 4567 a@b.com")) =
  js "Телефон: +359 88 123 456. Email: a@b.com".
Proof.
  apply (getContactInfo_reports Sim.World Sim.driver 1 Fixtures.one
           (Sim.bodyText Sim.world0) (world Fixtures.one)).
  vm_compute. reflexivity.
Defined.

(* ------------------------------------------------------------------ *)
(** ** The calls an operation makes *)

Section CallFacts.

Context {W : Type} (drv : Driver W) (lower : jsstring -> jsstring).

Lemma emits_weaken {A} (P Q : Event -> Prop) (m : M W A) :
  (forall ev, P ev -> Q ev) -> emits P m -> emits Q m.
Proof.
  intros H E st. destruct (E st) as [evs [L F]]. exists evs.
  split; [assumption|]. eapply Forall_impl; eassumption.
Qed.

Lemma emits_silent {A} (P : Event -> Prop) (m : M W A) :
  (forall st, log (snd (m st)) = log st) -> emits P m.
Proof.
  intros H st. exists []. rewrite app_nil_r. split; [apply H | constructor].
Qed.

Lemma emits_ret {A} P (a : A) : emits (W:=W) P (ret a).
Proof. now apply emits_silent. Qed.

Lemma emits_lift {A} P (r : Exc A) : emits (W:=W) P (lift r).
Proof. now apply emits_silent. Qed.

Lemma emits_getSessions P : emits P (@getSessions W).
Proof. now apply emits_silent. Qed.

Lemma emits_putSessions P m : emits (W:=W) P (putSessions m).
Proof. now apply emits_silent. Qed.

Lemma emits_dateNow P : emits P (dateNow drv).
Proof.
  apply emits_silent. intros st. unfold dateNow.
  now destruct (drv_now drv (world st)).
Qed.

Lemma emits_bind {A B} P (m : M W A) (k : A -> M W B) :
  emits P m -> (forall a, emits P (k a)) -> emits P (bind m k).
Proof.
  intros Hm Hk st. unfold bind. destruct (Hm st) as [e1 [L1 F1]].
  destruct (m st) as [[a|] st1]; simpl in L1.
  - destruct (Hk a st1) as [e2 [L2 F2]]. exists (e1 ++ e2).
    split; [now rewrite L2, L1, app_assoc | now apply Forall_app].
  - now exists e1.
Qed.

Lemma emits_try_catch {A} P (m h : M W A) :
  emits P m -> emits P h -> emits P (try_catch m h).
Proof.
  intros Hm Hh st. unfold try_catch. destruct (Hm st) as [e1 [L1 F1]].
  destruct (m st) as [[a|] st1]; simpl in L1.
  - now exists e1.
  - destruct (Hh st1) as [e2 [L2 F2]]. exists (e1 ++ e2).
    split; [now rewrite L2, L1, app_assoc | now apply Forall_app].
Qed.

Lemma emits_invoke {A} (P : Event -> Prop) c (op : W -> Exc A * W) :
  (forall b, P (c, b)) -> emits P (invoke c op).
Proof.
  intros H st. unfold invoke. destruct (op (world st)) as [r w].
  exists [(c, is_ok r)]. split; [reflexivity | repeat constructor; apply H].
Qed.

Lemma emits_if {A} P (b : bool) (m1 m2 : M W A) :
  emits P m1 -> emits P m2 -> emits P (if b then m1 else m2).
Proof. now destruct b. Qed.

Ltac silent :=
  first [ apply emits_ret | apply emits_lift | apply emits_getSessions
        | apply emits_putSessions | apply emits_dateNow ].

(** *** prepareSession *)

Lemma emits_closeSession target k : emits (lifecycleCall target) (closeSession drv k).
Proof.
  unfold closeSession. apply emits_bind; [silent|]. intros m.
  destruct (SMap.get k m) as [s|]; [|silent].
  apply emits_bind.
  - apply emits_try_catch; [|silent].
    apply emits_bind; [apply emits_invoke; now intros|].
    intros _. apply emits_invoke. now intros.
  - intros _. apply emits_bind; [silent|]. intros. silent.
Qed.

Lemma emits_closeSessionDetached target k :
  emits (lifecycleCall target) (closeSessionDetached drv k).
Proof.
  unfold closeSessionDetached. apply emits_bind; [silent|]. intros m.
  destruct (SMap.get k m) as [s|]; [|silent].
  apply emits_bind.
  - apply emits_try_catch; [|silent].
    apply emits_bind; [apply emits_invoke; now intros|]. intros _. silent.
  - intros closed. apply emits_bind; [|intros ds]; now apply emits_silent.
Qed.

Lemma emits_evictOldestSession target :
  emits (lifecycleCall target) (evictOldestSession drv).
Proof.
  unfold evictOldestSession. apply emits_bind; [silent|]. intros m.
  destruct (scanOldest m None) as [[k t]|]; [apply emits_closeSessionDetached | silent].
Qed.

(** While the worker awaits, the only calls that pending detached calls
    make close a context. *)
Lemma emits_await {A} (P : Event -> Prop) (m : M W A) :
  (forall c b, P (CContextClose c, b)) -> emits P m -> emits P (await drv m).
Proof.
  intros Hc Hm st. destruct (await_spec drv m st) as [st2 [E [_ [evs [L F]]]]].
  rewrite E. cbn [snd]. destruct (Hm st) as [e1 [L1 F1]].
  exists (e1 ++ evs). split; [now rewrite L, L1, app_assoc|].
  apply Forall_app. split; [exact F1|].
  eapply Forall_impl; [|exact F]. intros [c b] [c' Hc']. cbn in Hc'. subst c.
  apply Hc.
Qed.

Lemma emits_prepareSession id sm :
  emits (lifecycleCall (normalizeUrl (url sm))) (prepareSession drv id sm).
Proof.
  unfold prepareSession. apply emits_bind; [now apply emits_silent|].
  intros r. apply emits_if; [silent|].
  apply emits_bind; [silent|]. intros _.
  apply emits_try_catch; [|silent].
  apply emits_bind; [apply emits_closeSession|]. intros _.
  apply emits_bind; [silent|]. intros m.
  apply emits_bind; [apply emits_if; [apply emits_evictOldestSession | silent]|].
  intros _. unfold newContext, newPage, goto, waitForTimeout, pageUrl.
  fold (normalizeUrl (url sm)).
  apply emits_bind; [apply emits_await; [now intros|apply emits_invoke; now intros]|].
  intros c.
  apply emits_bind; [apply emits_await; [now intros|apply emits_invoke; now intros]|].
  intros p.
  apply emits_bind; [apply emits_await; [now intros|apply emits_invoke; now intros]|].
  intros _.
  apply emits_bind; [apply emits_await; [now intros|apply emits_invoke; now intros]|].
  intros _.
  apply emits_bind; [silent|]. intros now.
  apply emits_bind; [apply emits_invoke; now intros|]. intros current.
  apply emits_bind; [silent|]. intros m'.
  apply emits_bind; [silent|]. intros _.
  apply emits_bind; [silent|]. intros _. silent.
Qed.

Lemma normalizeUrl_http u : startsWith (normalizeUrl u) (js "http") = true.
Proof.
  unfold normalizeUrl. destruct (startsWith u (js "http")) eqn:E; [exact E|].
  reflexivity.
Qed.

(** *** The executors stay on their page *)

Ltac on_page := apply emits_invoke; intros; split; [reflexivity | discriminate].

Lemma emits_quickObserve p : emits (actsOn p) (quickObserve drv p).
Proof.
  unfold quickObserve, evaluateObserve. apply emits_try_catch; [on_page | silent].
Qed.

Lemma emits_trySelectors p field v sels :
  emits (actsOn p) (trySelectors drv p field v sels).
Proof.
  induction sels as [|sel rest IH]; cbn [trySelectors]; [silent|].
  apply emits_bind.
  - apply emits_try_catch; [|silent]. unfold query, selectOption, fill.
    apply emits_bind; [on_page|]. intros [|]; [|silent].
    apply emits_bind; [|intros; silent].
    apply emits_if; on_page.
  - intros [|]; [silent | exact IH].
Qed.

Lemma emits_fillFields p flds data : forall actions,
  emits (actsOn p) (fillFields drv lower p flds data actions).
Proof.
  induction flds as [|field rest IH]; intros actions; cbn [fillFields]; [silent|].
  apply emits_bind; [silent|]. intros value.
  apply emits_bind; [|intros; apply IH].
  apply emits_if; [|silent].
  apply emits_try_catch; [|silent].
  apply emits_bind; [apply emits_trySelectors|]. intros [|]; silent.
Qed.

Lemma emits_fillForm p form data : emits (actsOn p) (fillForm drv lower p form data).
Proof.
  unfold fillForm. apply emits_bind; [apply emits_fillFields|]. intros actions.
  apply emits_bind.
  - apply emits_if; [|silent]. apply emits_try_catch; [|silent].
    unfold pageClick, waitForTimeout.
    apply emits_bind; [on_page|]. intros _.
    apply emits_bind; [on_page|]. intros _. silent.
  - intros actions'. apply emits_bind; [apply emits_quickObserve|]. intros. silent.
Qed.

Lemma emits_byText p t mk : emits (actsOn p) (byText drv p t mk).
Proof.
  unfold byText, pageClick. destruct t as [t|]; [|silent].
  apply emits_if; [on_page | silent].
Qed.

Lemma emits_tryStrategies p t l :
  Forall (emits (actsOn p)) l -> emits (actsOn p) (tryStrategies drv p t l).
Proof.
  induction 1 as [|strategy rest Hs _ IH]; cbn [tryStrategies]; [silent|].
  apply emits_bind.
  - apply emits_try_catch; [|silent].
    apply emits_bind; [assumption|]. intros _. unfold waitForTimeout.
    apply emits_bind; [on_page|]. intros _.
    apply emits_bind; [apply emits_quickObserve|]. intros. silent.
  - intros [result|]; [silent | assumption].
Qed.

Lemma emits_clickButton p sel t : emits (actsOn p) (clickButton drv p sel t).
Proof.
  unfold clickButton. apply emits_try_catch; [|silent].
  apply emits_tryStrategies. unfold strategies, pageClick.
  apply Forall_cons; [on_page|].
  repeat (apply Forall_cons; [apply emits_byText|]). apply Forall_nil.
Qed.

Lemma emits_runAction session action :
  emits (actsOn (page session)) (runAction drv lower session action).
Proof.
  destruct action; cbn [runAction].
  - apply emits_fillForm.
  - apply emits_clickButton.
  - silent.
  - unfold getContactInfo, evaluateInnerText.
    apply emits_try_catch; [|silent].
    apply emits_bind; [on_page|]. intros. silent.
  - unfold navigateTo, goto, waitForTimeout.
    apply emits_try_catch; [|silent].
    apply emits_bind; [on_page|]. intros _.
    apply emits_bind; [on_page|]. intros _.
    apply emits_bind; [apply emits_quickObserve|]. intros. silent.
  - unfold observeCurrentState.
    apply emits_bind; [apply emits_quickObserve|]. intros. silent.
Qed.

End CallFacts.

(** X1: the calls of [prepareSession] are those that close and open
    sessions; it evaluates no script and clicks or fills nothing, and any
    navigation it makes goes, with a timeout of 20 s, to the site map's
    address as given when that starts with "http" and with "https://" put
    before it otherwise. *)
Theorem prepareSession_calls :
  forall W (drv : Driver W) id sm (st : State W),
    startsWith (normalizeUrl (url sm)) (js "http") = true /\
    exists evs,
      log (snd (prepareSession drv id sm st)) = log st ++ evs /\
      Forall (lifecycleCall (normalizeUrl (url sm))) evs.
Proof.
  intros W drv id sm st. split; [apply normalizeUrl_http|].
  apply emits_prepareSession.
Qed.

(** X2: every call that [execute] makes for a site that has a session is
    made on the page of that session, without closing it, or belongs to
    the recreation of that session; pages of other sessions are not
    evaluated, queried, filled or clicked. *)
Theorem execute_calls :
  forall W (drv : Driver W) lower request (st : State W) session,
    SMap.get (req_site_id request) (sessions st) = Some session ->
    exists evs,
      log (snd (execute drv lower request st)) = log st ++ evs /\
      Forall (fun ev => actsOn (page session) ev \/
                        lifecycleCall (normalizeUrl (url (siteMap session))) ev)
             evs.
Proof.
  intros W drv lower request st session G.
  unfold execute. unfold bind at 1, getSessions at 1. rewrite G.
  match goal with |- exists evs, log (snd (?m st)) = _ /\ _ =>
    assert (E : emits (fun ev => actsOn (page session) ev \/
                        lifecycleCall (normalizeUrl (url (siteMap session))) ev) m);
      [|exact (E st)]
  end.
  apply emits_bind; [apply emits_dateNow|]. intros t0.
  apply emits_bind; [apply emits_dateNow|]. intros t1.
  apply emits_bind.
  { unfold touch. apply emits_bind; [apply emits_getSessions|].
    intros. apply emits_putSessions. }
  intros _. apply emits_try_catch; [|apply emits_ret].
  apply emits_bind.
  - apply emits_try_catch.
    + unfold evaluateProbe. apply emits_bind; [|intros; apply emits_ret].
      apply emits_invoke. intros b. left. split; [reflexivity | discriminate].
    + apply emits_bind.
      * eapply emits_weaken; [|apply emits_prepareSession]. intros ev H. now right.
      * intros _. apply emits_bind; [apply emits_getSessions|]. intros m'.
        destruct (SMap.get _ m'); apply emits_ret.
  - intros [result|]; [apply emits_ret|].
    apply emits_bind.
    + eapply emits_weaken; [|apply emits_runAction]. intros ev H. now left.
    + intros result. apply emits_bind; [apply emits_dateNow|]. intros. apply emits_ret.
Qed.

Lemma execute_calls_witness :
  exists evs,
    log (snd (execute Sim.driver Sim.lower Runs.bookingRequest Runs.stale)) =
      log Runs.stale ++ evs /\
    Forall (fun ev => actsOn (page Fixtures.session0) ev \/
                      lifecycleCall
                        (normalizeUrl (url (siteMap Fixtures.session0))) ev)
           evs.
Proof.
  apply (execute_calls Sim.World Sim.driver Sim.lower Runs.bookingRequest
           Runs.stale Fixtures.session0).
  vm_compute. reflexivity.
Defined.

(* ------------------------------------------------------------------ *)
(** ** The cleanup sweep *)

Lemma NoDup_In_get k s m :
  NoDup (SMap.keys m) -> In (k, s) m -> SMap.get k m = Some s.
Proof.
  intros N Hin. apply in_split in Hin. destruct Hin as [m1 [m2 ->]].
  apply get_split. now apply NoDup_split in N.
Qed.

(** Deleting the keys of the entries that a test rejects leaves the
    entries that it accepts. *)
Lemma deleteAll_filter (f : jsstring * HotSession -> bool) entries : forall kept,
  NoDup (SMap.keys (kept ++ entries)) ->
  deleteAll (SMap.keys (filter (fun e => negb (f e)) entries)) (kept ++ entries) =
  kept ++ filter f entries.
Proof.
  induction entries as [|[k s] rest IH]; intros kept N; [reflexivity|].
  cbn [filter]. destruct (f (k, s)); cbn [negb].
  - specialize (IH (kept ++ [(k, s)])). rewrite <- !app_assoc in IH. cbn in IH.
    now apply IH.
  - cbn [SMap.keys map deleteAll fold_left fst].
    destruct (NoDup_split _ _ _ _ N) as [N1 N2].
    rewrite (delete_split _ _ _ _ N1). apply IH.
    unfold SMap.keys in *. rewrite map_app in *. cbn [map] in N.
    now apply NoDup_remove_1 in N.
Qed.

Section SweepFacts.

Context {W : Type} (drv : Driver W).

(** The loop of [cleanupSessions] over entries that the store holds: the
    store is left as it is, the page of each stale entry is asked to
    close, in order, and the rest of each close is pending. *)
Lemma cleanupLoop_detaches now entries : forall st : State W,
  (forall k s, In (k, s) entries -> SMap.get k (sessions st) = Some s) ->
  exists st' evs tasks,
    cleanupLoop drv now entries st = (Ok tt, st') /\
    sessions st' = sessions st /\
    log st' = log st ++ evs /\
    map fst evs =
      map (fun e => CPageClose (page (snd e))) (filter (stale_at now) entries) /\
    detached st' = detached st ++ tasks /\
    map owes tasks = SMap.keys (filter (stale_at now) entries).
Proof.
  induction entries as [|[siteId session] rest IH]; intros st H.
  - exists st, [], []. cbn. unfold ret. now rewrite !app_nil_r.
  - cbn [cleanupLoop filter].
    change (now - lastActivity session >? SESSION_TIMEOUT)%Z
      with (stale_at now (siteId, session)).
    destruct (stale_at now (siteId, session)).
    + destruct (closeSessionDetached_spec drv siteId st) as [st1 [E [S1 [_ R]]]].
      rewrite (H siteId session (or_introl eq_refl)) in R.
      destruct R as [c [D1 L1]].
      rewrite (bind_ok _ _ _ _ _ E).
      destruct (IH st1) as [st' [evs [tasks [E' [S' [L' [C' [D' O']]]]]]]].
      { intros k s Hin. rewrite S1. apply H. now right. }
      exists st', ((CPageClose (page session), c) :: evs),
        (AwaitsPageClose siteId session c :: tasks).
      split; [exact E'|]. split; [congruence|].
      split; [now rewrite L', L1, <- app_assoc|].
      split; [cbn [map fst snd]; f_equal; exact C'|].
      split; [now rewrite D', D1, <- app_assoc|].
      unfold SMap.keys in *. cbn [map fst owes]. f_equal. exact O'.
    + unfold bind at 1, ret at 1. apply IH. intros k s Hin. apply H. now right.
Qed.

Lemma cleanupSessions_detaches (st : State W) :
  NoDup (SMap.keys (sessions st)) ->
  exists st' evs tasks,
    cleanupSessions drv st = (Ok tt, st') /\
    sessions st' = sessions st /\
    log st' = log st ++ evs /\
    map fst evs =
      map (fun e => CPageClose (page (snd e)))
          (filter (stale_at (fst (drv_now drv (world st)))) (sessions st)) /\
    detached st' = detached st ++ tasks /\
    map owes tasks =
      SMap.keys (filter (stale_at (fst (drv_now drv (world st)))) (sessions st)).
Proof.
  intros N. unfold cleanupSessions, bind at 1, dateNow.
  destruct (drv_now drv (world st)) as [now w] eqn:En. cbn [fst].
  unfold bind at 1, getSessions at 1. cbn [sessions].
  match goal with |- exists st' evs tasks, cleanupLoop _ _ _ ?s = _ /\ _ =>
    destruct (cleanupLoop_detaches now (sessions st) s)
      as [st' [evs [tasks R]]]
  end.
  { intros k s Hin. cbn [sessions]. now apply NoDup_In_get. }
  exists st', evs, tasks. exact R.
Qed.

(** The store after the sweep, once the closes it left pending are
    through. *)
Lemma cleanupSessions_atRest (st st' : State W) :
  NoDup (SMap.keys (sessions st)) -> detached st = [] ->
  cleanupSessions drv st = (Ok tt, st') ->
  atRest st' = filter (fresh_at (fst (drv_now drv (world st)))) (sessions st).
Proof.
  intros N D E.
  destruct (cleanupSessions_detaches st N) as [st1 [evs [tasks [E1 [S [_ [_ [D1 O]]]]]]]].
  rewrite E in E1. injection E1 as <-.
  unfold atRest. rewrite D1, D, S. cbn [app]. rewrite O.
  pose proof (deleteAll_filter (fresh_at (fst (drv_now drv (world st))))
                (sessions st) [] N) as R.
  cbn [app] in R. rewrite <- R. f_equal. f_equal. apply filter_ext.
  intros e. unfold fresh_at, stale_at. now rewrite negb_involutive.
Qed.

End SweepFacts.

(** X3: a cleanup sweep, made when no close is pending, reads the clock
    once, asks the page of every session whose idle time at that reading
    exceeds SESSION_TIMEOUT (30 minutes) to close, in the order of the
    store, and returns without awaiting: at its return the store is as it
    was and the rest of each close is pending. The pending closes can
    always be brought to their end, and once they are, in whatever order
    they took their turns, the store holds exactly the sessions whose idle
    time does not exceed the timeout, in their order and unchanged; a
    session idle for exactly the timeout is kept. *)
Theorem cleanupSessions_sweep :
  forall W (drv : Driver W) (st : State W),
    NoDup (SMap.keys (sessions st)) ->
    detached st = [] ->
    exists st' evs,
      cleanupSessions drv st = (Ok tt, st') /\
      sessions st' = sessions st /\
      log st' = log st ++ evs /\
      map fst evs =
        map (fun e => CPageClose (page (snd e)))
            (filter (stale_at (fst (drv_now drv (world st)))) (sessions st)) /\
      map owes (detached st') =
        SMap.keys (filter (stale_at (fst (drv_now drv (world st)))) (sessions st)) /\
      (exists order, detached (snd (turns drv order st')) = []) /\
      forall order,
        detached (snd (turns drv order st')) = [] ->
        sessions (snd (turns drv order st')) =
          filter (fresh_at (fst (drv_now drv (world st)))) (sessions st) /\
        forall k s,
          In (k, s) (sessions (snd (turns drv order st'))) ->
          (fst (drv_now drv (world st)) - lastActivity s <= SESSION_TIMEOUT)%Z.
Proof.
  intros W drv st N D.
  destruct (cleanupSessions_detaches drv st N)
    as [st' [evs [tasks [E [S [L [C [D' O]]]]]]]].
  exists st', evs. split; [exact E|]. split; [exact S|]. split; [exact L|].
  split; [exact C|]. split; [now rewrite D', D|].
  split; [apply (turns_drain drv (length (detached st')) st'); lia|].
  intros order Hd.
  assert (R : sessions (snd (turns drv order st')) =
              filter (fresh_at (fst (drv_now drv (world st)))) (sessions st)).
  { rewrite (turns_drained drv order st' Hd).
    now apply cleanupSessions_atRest. }
  split; [exact R|].
  intros k s Hin. rewrite R in Hin.
  apply filter_In in Hin. destruct Hin as [_ F].
  unfold fresh_at in F. cbn [snd] in F. apply negb_true_iff in F.
  rewrite Z.gtb_ltb in F. now apply Z.ltb_ge in F.
Qed.

Lemma cleanupSessions_sweep_witness :
  exists st' evs,
    cleanupSessions Sim.driver Aged.later = (Ok tt, st') /\
    sessions st' = sessions Aged.later /\
    log st' = log Aged.later ++ evs /\
    map fst evs =
      map (fun e => CPageClose (page (snd e)))
          (filter (stale_at (fst (drv_now Sim.driver (world Aged.later))))
                  (sessions Aged.later)) /\
    map owes (detached st') =
      SMap.keys (filter (stale_at (fst (drv_now Sim.driver (world Aged.later))))
                        (sessions Aged.later)) /\
    (exists order, detached (snd (turns Sim.driver order st')) = []) /\
    forall order,
      detached (snd (turns Sim.driver order st')) = [] ->
      sessions (snd (turns Sim.driver order st')) =
        filter (fresh_at (fst (drv_now Sim.driver (world Aged.later))))
               (sessions Aged.later) /\
      forall k s,
        In (k, s) (sessions (snd (turns Sim.driver order st'))) ->
        (fst (drv_now Sim.driver (world Aged.later)) - lastActivity s
         <= SESSION_TIMEOUT)%Z.
Proof.
  apply (cleanupSessions_sweep Sim.World Sim.driver Aged.later).
  - apply distinct_NoDup. vm_compute. reflexivity.
  - vm_compute. reflexivity.
Defined.

(* ------------------------------------------------------------------ *)
(** ** Operations return; closeSession; execute on a live page *)

Section ReturnFacts.

Context {W : Type} (drv : Driver W) (lower : jsstring -> jsstring).

Lemma returns_ret {A} (a : A) : returns (W:=W) (ret a).
Proof. intros st. now exists a, st. Qed.

Lemma returns_bind {A B} (m : M W A) (k : A -> M W B) :
  returns m -> (forall a, returns (k a)) -> returns (bind m k).
Proof.
  intros Hm Hk st. destruct (Hm st) as [a [st1 E]].
  unfold bind. rewrite E. apply Hk.
Qed.

Lemma returns_try_catch {A} (m h : M W A) : returns h -> returns (try_catch m h).
Proof.
  intros Hh st. unfold try_catch. destruct (m st) as [[a|] st1].
  - now exists a, st1.
  - apply Hh.
Qed.

Lemma returns_dateNow : returns (dateNow drv).
Proof.
  intros st. destruct (dateNow_frame drv st) as [t [st' [E _]]]. now exists t, st'.
Qed.

Lemma returns_closeSession k : returns (closeSession drv k).
Proof.
  intros st. destruct (closeSession_spec drv k st) as [st' [E _]]. now exists tt, st'.
Qed.

Lemma returns_prepareSession id sm : returns (prepareSession drv id sm).
Proof. intros st. apply prepareSession_returns. Qed.

Lemma returns_cleanupSessions : returns (cleanupSessions drv).
Proof.
  intros st. destruct (cleanupSessions_spec drv st) as [st' [E _]]. now exists tt, st'.
Qed.

Lemma returns_execute request : returns (execute drv lower request).
Proof.
  unfold execute. apply returns_bind; [intros st; now exists (sessions st), st|].
  intros m. destruct (SMap.get (req_site_id request) m) as [session|];
    [|apply returns_ret].
  apply returns_bind; [apply returns_dateNow|]. intros t0.
  apply returns_bind; [apply returns_dateNow|]. intros t1.
  apply returns_bind.
  { unfold touch. intros st. unfold bind, getSessions, putSessions.
    eexists _, _. reflexivity. }
  intros _. apply returns_try_catch. apply returns_ret.
Qed.

Lemma closeSession_absent k (st : State W) :
  SMap.get k (sessions st) = None -> closeSession drv k st = (Ok tt, st).
Proof. intros G. unfold closeSession, bind, getSessions. now rewrite G. Qed.

End ReturnFacts.

(** X4: [prepareSession], [execute], [closeSession] and the cleanup sweep
    return a result whatever the driver's calls do: every exception of the
    driver is caught inside them. *)
Theorem operations_return :
  forall W (drv : Driver W) lower,
    (forall id sm, returns (prepareSession drv id sm)) /\
    (forall request, returns (execute drv lower request)) /\
    (forall id, returns (closeSession drv id)) /\
    returns (cleanupSessions drv).
Proof.
  intros W drv lower. split; [|split; [|split]].
  - apply returns_prepareSession.
  - apply returns_execute.
  - apply returns_closeSession.
  - apply returns_cleanupSessions.
Qed.

(** X5: [closeSession] leaves the id without a session and every other
    session as it was, also when closing the page or the context throws;
    for an id that has no session it calls nothing and changes nothing, so
    closing a second time is a no-op. *)
Theorem closeSession_effect :
  forall W (drv : Driver W) k (st : State W),
    NoDup (SMap.keys (sessions st)) ->
    exists st',
      closeSession drv k st = (Ok tt, st') /\
      SMap.get k (sessions st') = None /\
      (forall k', k' <> k -> SMap.get k' (sessions st') = SMap.get k' (sessions st)) /\
      (SMap.get k (sessions st) = None -> st' = st) /\
      closeSession drv k st' = (Ok tt, st').
Proof.
  intros W drv k st N.
  destruct (closeSession_spec drv k st) as [st' [E [S _]]].
  assert (G : SMap.get k (sessions st') = None).
  { rewrite S. now apply get_delete_same. }
  exists st'. split; [assumption|]. split; [assumption|].
  split; [|split].
  - intros k' Hne. rewrite S. now apply get_delete_other.
  - intros G0. rewrite (closeSession_absent drv k st G0) in E. now inversion E.
  - now apply closeSession_absent.
Qed.

Lemma closeSession_effect_witness :
  exists st',
    closeSession Sim.driver (Sim.site 10) Sim.full = (Ok tt, st') /\
    SMap.get (Sim.site 10) (sessions st') = None /\
    (forall k', k' <> Sim.site 10 ->
                SMap.get k' (sessions st') = SMap.get k' (sessions Sim.full)) /\
    (SMap.get (Sim.site 10) (sessions Sim.full) = None -> st' = Sim.full) /\
    closeSession Sim.driver (Sim.site 10) st' = (Ok tt, st').
Proof.
  apply (closeSession_effect Sim.World Sim.driver (Sim.site 10) Sim.full).
  apply distinct_NoDup. vm_compute. reflexivity.
Defined.

Section LiveFacts.

Context {W : Type} (drv : Driver W) (lower : jsstring -> jsstring).

Lemma execute_live_state request (st : State W) session t0 w0 t1 w1 w2 :
  SMap.get (req_site_id request) (sessions st) = Some session ->
  drv_now drv (world st) = (t0, w0) ->
  drv_now drv w0 = (t1, w1) ->
  drv_probe drv (page session) w1 = (Ok tt, w2) ->
  sessions (snd (execute drv lower request st)) =
    SMap.set (req_site_id request) (touched session t1) (sessions st) /\
  detached (snd (execute drv lower request st)) = detached st.
Proof.
  intros G N0 N1 P.
  cut (exists st', snd (execute drv lower request st) = st' /\
                   sessions st' =
                     SMap.set (req_site_id request) (touched session t1)
                       (sessions st) /\
                   detached st' = detached st).
  { intros [st' [<- H]]. exact H. }
  unfold execute. unfold bind at 1, getSessions at 1. rewrite G.
  assert (E0 : dateNow drv st =
               (Ok t0, {| world := w0; log := log st; browser := browser st;
                          sessions := sessions st; isReady := isReady st;
                          detached := detached st |})).
  { unfold dateNow. now rewrite N0. }
  rewrite (bind_ok _ _ _ _ _ E0).
  match goal with
  | |- context [bind (dateNow drv) _ ?s] =>
    assert (E1 : dateNow drv s =
                 (Ok t1, {| world := w1; log := log st; browser := browser st;
                            sessions := sessions st; isReady := isReady st;
                            detached := detached st |}))
  end.
  { unfold dateNow. cbn [world]. now rewrite N1. }
  rewrite (bind_ok _ _ _ _ _ E1).
  unfold touch at 1. unfold bind at 1, getSessions at 1.
  unfold bind at 1, putSessions at 1, with_sessions.
  cbn [world log browser sessions isReady detached]. fold (touched session t1).
  unfold try_catch at 1.
  match goal with
  | |- context [bind (try_catch ?probe ?handler) _ ?s] =>
    assert (R : try_catch probe handler s =
                (Ok None,
                 {| world := w2;
                    log := log st ++ [(CEvaluate (page session) ProbeScript, true)];
                    browser := browser st;
                    sessions := SMap.set (req_site_id request)
                                  (touched session t1) (sessions st);
                    isReady := isReady st;
                    detached := detached st |}))
  end.
  { unfold try_catch, bind, evaluateProbe, invoke. cbn [world].
    now rewrite P. }
  rewrite (bind_ok _ _ _ _ _ R).
  pose proof (execute_tail_quiet drv lower session (req_keywords request)
                (req_data request)) as Q.
  pose proof (execute_tail_calm drv lower session (req_keywords request)
                (req_data request)) as C.
  match goal with
  | |- exists st', snd (let (_, _) := ?m ?s in _) = st' /\ _ =>
    pose proof (C s) as Cs; destruct (m s) as [[a|] st3] eqn:T
  end; cbn [snd detached] in Cs.
  - exists st3. split; [reflexivity|].
    rewrite (quiet_sessions _ _ _ _ Q T). split; [reflexivity | exact Cs].
  - exists st3. split; [reflexivity|].
    rewrite (quiet_sessions _ _ _ _ Q T). split; [reflexivity | exact Cs].
Qed.

Lemma execute_live_store request (st : State W) session t0 w0 t1 w1 w2 :
  SMap.get (req_site_id request) (sessions st) = Some session ->
  drv_now drv (world st) = (t0, w0) ->
  drv_now drv w0 = (t1, w1) ->
  drv_probe drv (page session) w1 = (Ok tt, w2) ->
  sessions (snd (execute drv lower request st)) =
    SMap.set (req_site_id request) (touched session t1) (sessions st).
Proof.
  intros G N0 N1 P.
  exact (proj1 (execute_live_state request st session t0 w0 t1 w1 w2 G N0 N1 P)).
Qed.

End LiveFacts.

(** X6: when the page of the session answers the liveness check, [execute]
    changes nothing in the store but the [lastActivity] of that session,
    which becomes the clock reading taken on entry; the keys, their order
    and every other session stay as they were, whatever the action does. *)
Theorem execute_live_touches_only :
  forall W (drv : Driver W) lower request (st : State W) session t0 w0 t1 w1 w2,
    SMap.get (req_site_id request) (sessions st) = Some session ->
    drv_now drv (world st) = (t0, w0) ->
    drv_now drv w0 = (t1, w1) ->
    drv_probe drv (page session) w1 = (Ok tt, w2) ->
    sessions (snd (execute drv lower request st)) =
      SMap.set (req_site_id request) (touched session t1) (sessions st) /\
    SMap.keys (sessions (snd (execute drv lower request st))) =
      SMap.keys (sessions st).
Proof.
  intros W drv lower request st session t0 w0 t1 w1 w2 G N0 N1 P.
  pose proof (execute_live_store drv lower request st session t0 w0 t1 w1 w2
                G N0 N1 P) as S.
  split; [exact S|]. rewrite S.
  destruct (keys_set (req_site_id request) (touched session t1) (sessions st))
    as [K | [Hn _]]; [exact K|].
  exfalso. apply (get_keys (req_site_id request) (sessions st)) in Hn. congruence.
Qed.

Lemma execute_live_touches_only_witness :
  sessions (snd (execute Sim.driver Sim.lower Runs.bookingRequest Fixtures.one)) =
    SMap.set (Sim.site 0) (touched Fixtures.session0 2504) (sessions Fixtures.one) /\
  SMap.keys (sessions (snd (execute Sim.driver Sim.lower Runs.bookingRequest
                              Fixtures.one))) =
    SMap.keys (sessions Fixtures.one).
Proof.
  apply (execute_live_touches_only Sim.World Sim.driver Sim.lower
           Runs.bookingRequest Fixtures.one Fixtures.session0
           2503 (snd (drv_now Sim.driver (world Fixtures.one)))
           2504 (snd (drv_now Sim.driver (snd (drv_now Sim.driver (world Fixtures.one)))))
           (snd (drv_now Sim.driver (snd (drv_now Sim.driver (world Fixtures.one))))));
    vm_compute; reflexivity.
Defined.

(* ------------------------------------------------------------------ *)
(** ** matchAction: what it refers to, and the order of its rules *)

Lemma clickOn_fromSiteMap lower keywords siteMap data p b :
  find p (buttons siteMap) = Some b ->
  fromSiteMap lower keywords siteMap data (clickOn b).
Proof.
  intros F. apply find_some in F. destruct F as [Hin _].
  exists b. auto.
Qed.

Lemma matchAction_fromSiteMap :
  forall lower keywords siteMap data,
    fromSiteMap lower keywords siteMap data
      (matchAction lower keywords siteMap data).
Proof.
  intros lower keywords siteMap data. unfold matchAction.
  fold (mentions lower keywords PATTERNS.booking).
  fold (mentions lower keywords PATTERNS.prices).
  fold (mentions lower keywords PATTERNS.contact).
  fold (mentions lower keywords PATTERNS.rooms).
  fold (mentions lower keywords PATTERNS.search).
  destruct (mentions lower keywords PATTERNS.booking || hasDates data);
    [destruct (find dateForm (forms siteMap)) as [form|] eqn:Ff;
      [apply find_some in Ff; unfold fromSiteMap; tauto|];
     destruct (find (taggedOrMatches lower booking PATTERNS.booking)
                    (buttons siteMap)) eqn:Fb;
      [now apply clickOn_fromSiteMap with (p := taggedOrMatches lower booking PATTERNS.booking)|]|];
  (destruct (mentions lower keywords PATTERNS.prices) eqn:Mp;
    [destruct (prices siteMap) eqn:Pp; [|unfold fromSiteMap; rewrite Pp; split; [discriminate | exact Mp]]|]);
  (destruct (mentions lower keywords PATTERNS.contact) eqn:Mc;
    [destruct (find (taggedOrMatches lower contact PATTERNS.contact)
                    (buttons siteMap)) eqn:Fc;
      [now apply clickOn_fromSiteMap with (p := taggedOrMatches lower contact PATTERNS.contact)
      | exact Mc]|]);
  (destruct (mentions lower keywords PATTERNS.rooms);
    [destruct (find (textMatches lower PATTERNS.rooms) (buttons siteMap)) eqn:Fr;
      [now apply clickOn_fromSiteMap with (p := textMatches lower PATTERNS.rooms)|]|]);
  (destruct (mentions lower keywords PATTERNS.search);
    [destruct (find (taggedOrMatches lower submit PATTERNS.search)
                    (buttons siteMap)) eqn:Fs;
      [now apply clickOn_fromSiteMap with (p := taggedOrMatches lower submit PATTERNS.search)|]|]);
  match goal with
  | |- context [find ?q (buttons siteMap)] =>
    destruct (find q (buttons siteMap)) eqn:Fk;
      [exact (clickOn_fromSiteMap lower keywords siteMap data q _ Fk) | exact I]
  end.
Qed.

(** X7: whatever the request, the descriptor that [matchAction] returns
    refers to the site map only: a [fill_form] carries a form of the site
    map that bears a date and the request's data, a [click] carries the
    selector and text of one of its buttons, [return_prices] is returned
    only when it has prices and a price word was mentioned,
    [return_contact] only when a contact word was mentioned; [navigate] is
    never returned. *)
Theorem matchAction_targets :
  forall lower keywords siteMap data,
    fromSiteMap lower keywords siteMap data
      (matchAction lower keywords siteMap data).
Proof. exact matchAction_fromSiteMap. Qed.

(** X8: for a site map without buttons, forms and prices the matcher
    returns [return_contact] when a contact word is mentioned and
    [observe] otherwise, whatever else the keywords and the data say. *)
Theorem matchAction_bare_site :
  forall lower keywords siteMap data,
    buttons siteMap = [] -> forms siteMap = [] -> prices siteMap = [] ->
    matchAction lower keywords siteMap data =
    if mentions lower keywords PATTERNS.contact then return_contact else observe.
Proof.
  intros lower keywords siteMap data Hb Hf Hp. unfold matchAction.
  fold (mentions lower keywords PATTERNS.booking).
  fold (mentions lower keywords PATTERNS.prices).
  fold (mentions lower keywords PATTERNS.contact).
  fold (mentions lower keywords PATTERNS.rooms).
  fold (mentions lower keywords PATTERNS.search).
  rewrite Hb, Hf, Hp. cbn [find].
  destruct (mentions lower keywords PATTERNS.booking || hasDates data);
    destruct (mentions lower keywords PATTERNS.prices);
    destruct (mentions lower keywords PATTERNS.contact); try reflexivity;
    destruct (mentions lower keywords PATTERNS.rooms);
    destruct (mentions lower keywords PATTERNS.search); reflexivity.
Qed.

Lemma matchAction_bare_site_witness :
  matchAction Sim.lower [js "резервация"; js "телефон"] Sites.bare
    (Some Runs.data_ex) = return_contact.
Proof.
  rewrite (matchAction_bare_site Sim.lower [js "резервация"; js "телефон"]
             Sites.bare (Some Runs.data_ex) eq_refl eq_refl eq_refl).
  vm_compute. reflexivity.
Defined.

(** X9: the order of the rules.  When the booking rule has nothing to
    return (no booking word and no date, or neither a date-bearing form
    nor a booking button), a mentioned price word with a non-empty price
    list gives [return_prices], also when contact words and contact
    buttons are present; and when the price rule has nothing to return
    either, a mentioned contact word ends the cascade: the first button
    tagged contact or with a contact word in its text is clicked, and
    without one the result is [return_contact]. *)
Theorem matchAction_rule_order :
  forall lower keywords siteMap data,
    (mentions lower keywords PATTERNS.booking || hasDates data = false \/
     (find dateForm (forms siteMap) = None /\
      find (taggedOrMatches lower booking PATTERNS.booking) (buttons siteMap) = None)) ->
    (mentions lower keywords PATTERNS.prices = true -> prices siteMap <> [] ->
     matchAction lower keywords siteMap data = return_prices) /\
    (mentions lower keywords PATTERNS.prices = false \/ prices siteMap = [] ->
     mentions lower keywords PATTERNS.contact = true ->
     matchAction lower keywords siteMap data =
     match find (taggedOrMatches lower contact PATTERNS.contact) (buttons siteMap) with
     | Some b => clickOn b
     | None => return_contact
     end).
Proof.
  intros lower keywords siteMap data HB.
  assert (E : matchAction lower keywords siteMap data =
              if mentions lower keywords PATTERNS.prices
                 && match prices siteMap with [] => false | _ => true end
              then return_prices
              else if mentions lower keywords PATTERNS.contact
                   then match find (taggedOrMatches lower contact PATTERNS.contact)
                                   (buttons siteMap) with
                        | Some b => clickOn b
                        | None => return_contact
                        end
                   else matchAction lower keywords siteMap data).
  { unfold matchAction at 1.
    fold (mentions lower keywords PATTERNS.booking).
    fold (mentions lower keywords PATTERNS.prices).
    fold (mentions lower keywords PATTERNS.contact).
    assert (B : (if mentions lower keywords PATTERNS.booking || hasDates data
                 then match find dateForm (forms siteMap) with
                      | Some form => Some (fill_form form data)
                      | None =>
                        match find (taggedOrMatches lower booking PATTERNS.booking)
                                   (buttons siteMap) with
                        | Some bookBtn => Some (clickOn bookBtn)
                        | None => None
                        end
                      end
                 else None) = None).
    { destruct HB as [-> | [-> ->]]; [reflexivity|].
      now destruct (mentions lower keywords PATTERNS.booking || hasDates data). }
    rewrite B.
    destruct (mentions lower keywords PATTERNS.prices) eqn:Mp;
      destruct (prices siteMap) eqn:Pp; cbn [andb]; try reflexivity;
      (destruct (mentions lower keywords PATTERNS.contact) eqn:Mc;
       [destruct (find (taggedOrMatches lower contact PATTERNS.contact)
                       (buttons siteMap)); reflexivity|]);
      unfold matchAction;
      fold (mentions lower keywords PATTERNS.booking);
      fold (mentions lower keywords PATTERNS.prices);
      fold (mentions lower keywords PATTERNS.contact);
      rewrite B, Mp, Mc, ?Pp; reflexivity. }
  split.
  - intros Mp Hp. rewrite E, Mp. now destruct (prices siteMap).
  - intros Hp Mc. rewrite E, Mc.
    destruct Hp as [-> | ->]; [reflexivity | now rewrite andb_false_r].
Qed.

Lemma matchAction_rule_order_witness :
  matchAction Sim.lower [js "цена"; js "контакт"] Sites.priced None = return_prices /\
  matchAction Sim.lower [js "контакт"] Sites.priced None = clickOn Sites.contactBtn_ex.
Proof.
  split.
  - apply (matchAction_rule_order Sim.lower [js "цена"; js "контакт"]
             Sites.priced None).
    + left. vm_compute. reflexivity.
    + vm_compute. reflexivity.
    + discriminate.
  - rewrite (proj2 (matchAction_rule_order Sim.lower [js "контакт"] Sites.priced None
                      (or_introl eq_refl))).
    + vm_compute. reflexivity.
    + left. vm_compute. reflexivity.
    + vm_compute. reflexivity.
Defined.

(* ------------------------------------------------------------------ *)
(** ** execute adds no session *)

Lemma within_refl m : within m m.
Proof. split; [apply incl_refl | lia]. Qed.

Lemma within_delete k m : within (SMap.delete k m) m.
Proof.
  split; [intros k' H; now apply keys_delete_subset in H | apply size_delete_le].
Qed.

Lemma within_trans m1 m2 m3 : within m1 m2 -> within m2 m3 -> within m1 m3.
Proof.
  intros [I1 S1] [I2 S2]. split; [eapply incl_tran; eassumption | lia].
Qed.

Lemma within_deleteAll ks : forall m, within (deleteAll ks m) m.
Proof.
  induction ks as [|k ks IH]; intros m; [apply within_refl|].
  cbn [deleteAll fold_left]. fold (deleteAll ks (SMap.delete k m)).
  eapply within_trans; [apply IH | apply within_delete].
Qed.

Lemma within_set_present k v m : SMap.get k m <> None -> within (SMap.set k v m) m.
Proof.
  intros G. split.
  - destruct (keys_set k v m) as [-> | [Hn _]]; [apply incl_refl|].
    exfalso. apply G. now apply get_keys.
  - rewrite size_set_present; [lia | assumption].
Qed.

(** Replacing the session of a key that is held adds nothing. *)
Lemma within_replace id new m' m :
  SMap.get id m <> None -> within m' (SMap.delete id m) ->
  within (SMap.set id new m') m.
Proof.
  intros G [I S].
  pose proof (size_delete_present id m G) as D.
  assert (Hin : In id (SMap.keys m)).
  { destruct (in_dec (list_eq_dec N.eq_dec) id (SMap.keys m)) as [H|H];
      [assumption|]. exfalso. apply G. now apply get_keys. }
  split.
  - intros k Hk.
    destruct (keys_set id new m') as [E | [_ E]]; rewrite E in Hk.
    + apply I in Hk. now apply keys_delete_subset in Hk.
    + apply in_app_or in Hk. destruct Hk as [Hk | [<- | []]]; [|assumption].
      apply I in Hk. now apply keys_delete_subset in Hk.
  - pose proof (size_set_le id new m'). lia.
Qed.

Section GrowthFacts.

Context {W : Type} (drv : Driver W) (lower : jsstring -> jsstring).

Lemma prepareSession_replaces id sm (st : State W) :
  SMap.get id (sessions st) <> None ->
  within (sessions (snd (prepareSession drv id sm st))) (sessions st).
Proof.
  intros G.
  destruct (isReady st) eqn:Hr; [destruct (browser st) as [b|] eqn:Hb|].
  - destruct (prepareSession_spec drv id sm st b Hr Hb)
      as [ok [st' [E [_ [[ks S] _]]]]].
    rewrite E. cbn [snd]. destruct ok.
    + destruct S as [new [_ ->]].
      apply within_replace; [exact G | apply within_deleteAll].
    + rewrite S. eapply within_trans; [apply within_deleteAll | apply within_delete].
  - rewrite prepareSession_unready; [apply within_refl | now right].
  - rewrite prepareSession_unready; [apply within_refl | now left].
Qed.

Lemma execute_within request (st : State W) :
  within (sessions (snd (execute drv lower request st))) (sessions st).
Proof.
  unfold execute. unfold bind at 1, getSessions at 1.
  destruct (SMap.get (req_site_id request) (sessions st)) as [session|] eqn:G;
    [|apply within_refl].
  destruct (dateNow_frame drv st) as [t0 [st0 [E0 [S0 _]]]].
  rewrite (bind_ok _ _ _ _ _ E0).
  destruct (dateNow_frame drv st0) as [t1 [st1 [E1 [S1 _]]]].
  rewrite (bind_ok _ _ _ _ _ E1).
  unfold touch at 1. unfold bind at 1, getSessions at 1.
  unfold bind at 1, putSessions at 1.
  set (st2 := with_sessions _ st1).
  assert (W2 : within (sessions st2) (sessions st)).
  { subst st2. unfold with_sessions. cbn [sessions]. rewrite S1, S0.
    apply within_set_present. congruence. }
  assert (G2 : SMap.get (req_site_id request) (sessions st2) <> None).
  { subst st2. unfold with_sessions. cbn [sessions]. rewrite get_set_same.
    discriminate. }
  clearbody st2.
  eapply within_trans; [|exact W2].
  unfold try_catch at 1. unfold bind at 1.
  match goal with
  | |- context [try_catch ?probe ?handler st2] =>
    assert (R : within (sessions (snd (try_catch probe handler st2))) (sessions st2));
      [|destruct (try_catch probe handler st2) as [[returned|] st3]]
  end.
  { unfold try_catch, bind at 1, evaluateProbe, invoke.
    destruct (drv_probe drv (page session) (world st2)) as [[[]|] w];
      cbn [is_ok]; [apply within_refl|].
    match goal with
    | |- context [bind (prepareSession drv ?id ?sm) _ ?s] =>
      pose proof (prepareSession_replaces id sm s G2) as P;
        destruct (prepareSession_returns drv id sm s) as [ok [st4 E]]
    end.
    rewrite E in P. rewrite (bind_ok _ _ _ _ _ E). unfold bind, getSessions, ret.
    cbn [snd sessions] in P.
    destruct (SMap.get (req_site_id request) (sessions st4)); exact P. }
  - cbn [snd] in R. destruct returned as [result|]; [exact R|].
    pose proof (execute_tail_quiet drv lower session (req_keywords request)
                  (req_data request)) as Q.
    match goal with
    | |- context [bind ?m ?k st3] => change (bind m k) with (bind m k) ;
      destruct (bind m k st3) as [[a|] st5] eqn:T
    end.
    + cbn [snd]. now rewrite (quiet_sessions _ _ _ _ Q T).
    + unfold ret. cbn [snd]. now rewrite (quiet_sessions _ _ _ _ Q T).
  - exact R.
Qed.

End GrowthFacts.

(** X10: [execute] adds no session: whatever the request and whatever the
    driver does, every site id of the store afterwards was one before,
    and the store holds no more sessions than before, also when the page
    was found dead and the session was opened again. *)
Theorem execute_adds_no_session :
  forall W (drv : Driver W) lower request (st : State W),
    within (sessions (snd (execute drv lower request st))) (sessions st).
Proof. intros W drv lower request st. apply execute_within. Qed.

(* ------------------------------------------------------------------ *)
(** ** The keywords that interact extracts *)

Lemma splitSpaces_head s :
  exists tok toks post, splitSpaces s false = tok :: toks /\ s = tok ++ post.
Proof.
  induction s as [|c s IH]; cbn [splitSpaces].
  - now exists [], [], [].
  - destruct (space c).
    + now exists [], (splitSpaces s true), (c :: s).
    + destruct IH as [tok [toks [post [-> E]]]].
      exists (c :: tok), toks, post. split; [reflexivity|]. cbn. now rewrite <- E.
Qed.

Lemma splitSpaces_pieces s : forall inSep tok,
  In tok (splitSpaces s inSep) ->
  Forall (fun c => space c = false) tok /\ exists pre post, s = pre ++ tok ++ post.
Proof.
  induction s as [|c s IH]; intros inSep tok; cbn [splitSpaces].
  - intros [<- | []]. split; [constructor | now exists [], []].
  - destruct (space c) eqn:Sc.
    + assert (R : In tok (splitSpaces s true) ->
                  Forall (fun c => space c = false) tok /\
                  exists pre post, c :: s = pre ++ tok ++ post).
      { intros H. destruct (IH true tok H) as [F [pre [post E]]].
        split; [assumption|]. exists (c :: pre), post. cbn. now rewrite <- E. }
      destruct inSep; [exact R|].
      intros [<- | H]; [|now apply R].
      split; [constructor | now exists [], (c :: s)].
    + destruct (splitSpaces_head s) as [hd [toks [post [E Es]]]].
      rewrite E. intros [<- | H].
      * split.
        -- constructor; [assumption|]. apply (IH false hd). rewrite E. now left.
        -- exists [], post. cbn. now rewrite <- Es.
      * destruct (IH false tok) as [F [pre [post' E']]]; [rewrite E; now right|].
        split; [assumption|]. exists (c :: pre), post'. cbn. now rewrite <- E'.
Qed.

Lemma map_fixed {A} (f : A -> A) (l : list A) :
  Forall (fun c => f c = c) l -> map f l = l.
Proof. induction 1; cbn; congruence. Qed.

(** X11: every keyword that [interact] extracts from a message has more
    than two code units, holds no white space and none of the replaced
    punctuation marks, and is a piece of the lower-cased message. *)
Theorem extractKeywords_tokens :
  forall toLowerCase message w,
    In w (extractKeywords toLowerCase message) ->
    2 < List.length w /\
    Forall (fun c => space c = false /\ punctuation c = false) w /\
    exists pre post, toLowerCase message = pre ++ w ++ post.
Proof.
  intros toLowerCase message w H. unfold extractKeywords in H.
  apply filter_In in H. destruct H as [H L]. apply Nat.ltb_lt in L.
  split; [exact L|].
  apply splitSpaces_pieces in H. destruct H as [F [pre [post E]]].
  apply map_eq_app in E. destruct E as [l1 [l23 [E [E1 E23]]]].
  apply map_eq_app in E23. destruct E23 as [l2 [l3 [E23 [E2 E3]]]].
  assert (P : Forall (fun c => punctuation c = false) l2).
  { rewrite <- E2 in F. rewrite Forall_map in F.
    apply Forall_impl with (2 := F). intros c Hc.
    revert Hc. destruct (punctuation c); [|reflexivity].
    intros Hc. vm_compute in Hc. discriminate Hc. }
  assert (Eq : w = l2).
  { rewrite <- E2. apply map_fixed. apply Forall_impl with (2 := P).
    intros c ->. reflexivity. }
  clear E2. subst w. split.
  - rewrite Forall_forall in F, P. apply Forall_forall.
    intros c Hc. split; [now apply F | now apply P].
  - exists l1, l3. rewrite E, E23. reflexivity.
Qed.

Lemma extractKeywords_tokens_witness :
  2 < List.length (js "резервация") /\
  Forall (fun c => space c = false /\ punctuation c = false) (js "резервация") /\
  exists pre post,
    Sim.lower (js "Искам  РЕЗЕРВАЦИЯ, моля (за 2)!") = pre ++ js "резервация" ++ post.
Proof.
  apply (extractKeywords_tokens Sim.lower (js "Искам  РЕЗЕРВАЦИЯ, моля (за 2)!")).
  vm_compute. right. left. reflexivity.
Defined.

(* ------------------------------------------------------------------ *)
(** ** The legacy entry point *)

Lemma since_app {W} (st st' : State W) evs :
  log st' = log st ++ evs -> since st st' = evs.
Proof.
  intros E. unfold since. rewrite E.
  rewrite skipn_app, skipn_all, Nat.sub_diag. reflexivity.
Qed.

Lemma set_last k v v' m :
  SMap.get k m = None -> SMap.set k v' (m ++ [(k, v)]) = m ++ [(k, v')].
Proof.
  induction m as [|[k0 v0] m IH]; cbn.
  - now rewrite jseqb_refl.
  - destruct (jseqb k k0); [discriminate|]. intros G. now rewrite IH.
Qed.

Lemma created_not_session id :
  js "[LEGACY] Session created" <> js "[LEGACY] Session: " ++ id.
Proof.
  intros H. apply (f_equal (fun l => nth 16 l 0%N)) in H.
  vm_compute in H. discriminate H.
Qed.

Lemma created_not_creating :
  js "[LEGACY] Session created" <> js "[LEGACY] No hot session, creating...".
Proof. intros H. vm_compute in H. discriminate H. Qed.

Lemma created_not_failed error :
  js "[LEGACY] Session created" <> js "[LEGACY] Failed to create session: " ++ error.
Proof.
  intros H. apply (f_equal (fun l => nth 9 l 0%N)) in H.
  vm_compute in H. discriminate H.
Qed.

Section LegacyFacts.

Context {W : Type} (drv : Driver W) (ext : DriverExt W).
Context (lower upper : jsstring -> jsstring).

Ltac call_legacy :=
  match goal with
  | |- context [drv_newContext ?d ?w] => destruct (drv_newContext d w) as [[?|] ?]
  | |- context [drv_newPage ?d ?c ?w] => destruct (drv_newPage d c w) as [[?|] ?]
  | |- context [drv_goto ?d ?p ?u ?t ?w] => destruct (drv_goto d p u t w) as [[[]|] ?]
  | |- context [drv_waitForTimeout ?d ?p ?t ?w] =>
    destruct (drv_waitForTimeout d p t w) as [[[]|] ?]
  | |- context [drv_observeDOM ?e ?p ?w] => destruct (drv_observeDOM e p w) as [[?|] ?]
  | |- context [drv_url ?d ?p ?w] => destruct (drv_url d p w) as [? ?]
  | |- context [drv_now ?d ?w] => destruct (drv_now d w) as [? ?]
  end; cbn.

(** The creation block: it returns, closes nothing, and either adds the
    session of the request's id, with a site map made from the page, or
    leaves the store alone and reports the failure. *)
Lemma createOnTheFly_spec request logs0 (st : State W) :
  exists r st' evs,
    createOnTheFly drv ext lower upper request logs0 st = (Ok r, st') /\
    browser st' = browser st /\ isReady st' = isReady st /\
    log st' = log st ++ evs /\ Forall noClose evs /\
    match r with
    | inl logs1 =>
      logs1 = logs0 ++ [js "[LEGACY] Session created"] /\
      exists new observation,
        siteMap new = legacySiteMap lower upper request observation /\
        sessions st' = SMap.set (session_id request) new (sessions st)
    | inr result =>
      sessions st' = sessions st /\
      exists error,
        logs result = logs0 ++ [js "[LEGACY] Failed to create session: " ++ error]
    end.
Proof.
  unfold createOnTheFly. cbv zeta.
  set (target := if truthy (site_url request)
                    && negb (startsWith (site_url request) (js "http"))
                 then js "https://" ++ site_url request
                 else site_url request).
  clearbody target.
  unfold observeDOM, perform, errorText.
  unfold try_catch, bind, newContext, newPage, goto, waitForTimeout, pageUrl, invoke,
    total, dateNow, getSessions, putSessions, ret, with_sessions.
  destruct (truthy target);
    repeat call_legacy;
    (do 3 eexists; split; [reflexivity|]; cbn;
     split; [reflexivity|]; split; [reflexivity|];
     split; [rewrite <- ?app_assoc; try reflexivity;
             symmetry; apply app_nil_r|];
     split; [repeat (apply Forall_cons; [intros q; discriminate|]); apply Forall_nil|]);
    try (split; [reflexivity|]; eexists; reflexivity);
    (split; [reflexivity|]; eexists;
     first [ eexists; (split; [|reflexivity]); reflexivity
           | exists ([], []); (split; [|reflexivity]); reflexivity ]).
Qed.

Lemma returns_createOnTheFly request logs0 :
  returns (createOnTheFly drv ext lower upper request logs0).
Proof.
  intros st. destruct (createOnTheFly_spec request logs0 st) as [r [st' [evs [E _]]]].
  now exists r, st'.
Qed.

Lemma returns_interact request : returns (interact drv ext lower upper request).
Proof.
  unfold interact. cbv zeta.
  apply returns_bind; [intros st; now exists (sessions st), st|]. intros m.
  apply returns_bind.
  - destruct (SMap.get (session_id request) m); [apply returns_ret|].
    apply returns_bind; [intros st; now exists (browser st), st|].
    intros [b|]; [apply returns_createOnTheFly | apply returns_ret].
  - intros [logs1|result]; [|apply returns_ret].
    apply returns_bind; [apply returns_execute|]. intros. apply returns_ret.
Qed.

(** [execute] on a site that has a session either only touches that
    session or asks its page to close. *)
Lemma execute_touches_or_closes request (st : State W) s :
  SMap.get (req_site_id request) (sessions st) = Some s ->
  (exists t, sessions (snd (execute drv lower request st)) =
             SMap.set (req_site_id request) (touched s t) (sessions st)) \/
  logged st (snd (execute drv lower request st)) (CPageClose (page s)).
Proof.
  intros G.
  cut (exists st', snd (execute drv lower request st) = st' /\
                   ((exists t, sessions st' =
                               SMap.set (req_site_id request) (touched s t) (sessions st)) \/
                    logged st st' (CPageClose (page s)))).
  { intros [st' [-> H]]. exact H. }
  unfold execute. unfold bind at 1, getSessions at 1. rewrite G.
  destruct (dateNow_frame drv st) as [t0 [st0 [E0 [S0 F0]]]].
  rewrite (bind_ok _ _ _ _ _ E0).
  destruct (dateNow_frame drv st0) as [t1 [st1 [E1 [S1 F1]]]].
  rewrite (bind_ok _ _ _ _ _ E1).
  unfold touch at 1. unfold bind at 1, getSessions at 1.
  unfold bind at 1, putSessions at 1. fold (touched s t1).
  set (st2 := with_sessions _ st1).
  assert (S2 : sessions st2 = SMap.set (req_site_id request) (touched s t1) (sessions st)).
  { subst st2. unfold with_sessions. cbn [sessions]. now rewrite S1, S0. }
  assert (F2 : frame st st2).
  { apply (frame_trans _ _ _ F0). apply (frame_trans _ _ _ F1).
    subst st2. unfold with_sessions, frame. cbn. repeat split.
    exists []. now rewrite app_nil_r. }
  assert (G2 : SMap.get (req_site_id request) (sessions st2) = Some (touched s t1)).
  { rewrite S2. apply get_set_same. }
  clearbody st2.
  unfold try_catch at 1. unfold bind at 1.
  pose proof (execute_tail_quiet drv lower s (req_keywords request)
                (req_data request)) as Q.
  match goal with
  | |- context [try_catch ?probe ?handler st2] =>
    assert (R : exists returned st3,
               try_catch probe handler st2 = (Ok returned, st3) /\
               ((sessions st3 = sessions st2 /\ frame st2 st3) \/
                (frame st2 st3 /\ logged st2 st3 (CPageClose (page s)))))
  end.
  { unfold try_catch, bind at 1, evaluateProbe, invoke.
    destruct (drv_probe drv (page s) (world st2)) as [[[]|] w]; cbn [is_ok].
    - unfold ret. eexists None, _. split; [reflexivity|]. left. cbn.
      repeat split. eexists. reflexivity.
    - set (st3 := {| world := w |}).
      assert (F3 : frame st2 st3).
      { subst st3. unfold frame. cbn. repeat split. eexists. reflexivity. }
      assert (G3 : SMap.get (req_site_id request) (sessions st3) = Some (touched s t1)).
      { exact G2. }
      assert (S3 : sessions st3 = sessions st2) by reflexivity.
      clearbody st3.
      destruct (isReady st3) eqn:Hr; [destruct (browser st3) as [b|] eqn:Hb|].
      + destruct (prepareSession_spec drv (req_site_id request) (siteMap s) st3 b Hr Hb)
          as [ok [st4 [E [F4 [_ L]]]]].
        rewrite (bind_ok _ _ _ _ _ E). unfold bind, getSessions, ret.
        specialize (L _ G3). cbn [touched page] in L.
        assert (LL : logged st2 st4 (CPageClose (page s))).
        { apply (logged_frame st2 st3 st4 st4 _ F3 L (frame_refl st4)). }
        destruct (SMap.get (req_site_id request) (sessions st4));
          eexists _, st4; (split; [reflexivity|]); right;
          (split; [apply (frame_trans _ _ _ F3 F4) | exact LL]).
      + rewrite (bind_ok _ _ _ _ _
                   (prepareSession_unready drv (req_site_id request) (siteMap s) st3
                      (or_intror Hb))).
        unfold bind, getSessions, ret. rewrite G3.
        eexists None, st3. split; [reflexivity|]. left. now split.
      + rewrite (bind_ok _ _ _ _ _
                   (prepareSession_unready drv (req_site_id request) (siteMap s) st3
                      (or_introl Hr))).
        unfold bind, getSessions, ret. rewrite G3.
        eexists None, st3. split; [reflexivity|]. left. now split. }
  destruct R as [returned [st3 [R C]]]. rewrite R.
  assert (T : exists st5,
             snd (let (r, st') :=
                    match returned with
                    | Some result => ret result
                    | None =>
                      bind (runAction drv lower s
                              (matchAction lower (req_keywords request) (siteMap s)
                                 (req_data request)))
                        (fun result =>
                           bind (dateNow drv)
                             (fun _ => ret {| success := true;
                                              message := act_message result;
                                              observation := act_observation result |}))
                    end st3 in
                  match r with
                  | Ok a => (Ok a, st')
                  | Throw => ret (failure (js "Грешка при изпълнение")) st'
                  end) = st5 /\
             sessions st5 = sessions st3 /\ frame st3 st5).
  { destruct returned as [result|].
    - exists st3. unfold ret. cbn. repeat split. exists []. now rewrite app_nil_r.
    - destruct (Q st3) as [Sq Fq].
      match goal with
      | |- context [bind ?m ?k st3] => destruct (bind m k st3) as [[a|] st5]
      end; exists st5; unfold ret; cbn [snd] in *;
        (split; [reflexivity|]; split; assumption). }
  destruct T as [st5 [-> [S5 F5]]]. exists st5. split; [reflexivity|].
  destruct C as [[S3 F3] | [F3 L]].
  - left. exists t1. now rewrite S5, S3.
  - right. apply (logged_frame st st2 st3 st5 _ F2 L F5).
Qed.

Lemma withinOwn_of_within id m1 m2 m3 :
  within m1 m2 -> withinOwn id m2 m3 -> withinOwn id m1 m3.
Proof.
  intros [I1 S1] [I2 S2]. split; [eapply incl_tran; eassumption | lia].
Qed.

Lemma interact_withinOwn request (st : State W) :
  withinOwn (session_id request)
    (sessions (snd (interact drv ext lower upper request st))) (sessions st).
Proof.
  assert (Refl : withinOwn (session_id request) (sessions st) (sessions st)).
  { split; [apply incl_tl, incl_refl | lia]. }
  unfold interact. cbv zeta. unfold bind at 1, getSessions at 1.
  assert (Run : forall logs1 (st1 : State W),
             withinOwn (session_id request) (sessions st1) (sessions st) ->
             withinOwn (session_id request)
               (sessions
                  (snd
                     (bind
                        (execute drv lower
                           {| req_site_id := session_id request;
                              req_keywords := extractKeywords lower (user_message request);
                              req_data := booking_data request |})
                        (fun result =>
                           ret {| i_success := success result;
                                  i_message := message result;
                                  i_observation := observation result;
                                  action_taken :=
                                    if success result then Some (message result) else None;
                                  logs :=
                                    logs1 ++
                                    [js "[LEGACY] Result: " ++
                                     if success result then js "success" else js "failed"]
                               |}) st1)))
               (sessions st)).
  { intros logs1 st1 H. unfold bind.
    pose proof (execute_within drv lower
                  {| req_site_id := session_id request;
                     req_keywords := extractKeywords lower (user_message request);
                     req_data := booking_data request |} st1) as X.
    destruct (execute drv lower _ st1) as [[r|] st2]; cbn [snd] in *;
      apply (withinOwn_of_within _ _ _ _ X H). }
  destruct (SMap.get (session_id request) (sessions st)) eqn:G.
  - unfold bind at 1, ret at 1. now apply Run.
  - unfold bind at 1. unfold bind at 1, getBrowser at 1.
    destruct (browser st); [|exact Refl].
    destruct (createOnTheFly_spec request
                ([js "[LEGACY] Session: " ++ session_id request] ++
                 [js "[LEGACY] No hot session, creating..."]) st)
      as [r [st1 [evs [E [_ [_ [_ [_ C]]]]]]]].
    rewrite E. destruct r as [logs1|result].
    + apply Run. destruct C as [_ [new [obs [_ ->]]]].
      rewrite (set_absent _ _ _ G). split.
      * unfold SMap.keys. rewrite map_app. cbn. intros k Hk.
        apply in_app_or in Hk. destruct Hk as [Hk | [<- | []]];
          [now right | now left].
      * unfold SMap.size. rewrite length_app. cbn. lia.
    + unfold ret. cbn [snd]. destruct C as [-> _]. exact Refl.
Qed.

(** A session created on the fly stays at the end of the store when
    nothing is closed. *)
Lemma interact_created request (st : State W) r st' :
  SMap.get (session_id request) (sessions st) = None ->
  interact drv ext lower upper request st = (Ok r, st') ->
  In (js "[LEGACY] Session created") (logs r) ->
  Forall noClose (since st st') ->
  exists new observation,
    siteMap new = legacySiteMap lower upper request observation /\
    sessions st' = sessions st ++ [(session_id request, new)].
Proof.
  intros G E Hlog Hc. unfold interact in E. cbv zeta in E.
  unfold bind at 1, getSessions at 1 in E. rewrite G in E.
  unfold bind at 1 in E. unfold bind at 1, getBrowser at 1 in E.
  destruct (browser st).
  2:{ unfold ret in E. inversion E; subst. cbn [logs] in Hlog.
      destruct Hlog as [H | [H | []]]; exfalso;
        [symmetry in H; now apply created_not_session in H
        | symmetry in H; now apply created_not_creating in H]. }
  destruct (createOnTheFly_spec request
              ([js "[LEGACY] Session: " ++ session_id request] ++
               [js "[LEGACY] No hot session, creating..."]) st)
    as [c [st1 [evs [E1 [B1 [R1 [L1 [N1 C]]]]]]]].
  rewrite E1 in E. destruct c as [logs1|result].
  2:{ unfold ret in E. inversion E; subst. destruct C as [_ [error EL]].
      rewrite EL in Hlog. apply in_app_or in Hlog.
      destruct Hlog as [[H | [H | []]] | [H | []]]; exfalso; symmetry in H;
        [now apply created_not_session in H
        | now apply created_not_creating in H
        | now apply created_not_failed in H]. }
  destruct C as [_ [new [obs [Hsm S1]]]].
  rewrite (set_absent _ _ _ G) in S1.
  set (req := {| req_site_id := session_id request;
                 req_keywords := extractKeywords lower (user_message request);
                 req_data := booking_data request |}) in E.
  assert (G1 : SMap.get (req_site_id req) (sessions st1) = Some new).
  { cbn [req req_site_id]. rewrite S1.
    destruct (SMap.get (session_id request) (sessions st ++ [(session_id request, new)]))
      as [x|] eqn:Gx.
    - apply get_In in Gx. apply in_app_or in Gx.
      destruct Gx as [Gx | [Gx | []]]; [|now inversion Gx].
      exfalso. apply In_get in Gx. congruence.
    - exfalso. apply get_keys in Gx. apply Gx. unfold SMap.keys.
      rewrite map_app. apply in_or_app. right. now left. }
  pose proof (execute_touches_or_closes req st1 new G1) as X.
  unfold bind in E.
  destruct (execute drv lower req st1) as [[res|] st2] eqn:Ex; [|discriminate E].
  unfold ret in E. inversion E; subst st'. cbn [snd] in X.
  destruct X as [[t X] | [evs2 [ok2 [L2 Hin]]]].
  - exists (touched new t), obs. split; [exact Hsm|].
    rewrite X, S1. cbn [req req_site_id]. now apply set_last.
  - exfalso. rewrite L1, <- app_assoc in L2.
    rewrite (since_app st st2 _ L2) in Hc.
    rewrite Forall_forall in Hc.
    apply (Hc (CPageClose (page new), ok2) ) with (p := page new); [|reflexivity].
    apply in_or_app. now right.
Qed.

End LegacyFacts.

(** X12: [interact] returns a result whatever the driver's calls do, also
    when the session has to be created on the fly and when the page
    cannot be observed. *)
Theorem interact_returns :
  forall W (drv : Driver W) (ext : DriverExt W) lower upper request,
    returns (interact drv ext lower upper request).
Proof. intros W drv ext lower upper request. apply returns_interact. Qed.

(** X13: one call of [interact] adds at most one session, and only under
    the session id of the request: every other site id of the store
    afterwards was one before. *)
Theorem interact_adds_at_most_own :
  forall W (drv : Driver W) (ext : DriverExt W) lower upper request (st : State W),
    withinOwn (session_id request)
      (sessions (snd (interact drv ext lower upper request st))) (sessions st).
Proof. intros W drv ext lower upper request st. apply interact_withinOwn. Qed.

(** X14: the session that [interact] creates on the fly is added without a
    look at the session limit.  When the id has no session, the log of
    the result tells that one was created, and no page was asked to
    close, the store afterwards is the store before with the new session
    at its end, one session more whatever the size was; its site map is
    the one made from the page observation, with no forms. *)
Theorem interact_ignores_session_limit :
  forall W (drv : Driver W) (ext : DriverExt W) lower upper request
         (st st' : State W) r,
    SMap.get (session_id request) (sessions st) = None ->
    interact drv ext lower upper request st = (Ok r, st') ->
    In (js "[LEGACY] Session created") (logs r) ->
    Forall noClose (since st st') ->
    SMap.size (sessions st') = S (SMap.size (sessions st)) /\
    exists new,
      sessions st' = sessions st ++ [(session_id request, new)] /\
      forms (siteMap new) = [] /\ site_id (siteMap new) = session_id request.
Proof.
  intros W drv ext lower upper request st st' r G E Hlog Hc.
  destruct (interact_created drv ext lower upper request st r st' G E Hlog Hc)
    as [new [obs [Hsm S]]].
  split.
  - rewrite S. unfold SMap.size. rewrite length_app. cbn. lia.
  - exists new. rewrite Hsm. now repeat split.
Qed.

Lemma interact_ignores_session_limit_witness :
  SMap.size (sessions Sim.full) = MAX_SESSIONS /\
  SMap.size (sessions (snd (interact Sim.driver SimExt.ext Sim.lower SimExt.upper
                              Newcomer.request Sim.full))) = S MAX_SESSIONS.
Proof.
  split; [vm_compute; reflexivity|].
  destruct (interact Sim.driver SimExt.ext Sim.lower SimExt.upper
              Newcomer.request Sim.full) as [r st'] eqn:E.
  destruct r as [r|]; [|vm_compute in E; discriminate E].
  assert (F : SMap.size (sessions Sim.full) = MAX_SESSIONS) by (vm_compute; reflexivity).
  rewrite <- F. cbn [snd].
  apply (interact_ignores_session_limit Sim.World Sim.driver SimExt.ext Sim.lower
           SimExt.upper Newcomer.request Sim.full st' r).
  - vm_compute. reflexivity.
  - exact E.
  - assert (L : logs r = logs (match fst (interact Sim.driver SimExt.ext Sim.lower
                                            SimExt.upper Newcomer.request Sim.full)
                               with Ok x => x | Throw => r end)) by now rewrite E.
    rewrite L. vm_compute. right. right. left. reflexivity.
  - assert (L : since Sim.full st' =
                since Sim.full (snd (interact Sim.driver SimExt.ext Sim.lower
                                       SimExt.upper Newcomer.request Sim.full)))
      by now rewrite E.
    rewrite L. vm_compute. repeat (apply Forall_cons; [intros q; discriminate|]).
    apply Forall_nil.
Defined.

(* ------------------------------------------------------------------ *)
(** ** Shutdown, and the life of the manager *)

Lemma within_nil m : within m [] -> m = [].
Proof. intros [_ S]. destruct m; [reflexivity | cbn in S; lia]. Qed.

Section LifeFacts.

Context {W : Type} (drv : Driver W) (ext : DriverExt W).
Context (lower upper : jsstring -> jsstring).

Lemma steady_of_frame {A} (m : M W A) :
  (forall st, frame st (snd (m st))) -> steady m.
Proof. intros H st. destruct (H st) as [B [R _]]. now split. Qed.

Lemma steady_quiet {A} (m : M W A) : quiet m -> steady m.
Proof. intros Q. apply steady_of_frame. intros st. apply Q. Qed.

Lemma steady_bind {A B} (m : M W A) (k : A -> M W B) :
  steady m -> (forall a, steady (k a)) -> steady (bind m k).
Proof.
  intros Hm Hk st. unfold bind. specialize (Hm st).
  destruct (m st) as [[a|] st1]; cbn [snd] in *; [|exact Hm].
  destruct (Hk a st1) as [B1 R1]. destruct Hm as [B0 R0]. split; congruence.
Qed.

Lemma steady_try_catch {A} (m h : M W A) :
  steady m -> steady h -> steady (try_catch m h).
Proof.
  intros Hm Hh st. unfold try_catch. specialize (Hm st).
  destruct (m st) as [[a|] st1]; cbn [snd] in *; [exact Hm|].
  destruct (Hh st1) as [B1 R1]. destruct Hm as [B0 R0]. split; congruence.
Qed.

Lemma steady_closeSession k : steady (closeSession drv k).
Proof.
  apply steady_of_frame. intros st.
  destruct (closeSession_spec drv k st) as [st' [E [_ [F _]]]]. now rewrite E.
Qed.

Lemma steady_cleanupSessions : steady (cleanupSessions drv).
Proof.
  apply steady_of_frame. intros st.
  destruct (cleanupSessions_spec drv st) as [st' [E [_ F]]]. now rewrite E.
Qed.

Lemma steady_prepareSession id sm : steady (prepareSession drv id sm).
Proof.
  apply steady_of_frame. intros st.
  destruct (isReady st) eqn:Hr; [destruct (browser st) as [b|] eqn:Hb|].
  - destruct (prepareSession_spec drv id sm st b Hr Hb) as [ok [st' [E [F _]]]].
    now rewrite E.
  - rewrite prepareSession_unready; [apply frame_refl | now right].
  - rewrite prepareSession_unready; [apply frame_refl | now left].
Qed.

Lemma steady_ret {A} (a : A) : steady (W:=W) (ret a).
Proof. intros st. now split. Qed.

Lemma steady_execute request : steady (execute drv lower request).
Proof.
  unfold execute. apply steady_bind; [intros st; now split|]. intros m.
  destruct (SMap.get (req_site_id request) m) as [session|]; [|apply steady_ret].
  apply steady_bind; [apply steady_quiet, quiet_dateNow|]. intros t0.
  apply steady_bind; [apply steady_quiet, quiet_dateNow|]. intros t1.
  apply steady_bind; [intros st; now split|]. intros _.
  apply steady_try_catch; [|apply steady_ret].
  apply steady_bind.
  - apply steady_try_catch.
    + apply steady_quiet. apply quiet_bind; [|intros; apply quiet_ret].
      apply quiet_invoke.
    + apply steady_bind; [apply steady_prepareSession|]. intros _.
      apply steady_bind; [intros st; now split|]. intros m'.
      destruct (SMap.get _ m'); apply steady_ret.
  - intros [result|]; [apply steady_ret|].
    apply steady_quiet, execute_tail_quiet.
Qed.

Lemma steady_createOnTheFly request logs0 :
  steady (createOnTheFly drv ext lower upper request logs0).
Proof.
  intros st.
  destruct (createOnTheFly_spec drv ext lower upper request logs0 st)
    as [r [st' [evs [E [B [R _]]]]]].
  rewrite E. now split.
Qed.

Lemma steady_interact request : steady (interact drv ext lower upper request).
Proof.
  unfold interact. cbv zeta.
  apply steady_bind; [intros st; now split|]. intros m.
  apply steady_bind.
  - destruct (SMap.get (session_id request) m); [apply steady_ret|].
    apply steady_bind; [intros st; now split|].
    intros [b|]; [apply steady_createOnTheFly | apply steady_ret].
  - intros [logs1|result]; [|apply steady_ret].
    apply steady_bind; [apply steady_execute|]. intros. apply steady_ret.
Qed.

(** The loop of [shutdown], run on the keys of the store: it returns,
    every session is gone, and the page of each was asked to close. *)
Lemma closeAll_spec : forall (m : SessionMap) (st : State W),
  sessions st = m ->
  exists st',
    closeAll drv (SMap.keys m) st = (Ok tt, st') /\
    sessions st' = [] /\ frame st st' /\
    forall k s, In (k, s) m -> logged st st' (CPageClose (page s)).
Proof.
  induction m as [|[k v] m IH]; intros st Hs; cbn [SMap.keys map closeAll fst].
  - exists st. unfold ret. split; [reflexivity|]. split; [exact Hs|].
    split; [apply frame_refl|]. intros k s [].
  - destruct (closeSession_spec drv k st) as [st1 [E [S [F L]]]].
    rewrite (bind_ok _ _ _ _ _ E).
    assert (S1 : sessions st1 = m).
    { rewrite S, Hs. cbn. now rewrite jseqb_refl. }
    destruct (IH st1 S1) as [st2 [E2 [S2 [F2 L2]]]].
    exists st2. split; [exact E2|]. split; [exact S2|].
    split; [apply (frame_trans _ _ _ F F2)|].
    intros k0 s0 [Heq | Hin].
    + inversion Heq; subst k0 s0.
      destruct (L v) as [b [evs EL]].
      { rewrite Hs. cbn. now rewrite jseqb_refl. }
      apply (logged_frame st st st1 st2 _ (frame_refl st)); [|exact F2].
      exists ((CPageClose (page v), b) :: evs), b. split; [exact EL | now left].
    + apply (logged_frame st st1 st2 st2 _ F (L2 _ _ Hin) (frame_refl st2)).
Qed.

Lemma shutdown_spec (st : State W) :
  sessions (snd (shutdown drv ext st)) = [] /\
  frame st (snd (shutdown drv ext st)) /\
  forall k s, In (k, s) (sessions st) ->
              logged st (snd (shutdown drv ext st)) (CPageClose (page s)).
Proof.
  cut (exists st', snd (shutdown drv ext st) = st' /\
                   sessions st' = [] /\ frame st st' /\
                   forall k s, In (k, s) (sessions st) ->
                               logged st st' (CPageClose (page s))).
  { intros [st' [-> H]]. exact H. }
  unfold shutdown. unfold bind at 1, getSessions at 1.
  destruct (closeAll_spec (sessions st) st eq_refl) as [st1 [E [S [F L]]]].
  rewrite (bind_ok _ _ _ _ _ E). unfold bind, getBrowser.
  destruct (browser st1).
  - unfold perform. destruct (drv_browserClose ext (world st1)) as [r w].
    eexists. split; [reflexivity|]. cbn. split; [exact S|].
    destruct F as [B [R [evs EL]]].
    split; [repeat split; try assumption; now exists evs|].
    intros k s Hin. destruct (L k s Hin) as [evs' [b' [EL' Hin']]].
    now exists evs', b'.
  - exists st1. unfold ret. split; [reflexivity|]. split; [exact S|].
    split; [exact F | exact L].
Qed.

(** One call keeps the manager started or not started. *)
Lemma Started_serve r (st : State W) :
  Started st -> Started (serve drv ext lower upper r st).
Proof.
  intros [HR HS].
  assert (Keep : forall st' : State W,
             browser st' = browser st /\ isReady st' = isReady st ->
             (isReady st = false -> sessions st' = []) ->
             Started st').
  { intros st' [B R] E. unfold Started. rewrite B, R. split; [exact HR|].
    intros Hne. destruct (isReady st); [reflexivity|].
    exfalso. apply Hne. now apply E. }
  assert (Empty : isReady st = false -> sessions st = [] /\ browser st = None).
  { intros Hr. split.
    - destruct (sessions st) as [|e m] eqn:Es; [reflexivity|].
      assert (X : isReady st = true) by (apply HS; discriminate). congruence.
    - destruct (browser st) eqn:Eb; [|reflexivity].
      assert (X : isReady st = true) by (apply HR; discriminate). congruence. }
  destruct r as [[|id sm|request|id|]|request|]; cbn [serve step].
  - unfold start, bind, invoke.
    destruct (drv_launch drv (world st)) as [[b|] w]; cbn [snd].
    + split; cbn; [split; [discriminate | reflexivity] | reflexivity].
    + split; cbn; assumption.
  - apply Keep; [apply steady_prepareSession|]. intros Hr.
    rewrite prepareSession_unready; [now apply Empty | now left].
  - apply Keep; [apply steady_execute|]. intros Hr.
    apply within_nil. destruct (Empty Hr) as [<- _]. apply execute_within.
  - apply Keep; [apply steady_closeSession|]. intros Hr.
    destruct (closeSession_spec drv id st) as [st' [E [S _]]].
    rewrite E. cbn [snd]. rewrite S. destruct (Empty Hr) as [-> _]. reflexivity.
  - apply Keep; [apply steady_cleanupSessions|]. intros Hr.
    destruct (cleanupSessions_spec drv st) as [st' [E [S _]]].
    rewrite E. cbn [snd]. destruct (Empty Hr) as [Es _]. now rewrite S.
  - apply Keep; [apply steady_interact|]. intros Hr.
    destruct (Empty Hr) as [Es Eb].
    unfold interact. cbv zeta. unfold bind at 1, getSessions at 1. rewrite Es.
    cbn [SMap.get]. unfold bind at 1. unfold bind at 1, getBrowser at 1.
    rewrite Eb. unfold ret. cbn [snd]. exact Es.
  - destruct (shutdown_spec st) as [S [[B [R _]] _]].
    apply Keep; [now split|]. intros _. exact S.
Qed.

Lemma Started_serveAll rs : forall st : State W,
  Started st -> Started (serveAll drv ext lower upper rs st).
Proof.
  induction rs as [|r rs IH]; intros st H; [exact H|].
  cbn [serveAll fold_left]. apply IH. now apply Started_serve.
Qed.

End LifeFacts.

(** X15: [shutdown] closes every session: afterwards the store is empty,
    also when closing a page or the browser throws, and the page of every
    session the store held was asked to close.  The browser handle and the
    ready flag stay as they were, so the status read afterwards reports
    no session and the same readiness as before. *)
Theorem shutdown_empties_store :
  forall W (drv : Driver W) (ext : DriverExt W) (st : State W),
    sessions (snd (shutdown drv ext st)) = [] /\
    (forall k s, In (k, s) (sessions st) ->
                 logged st (snd (shutdown drv ext st)) (CPageClose (page s))) /\
    browser (snd (shutdown drv ext st)) = browser st /\
    fst (getStatus (snd (shutdown drv ext st))) =
      Ok {| status_ready := isReady st; status_sessions := 0;
            status_maxSessions := MAX_SESSIONS; status_activeSites := [] |}.
Proof.
  intros W drv ext st. destruct (shutdown_spec drv ext st) as [S [[B [R _]] L]].
  split; [exact S|]. split; [exact L|]. split; [exact B|].
  unfold getStatus. cbn [fst]. now rewrite S, R.
Qed.

(** X16: whatever calls are made on a manager after its construction, and
    whatever the driver does, it is ready exactly when it holds a
    browser, and it holds no session unless it is ready: no session
    exists before [start] has launched the browser. *)
Theorem sessions_need_start :
  forall W (drv : Driver W) (ext : DriverExt W) lower upper requests (w : W),
    Started (serveAll drv ext lower upper requests (created w)).
Proof.
  intros W drv ext lower upper requests w. apply Started_serveAll.
  split; cbn; [split; [discriminate | congruence] | congruence].
Qed.

(** X17: a session that [interact] created on the fly has a site map
    without forms, so the matcher never answers [fill_form] for it, and a
    [click] it answers carries the selector and the text of a button
    observed on the page. *)
Theorem legacy_session_never_fills_form :
  forall lower upper request observation keywords data,
    match matchAction lower keywords
            (legacySiteMap lower upper request observation) data with
    | fill_form _ _ => False
    | click selector buttonText =>
      exists b, In b (fst observation) /\
                selector = dom_selector b /\ buttonText = Some (dom_text b)
    | _ => True
    end.
Proof.
  intros lower upper request observation keywords data.
  pose proof (matchAction_fromSiteMap lower keywords
                (legacySiteMap lower upper request observation) data) as H.
  destruct (matchAction lower keywords _ data) as [form d|selector t| | |target|];
    cbn [fromSiteMap] in H; try exact I.
  - destruct H as [[] _].
  - destruct H as [b [Hin [-> ->]]]. cbn [legacySiteMap buttons] in Hin.
    apply in_map_iff in Hin. destruct Hin as [d [<- Hd]].
    exists d. now repeat split.
Qed.

(* ------------------------------------------------------------------ *)
(** ** Requests without data *)

Lemma resolveValue_without_data lower field :
  resolveValue lower field None =
  if consultsData lower field then Throw else Ok None.
Proof.
  unfold resolveValue, consultsData, member. cbv zeta.
  destruct (keywordsMeet PATTERNS.check_in _);
    destruct (keywordsMeet PATTERNS.check_out _);
    destruct (keywordsMeet PATTERNS.guests _); reflexivity.
Qed.

Section NoDataFacts.

Context {W : Type} (drv : Driver W) (lower : jsstring -> jsstring).

Lemma fillFields_without_data page : forall flds actions (st : State W),
  fillFields drv lower page flds None actions st =
  if existsb (consultsData lower) flds then (Throw, st) else (Ok actions, st).
Proof.
  induction flds as [|field rest IH]; intros actions st; cbn [fillFields existsb].
  - reflexivity.
  - unfold bind at 1, lift at 1. rewrite resolveValue_without_data.
    destruct (consultsData lower field); cbn [orb]; [reflexivity|].
    cbn [truthy_opt]. unfold bind at 1, ret at 1. apply IH.
Qed.

Lemma fillForm_None page form (st : State W) :
  fillForm drv lower page form None st =
  if existsb (consultsData lower) (fields form) then (Throw, st)
  else bind (quickObserve drv page)
         (fun observation =>
            ret (snapshot (js "Не успях да попълня формата") observation)) st.
Proof.
  unfold fillForm. unfold bind at 1. rewrite fillFields_without_data.
  destruct (existsb (consultsData lower) (fields form)); [reflexivity|].
  cbn [List.length Nat.ltb Nat.leb]. rewrite andb_false_r.
  unfold bind at 1, ret at 1. reflexivity.
Qed.

Lemma execute_without_data request (st : State W) session form t0 w0 t1 w1 w2 :
  SMap.get (req_site_id request) (sessions st) = Some session ->
  req_data request = None ->
  mentions lower (req_keywords request) PATTERNS.booking = true ->
  find dateForm (forms (siteMap session)) = Some form ->
  existsb (consultsData lower) (fields form) = true ->
  drv_now drv (world st) = (t0, w0) ->
  drv_now drv w0 = (t1, w1) ->
  drv_probe drv (page session) w1 = (Ok tt, w2) ->
  fst (execute drv lower request st) = Ok executionFailed /\
  log (snd (execute drv lower request st)) =
    log st ++ [(CEvaluate (page session) ProbeScript, true)].
Proof.
  intros G D Mb Ff Cd N0 N1 P.
  cut (exists r, execute drv lower request st = r /\
                 fst r = Ok executionFailed /\
                 log (snd r) = log st ++ [(CEvaluate (page session) ProbeScript, true)]).
  { intros [r [-> H]]. exact H. }
  unfold execute. unfold bind at 1, getSessions at 1. rewrite G.
  assert (E0 : dateNow drv st =
               (Ok t0, {| world := w0; log := log st; browser := browser st;
                          sessions := sessions st; isReady := isReady st;
                          detached := detached st |})).
  { unfold dateNow. now rewrite N0. }
  rewrite (bind_ok _ _ _ _ _ E0).
  match goal with
  | |- context [bind (dateNow drv) _ ?s] =>
    assert (E1 : dateNow drv s =
                 (Ok t1, {| world := w1; log := log st; browser := browser st;
                            sessions := sessions st; isReady := isReady st;
                          detached := detached st |}))
  end.
  { unfold dateNow. cbn [world]. now rewrite N1. }
  rewrite (bind_ok _ _ _ _ _ E1).
  unfold touch at 1. unfold bind at 1, getSessions at 1.
  unfold bind at 1, putSessions at 1, with_sessions.
  cbn [world log browser sessions isReady].
  unfold try_catch at 1.
  match goal with
  | |- context [bind (try_catch ?probe ?handler) _ ?s] =>
    assert (R : try_catch probe handler s =
                (Ok None,
                 {| world := w2;
                    log := log st ++ [(CEvaluate (page session) ProbeScript, true)];
                    browser := browser st;
                    sessions := sessions s;
                    isReady := isReady st;
                          detached := detached st |}))
  end.
  { unfold try_catch, bind, evaluateProbe, invoke. cbn [world].
    now rewrite P. }
  rewrite (bind_ok _ _ _ _ _ R).
  rewrite D.
  rewrite (matchAction_booking_form lower (req_keywords request) (siteMap session)
             None form); [|unfold mentions in Mb; now rewrite Mb|exact Ff].
  cbn [runAction]. unfold bind at 1. rewrite fillForm_None, Cd.
  eexists. split; [reflexivity|]. unfold ret, executionFailed. cbn. now split.
Qed.

End NoDataFacts.

(** X18: [fillForm] without data.  When the request carried no data, the
    form filler throws, before any call on the page, as soon as a field
    of the form has a keyword of the check-in, check-out or guests
    vocabulary; when no field has one, it touches nothing but the final
    snapshot and answers that the form could not be filled. *)
Theorem fillForm_without_data :
  forall W (drv : Driver W) lower page form (st : State W),
    fillForm drv lower page form None st =
    if existsb (consultsData lower) (fields form) then (Throw, st)
    else bind (quickObserve drv page)
           (fun observation =>
              ret (snapshot (js "Не успях да попълня формата") observation)) st.
Proof. intros W drv lower page form st. apply fillForm_None. Qed.

(** X19: a booking request without data on a live session whose site map
    has a date-bearing form with a check-in, check-out or guests keyword
    fails: [execute] answers the general execution error, with no
    success, and the liveness check is the only call made on the page. *)
Theorem execute_booking_without_data_fails :
  forall W (drv : Driver W) lower request (st : State W) session form
         t0 w0 t1 w1 w2,
    SMap.get (req_site_id request) (sessions st) = Some session ->
    req_data request = None ->
    mentions lower (req_keywords request) PATTERNS.booking = true ->
    find dateForm (forms (siteMap session)) = Some form ->
    existsb (consultsData lower) (fields form) = true ->
    drv_now drv (world st) = (t0, w0) ->
    drv_now drv w0 = (t1, w1) ->
    drv_probe drv (page session) w1 = (Ok tt, w2) ->
    fst (execute drv lower request st) = Ok executionFailed /\
    log (snd (execute drv lower request st)) =
      log st ++ [(CEvaluate (page session) ProbeScript, true)].
Proof.
  intros W drv lower request st session form t0 w0 t1 w1 w2.
  apply execute_without_data.
Qed.

Lemma execute_booking_without_data_fails_witness :
  fst (execute Sim.driver Sim.lower Bare.request Fixtures.one) = Ok executionFailed /\
  log (snd (execute Sim.driver Sim.lower Bare.request Fixtures.one)) =
    log Fixtures.one ++ [(CEvaluate 1 ProbeScript, true)].
Proof.
  apply (execute_booking_without_data_fails Sim.World Sim.driver Sim.lower
           Bare.request Fixtures.one Fixtures.session0 Sim.form_ex
           2503 (snd (drv_now Sim.driver (world Fixtures.one)))
           2504 (snd (drv_now Sim.driver (snd (drv_now Sim.driver (world Fixtures.one)))))
           (snd (drv_now Sim.driver (snd (drv_now Sim.driver (world Fixtures.one))))));
    vm_compute; reflexivity.
Defined.

(* ------------------------------------------------------------------ *)
(** ** The cause of the execution error *)

Lemma noSession_not_executionFailed : failure noSessionMessage <> executionFailed.
Proof.
  intros H. apply (f_equal message) in H. vm_compute in H. discriminate H.
Qed.

Lemma recovery_not_executionFailed : failure recoveryMessage <> executionFailed.
Proof.
  intros H. apply (f_equal message) in H. vm_compute in H. discriminate H.
Qed.

Section ExecutorFacts.

Context {W : Type} (drv : Driver W) (lower : jsstring -> jsstring).

Lemma returns_invoke_caught {A} c (op : W -> Exc A * W) (a : A) :
  returns (try_catch (invoke c op) (ret a)).
Proof. apply returns_try_catch, returns_ret. Qed.

Lemma returns_quickObserve p : returns (quickObserve drv p).
Proof. apply returns_try_catch, returns_ret. Qed.

Lemma returns_trySelectors p field v : forall sels,
  returns (trySelectors drv p field v sels).
Proof.
  induction sels as [|sel rest IH]; cbn [trySelectors]; [apply returns_ret|].
  apply returns_bind; [apply returns_try_catch, returns_ret|].
  intros [|]; [apply returns_ret | exact IH].
Qed.

Lemma returns_fillFields p d : forall flds actions,
  returns (fillFields drv lower p flds (Some d) actions).
Proof.
  induction flds as [|field rest IH]; intros actions; cbn [fillFields];
    [apply returns_ret|].
  apply returns_bind.
  { destruct (resolveValue_data lower field d) as [v ->].
    intros st. now exists v, st. }
  intros value. apply returns_bind; [|intros; apply IH].
  destruct (truthy_opt value); [|apply returns_ret].
  apply returns_try_catch, returns_ret.
Qed.

Lemma returns_fillForm p form d : returns (fillForm drv lower p form (Some d)).
Proof.
  unfold fillForm. apply returns_bind; [apply returns_fillFields|]. intros actions.
  apply returns_bind.
  { destruct (truthy (submit_button form) && (0 <? List.length actions));
      [apply returns_try_catch|]; apply returns_ret. }
  intros actions'. apply returns_bind; [apply returns_quickObserve|].
  intros. apply returns_ret.
Qed.

Lemma returns_clickButton p sel t : returns (clickButton drv p sel t).
Proof. apply returns_try_catch, returns_ret. Qed.

Lemma returns_getContactInfo p : returns (getContactInfo drv p).
Proof. apply returns_try_catch, returns_ret. Qed.

Lemma returns_navigateTo p target : returns (navigateTo drv p target).
Proof. apply returns_try_catch, returns_ret. Qed.

Lemma returns_observeCurrentState p : returns (observeCurrentState drv p).
Proof.
  unfold observeCurrentState. apply returns_bind; [apply returns_quickObserve|].
  intros. apply returns_ret.
Qed.

(** The only executor that lets an exception out is the form filler
    reading a member of data that is not there. *)
Lemma runAction_throws session action (st st' : State W) :
  runAction drv lower session action st = (Throw, st') ->
  exists form,
    action = fill_form form None /\
    existsb (consultsData lower) (fields form) = true.
Proof.
  intros E.
  assert (No : forall m : M W ActionResult, returns m -> m st <> (Throw, st')).
  { intros m R H. destruct (R st) as [a [st1 E1]]. congruence. }
  destruct action as [form [d|]|sel t| | |target|]; cbn [runAction] in E.
  - exfalso. apply (No _ (returns_fillForm (page session) form d) E).
  - exists form. split; [reflexivity|].
    rewrite fillForm_None in E.
    destruct (existsb (consultsData lower) (fields form)); [reflexivity|].
    exfalso. revert E. apply No.
    apply returns_bind; [apply returns_quickObserve | intros; apply returns_ret].
  - exfalso. apply (No _ (returns_clickButton (page session) sel t) E).
  - discriminate E.
  - exfalso. apply (No _ (returns_getContactInfo (page session)) E).
  - exfalso. apply (No _ (returns_navigateTo (page session) target) E).
  - exfalso. apply (No _ (returns_observeCurrentState (page session)) E).
Qed.

Lemma execute_failed_cause request (st : State W) :
  fst (execute drv lower request st) = Ok executionFailed ->
  exists session form,
    SMap.get (req_site_id request) (sessions st) = Some session /\
    req_data request = None /\
    matchAction lower (req_keywords request) (siteMap session) None =
      fill_form form None /\
    In form (forms (siteMap session)) /\
    existsb (consultsData lower) (fields form) = true.
Proof.
  unfold execute. unfold bind at 1, getSessions at 1.
  destruct (SMap.get (req_site_id request) (sessions st)) as [session|] eqn:G.
  2:{ unfold ret. cbn [fst]. intros H. exfalso.
      exact (noSession_not_executionFailed
               (f_equal (fun r => match r with Ok x => x | Throw => executionFailed end)
                        H)). }
  destruct (dateNow_frame drv st) as [t0 [st0 [E0 [S0 F0]]]].
  rewrite (bind_ok _ _ _ _ _ E0).
  destruct (dateNow_frame drv st0) as [t1 [st1 [E1 [S1 F1]]]].
  rewrite (bind_ok _ _ _ _ _ E1).
  unfold touch at 1. unfold bind at 1, getSessions at 1.
  unfold bind at 1, putSessions at 1.
  match goal with
  | |- fst (try_catch _ _ ?s) = _ -> _ =>
    destruct (recovery_spec drv (req_site_id request) session s)
      as [returned [st2 [R Hr]]]
  end.
  { unfold with_sessions. cbn [sessions]. rewrite get_set_same. discriminate. }
  unfold recoveryMessage in R.
  unfold try_catch at 1. rewrite (bind_ok _ _ _ _ _ R).
  destruct returned as [result|].
  { unfold ret. cbn [fst]. intros H. exfalso. subst result.
    exact (recovery_not_executionFailed
             (f_equal (fun r => match r with Ok x => x | Throw => executionFailed end)
                      H)). }
  unfold bind at 1.
  destruct (runAction drv lower session
              (matchAction lower (req_keywords request) (siteMap session)
                 (req_data request)) st2) as [[a|] st3] eqn:Ea.
  - destruct (dateNow_frame drv st3) as [t3 [st4 [E3 _]]].
    rewrite (bind_ok _ _ _ _ _ E3). unfold ret. cbn [fst].
    intros H.
    pose proof (f_equal (fun r => match r with
                                  | Ok x => success x
                                  | Throw => false
                                  end) H) as X.
    discriminate X.
  - intros _. destruct (runAction_throws _ _ _ _ Ea) as [form [Ha Hc]].
    pose proof (matchAction_fromSiteMap lower (req_keywords request)
                  (siteMap session) (req_data request)) as T.
    rewrite Ha in T. cbn [fromSiteMap] in T. destruct T as [Hin [_ Hd]].
    exists session, form. split; [reflexivity|]. split; [now symmetry|].
    split; [rewrite <- Hd in Ha; exact Ha|]. split; assumption.
Qed.

End ExecutorFacts.

(** X20: the general execution error has one cause.  With site maps,
    requests and driver results of the declared types, [execute] answers
    that error only when the request carried no data, the matcher chose a
    form of the site map to fill, and a field of that form has a keyword
    of the check-in, check-out or guests vocabulary; every other
    exception of the driver is absorbed by the executors. *)
Theorem execute_error_has_one_cause :
  forall W (drv : Driver W) lower request (st : State W),
    fst (execute drv lower request st) = Ok executionFailed ->
    exists session form,
      SMap.get (req_site_id request) (sessions st) = Some session /\
      req_data request = None /\
      matchAction lower (req_keywords request) (siteMap session) None =
        fill_form form None /\
      In form (forms (siteMap session)) /\
      existsb (consultsData lower) (fields form) = true.
Proof. intros W drv lower request st. apply execute_failed_cause. Qed.

Lemma execute_error_has_one_cause_witness :
  exists session form,
    SMap.get (req_site_id Bare.request) (sessions Fixtures.one) = Some session /\
    req_data Bare.request = None /\
    matchAction Sim.lower (req_keywords Bare.request) (siteMap session) None =
      fill_form form None /\
    In form (forms (siteMap session)) /\
    existsb (consultsData Sim.lower) (fields form) = true.
Proof.
  apply (execute_error_has_one_cause Sim.World Sim.driver Sim.lower Bare.request
           Fixtures.one).
  vm_compute. reflexivity.
Defined.

(* ------------------------------------------------------------------ *)
(** ** Sessions in use, and clicks on labelled buttons *)

Lemma get_filter k s (f : jsstring * HotSession -> bool) : forall m,
  SMap.get k m = Some s -> f (k, s) = true -> SMap.get k (filter f m) = Some s.
Proof.
  induction m as [|[k0 v0] m IH]; cbn [SMap.get filter]; [discriminate|].
  destruct (jseqb k k0) eqn:E.
  - intros H F. inversion H; subst v0. apply jseqb_eq in E. subst k0.
    rewrite F. cbn [SMap.get]. now rewrite jseqb_refl.
  - intros H F. destruct (f (k0, v0)); [cbn [SMap.get]; rewrite E|]; now apply IH.
Qed.

Section ActiveFacts.

Context {W : Type} (drv : Driver W) (lower : jsstring -> jsstring).

Lemma live_then_sweep request (st : State W) session t0 w0 t1 w1 w2 :
  NoDup (SMap.keys (sessions st)) ->
  SMap.get (req_site_id request) (sessions st) = Some session ->
  drv_now drv (world st) = (t0, w0) ->
  drv_now drv w0 = (t1, w1) ->
  drv_probe drv (page session) w1 = (Ok tt, w2) ->
  (fst (drv_now drv (world (snd (execute drv lower request st)))) - t1
   <= SESSION_TIMEOUT)%Z ->
  SMap.get (req_site_id request)
    (sessions (snd (cleanupSessions drv (snd (execute drv lower request st))))) =
  Some (touched session t1) /\
  (detached st = [] ->
   forall order,
     detached
       (snd (turns drv order
               (snd (cleanupSessions drv (snd (execute drv lower request st)))))) =
     [] ->
     SMap.get (req_site_id request)
       (sessions
          (snd (turns drv order
                  (snd (cleanupSessions drv
                          (snd (execute drv lower request st))))))) =
     Some (touched session t1)).
Proof.
  intros N G N0 N1 P Fresh.
  destruct (execute_live_state drv lower request st session t0 w0 t1 w1 w2
              G N0 N1 P) as [S D1].
  set (st1 := snd (execute drv lower request st)) in *. clearbody st1.
  assert (N' : NoDup (SMap.keys (sessions st1))).
  { rewrite S. now apply NoDup_set. }
  destruct (cleanupSessions_spec drv st1) as [st2 [E [S2 _]]].
  rewrite E. cbn [snd]. split.
  - rewrite S2, S. apply get_set_same.
  - intros D order Hd. rewrite (turns_drained drv order st2 Hd).
    rewrite (cleanupSessions_atRest drv st1 st2 N' (eq_trans D1 D) E).
    apply get_filter.
    + rewrite S. apply get_set_same.
    + unfold fresh_at. cbn [snd touched lastActivity].
      apply negb_true_iff. rewrite Z.gtb_ltb. now apply Z.ltb_ge.
Qed.

End ActiveFacts.

Section ClickFacts.

Context {W : Type} (drv : Driver W).

(** The loop of [clickButton] over click strategies on [sels]. *)
Lemma tryStrategies_outcome page label : forall sels (st : State W),
  exists res st' evs,
    tryStrategies drv page label
      (map (fun sel => pageClick drv page sel 2000) sels) st = (Ok res, st') /\
    log st' = log st ++ evs /\
    clickOutcome page sels (clickedMessage label) evs res.
Proof.
  induction sels as [|sel rest IH]; intros st; cbn [map tryStrategies].
  - exists clickFailed, st, []. unfold ret. split; [reflexivity|].
    split; [now rewrite app_nil_r|]. left. split; [reflexivity|].
    split; [constructor | intros []].
  - assert (Next : forall (st1 : State W) evs1 b,
               log st1 = log st ++ evs1 ->
               In (CClick page sel 2000, b) evs1 ->
               ~ In (CWaitForTimeout page 1000, true) evs1 ->
               exists res st' evs,
                 tryStrategies drv page label
                   (map (fun sel => pageClick drv page sel 2000) rest) st1 =
                   (Ok res, st') /\
                 log st' = log st ++ evs /\
                 clickOutcome page (sel :: rest) (clickedMessage label) evs res).
    { intros st1 evs1 b L1 Hc Hw.
      destruct (IH st1) as [res [st' [evs [E [L O]]]]].
      exists res, st', (evs1 ++ evs). split; [exact E|].
      split; [now rewrite L, L1, app_assoc|].
      destruct O as [[-> [Fa Nw]] | [o [s [-> [Hs [Hcl Hwt]]]]]].
      - left. split; [reflexivity|]. split.
        + constructor.
          * exists b. apply in_or_app. now left.
          * apply Forall_impl with (2 := Fa). intros s [b' Hb'].
            exists b'. apply in_or_app. now right.
        + intros Hin. apply in_app_or in Hin. tauto.
      - right. exists o, s. split; [reflexivity|]. split; [now right|].
        split; apply in_or_app; now right. }
    unfold bind at 1, try_catch at 1, bind at 1, pageClick at 1, invoke at 1.
    destruct (drv_click drv page sel 2000 (world st)) as [[[]|] w1]; cbn [is_ok].
    2:{ unfold ret at 1.
        eapply Next with (b := false) (evs1 := [(CClick page sel 2000, false)]);
          [reflexivity | now left |].
        intros [H | []]. discriminate H. }
    unfold bind at 1, waitForTimeout at 1, invoke at 1. cbn [world].
    destruct (drv_waitForTimeout drv page 1000 w1) as [[[]|] w2]; cbn [is_ok].
    2:{ unfold ret at 1.
        eapply Next with (b := true)
                         (evs1 := [(CClick page sel 2000, true);
                                   (CWaitForTimeout page 1000, false)]);
          [cbn [log]; now rewrite <- app_assoc | now left |].
        intros [H | [H | []]]; discriminate H. }
    unfold bind at 1.
    match goal with
    | |- context [quickObserve drv page ?s] =>
      destruct (returns_quickObserve drv page s) as [o [st3 Eo]];
        pose proof (quiet_quickObserve drv page s) as Q
    end.
    rewrite Eo in *. cbn [snd] in Q. destruct Q as [_ [_ [_ [evs Lo]]]].
    cbn [log] in Lo. unfold ret.
    exists (snapshot (clickedMessage label) o), st3,
      ([(CClick page sel 2000, true); (CWaitForTimeout page 1000, true)] ++ evs).
    split; [reflexivity|]. split; [now rewrite Lo, <- !app_assoc|].
    right. exists o, sel. split; [reflexivity|]. split; [now left|].
    split; [now left | right; now left].
Qed.

Lemma clickButton_outcome page selector label (st : State W) :
  truthy label = true ->
  exists res st' evs,
    clickButton drv page selector (Some label) st = (Ok res, st') /\
    log st' = log st ++ evs /\
    clickOutcome page (clickSelectors selector label)
      (js "Кликнах " ++ dq ++ label ++ dq) evs res.
Proof.
  intros T.
  destruct (tryStrategies_outcome page (Some label) (clickSelectors selector label) st)
    as [res [st' [evs [E [L O]]]]].
  exists res, st', evs. split; [|split; [exact L|]].
  - unfold clickButton, strategies, byText. rewrite T.
    unfold try_catch. unfold clickSelectors in E. cbn [map] in E. now rewrite E.
  - unfold clickedMessage in O. cbn [truthy_opt] in O. now rewrite T in O.
Qed.

End ClickFacts.

(** X21: a session that was just used outlives the sweep.  After an
    [execute] on a live page, a cleanup sweep whose clock reading is at
    most SESSION_TIMEOUT after the reading that [execute] stored keeps
    the session, with that reading as its [lastActivity]: the store holds
    it when the sweep returns and, when no close was pending before, also
    once the closes that the sweep detached are through. *)
Theorem active_session_survives_sweep :
  forall W (drv : Driver W) lower request (st : State W) session t0 w0 t1 w1 w2,
    NoDup (SMap.keys (sessions st)) ->
    SMap.get (req_site_id request) (sessions st) = Some session ->
    drv_now drv (world st) = (t0, w0) ->
    drv_now drv w0 = (t1, w1) ->
    drv_probe drv (page session) w1 = (Ok tt, w2) ->
    (fst (drv_now drv (world (snd (execute drv lower request st)))) - t1
     <= SESSION_TIMEOUT)%Z ->
    SMap.get (req_site_id request)
      (sessions (snd (cleanupSessions drv (snd (execute drv lower request st))))) =
    Some (touched session t1) /\
    (detached st = [] ->
     forall order,
       detached
         (snd (turns drv order
                 (snd (cleanupSessions drv (snd (execute drv lower request st)))))) =
       [] ->
       SMap.get (req_site_id request)
         (sessions
            (snd (turns drv order
                    (snd (cleanupSessions drv
                            (snd (execute drv lower request st))))))) =
       Some (touched session t1)).
Proof.
  intros W drv lower request st session t0 w0 t1 w1 w2. apply live_then_sweep.
Qed.

Lemma active_session_survives_sweep_witness :
  SMap.get (Sim.site 0)
    (sessions (snd (cleanupSessions Sim.driver
                      (snd (execute Sim.driver Sim.lower Runs.bookingRequest
                              Fixtures.one))))) =
  Some (touched Fixtures.session0 2504) /\
  (detached Fixtures.one = [] ->
   forall order,
     detached
       (snd (turns Sim.driver order
               (snd (cleanupSessions Sim.driver
                       (snd (execute Sim.driver Sim.lower Runs.bookingRequest
                               Fixtures.one)))))) = [] ->
     SMap.get (Sim.site 0)
       (sessions
          (snd (turns Sim.driver order
                  (snd (cleanupSessions Sim.driver
                          (snd (execute Sim.driver Sim.lower Runs.bookingRequest
                                  Fixtures.one))))))) =
     Some (touched Fixtures.session0 2504)).
Proof.
  apply (active_session_survives_sweep Sim.World Sim.driver Sim.lower
           Runs.bookingRequest Fixtures.one Fixtures.session0
           2503 (snd (drv_now Sim.driver (world Fixtures.one)))
           2504 (snd (drv_now Sim.driver (snd (drv_now Sim.driver (world Fixtures.one)))))
           (snd (drv_now Sim.driver (snd (drv_now Sim.driver (world Fixtures.one))))));
    try (vm_compute; reflexivity).
  - apply distinct_NoDup. vm_compute. reflexivity.
  - apply Z.leb_le. vm_compute. reflexivity.
Defined.

(** X22: for a button with a label, a click that [clickButton] reports was
    made.  The result is either the failure message, after each of the
    four selectors (the button's own, and the text, button and link
    selectors built from the label) was clicked and no click was followed
    by a wait that returned; or the message that names the label, and
    then a click on one of the four selectors returned and so did the
    wait after it. *)
Theorem clickButton_labelled_click_is_real :
  forall W (drv : Driver W) page selector label (st : State W),
    truthy label = true ->
    exists res st' evs,
      clickButton drv page selector (Some label) st = (Ok res, st') /\
      log st' = log st ++ evs /\
      clickOutcome page (clickSelectors selector label)
        (js "Кликнах " ++ dq ++ label ++ dq) evs res.
Proof.
  intros W drv page selector label st T. apply clickButton_outcome. exact T.
Qed.

Lemma clickButton_labelled_click_is_real_witness :
  exists res st' evs,
    clickButton Sim.driver 1 (js "#gone") (Some (js "Резервирай")) Fixtures.one =
      (Ok res, st') /\
    log st' = log Fixtures.one ++ evs /\
    clickOutcome 1 (clickSelectors (js "#gone") (js "Резервирай"))
      (js "Кликнах " ++ dq ++ js "Резервирай" ++ dq) evs res.
Proof.
  apply (clickButton_labelled_click_is_real Sim.World Sim.driver 1 (js "#gone")
           (js "Резервирай") Fixtures.one).
  vm_compute. reflexivity.
Defined.

(* ------------------------------------------------------------------ *)
(** ** The type of an observed button *)

Section CaseFacts.

Variable upper : jsstring -> jsstring.

Lemma LitI_runs_complete l rest : In (l, rest) (runs (LitI upper l) (l ++ rest)).
Proof.
  induction l as [|c l IH]; cbn [LitI app].
  - now left.
  - change (In (c :: l, rest)
              (flat_map
                 (fun mr1 =>
                    map (fun mr2 => (fst mr1 ++ fst mr2, snd mr2))
                        (runs (LitI upper l) (snd mr1)))
                 (if (canonicalize upper c =? canonicalize upper c)%N
                  then [([c], l ++ rest)] else []))).
    rewrite N.eqb_refl. cbn [flat_map fst snd]. rewrite app_nil_r.
    apply in_map_iff. now exists (l, rest).
Qed.

Lemma AnyOfI_runs alternatives : forall a s mr,
  In a alternatives -> In mr (runs (LitI upper a) s) ->
  In mr (runs (AnyOfI upper alternatives) s).
Proof.
  induction alternatives as [|a0 rest IH]; intros a s mr Ha Hr; [destruct Ha|].
  destruct rest as [|a1 rest].
  - destruct Ha as [<- | []]. exact Hr.
  - change (In mr (runs (LitI upper a0) s ++ runs (AnyOfI upper (a1 :: rest)) s)).
    apply in_or_app. destruct Ha as [<- | Ha]; [now left | right].
    now apply (IH a).
Qed.

Lemma test_AnyOfI_includes alternatives a s :
  In a alternatives -> includes s a = true ->
  test (AnyOfI upper alternatives) s = true.
Proof.
  intros Ha Hi. apply includes_split in Hi. destruct Hi as [before [rest ->]].
  unfold test.
  destruct (search (AnyOfI upper alternatives) (before ++ a ++ rest)) eqn:E;
    [reflexivity|].
  exfalso. revert E. apply search_found_later.
  apply (exec_of_In _ _ a rest).
  apply (AnyOfI_runs alternatives a); [exact Ha | apply LitI_runs_complete].
Qed.

End CaseFacts.

(** X23: a button whose lower-cased text contains one of the booking words
    is typed booking, whatever else the text contains; one whose
    lower-cased text contains a contact word is typed booking or contact,
    never submit or other. *)
Theorem detectButtonType_by_word :
  forall lower upper text word,
    includes (lower text) word = true ->
    (In word bookingWords -> detectButtonType lower upper text = booking) /\
    (In word contactWords ->
     detectButtonType lower upper text = booking \/
     detectButtonType lower upper text = contact).
Proof.
  intros lower upper text word Hi. unfold detectButtonType. cbv zeta. split.
  - intros Hw.
    pose proof (test_AnyOfI_includes upper bookingWords word (lower text) Hw Hi) as T.
    unfold bookingWords in T. rewrite T. reflexivity.
  - intros Hw.
    pose proof (test_AnyOfI_includes upper contactWords word (lower text) Hw Hi) as T.
    unfold contactWords in T. rewrite T.
    destruct (test (AnyOfI upper (map js ["резерв"; "book"; "запази"; "reserve"]%string))
                   (lower text)); [now left | now right].
Qed.

Lemma detectButtonType_by_word_witness :
  detectButtonType Sim.lower SimExt.upper (js "Contact us to BOOK") = booking.
Proof.
  apply (detectButtonType_by_word Sim.lower SimExt.upper (js "Contact us to BOOK")
           (js "book")).
  - vm_compute. reflexivity.
  - vm_compute. right. left. reflexivity.
Defined.
